(** * prsr: the streaming tokenizer of [token.c]

    A shallow embedding of [token.c] (the scanner proper, its bracket
    bit-stack, the template-literal resumption flags and the
    expression-context oracle), followed by the statements about it.

    Conventions of the embedding.
    - A C [char] is a [Z] holding the value of a signed char
      ([-128 .. 127]); the test [c < 0] of the literal scanner is kept as
      written.
    - C [int] values (offsets, lengths, line numbers, return codes) are
      [Z]; no buffer is anywhere near [2^31] bytes, so no wrap-around
      occurs.
    - [uint32_t] stack words are [Z] in [0 .. 2^32), bit operations are
      those of [Z].
    - The memory [d->buf] points to is a [list Z]; a read past the end of
      the list yields NUL.
    - The oracle [tv.check(tv.context)] may change its context, so it is a
      function from the context to the returned [int] and the new
      context. *)

From Stdlib Require Import ZArith List Bool Ascii String Lia.
Import ListNotations.
Open Scope Z_scope.

(** ** Characters and <ctype.h> *)

(** The signed-char value of a character constant. *)
Definition ch (a : ascii) : Z :=
  let n := Z.of_N (N_of_ascii a) in
  if n <? 128 then n else n - 256.

(** The bytes of a string constant, without its terminator. *)
Fixpoint bytes (s : string) : list Z :=
  match s with
  | EmptyString => []
  | String a s' => ch a :: bytes s'
  end.

(** A NUL-terminated C string in memory. *)
Definition cstr (s : string) : list Z := bytes s ++ [0].

Arguments ch a%_char.
Arguments bytes s%_string.
Arguments cstr s%_string.

Definition NL : Z := 10.
Definition BACKSLASH : Z := 92.
Definition SQUOTE : Z := 39.
Definition DQUOTE : Z := 34.

Definition isspace (c : Z) : bool := ((9 <=? c) && (c <=? 13)) || (c =? 32).
Definition isalpha (c : Z) : bool :=
  ((65 <=? c) && (c <=? 90)) || ((97 <=? c) && (c <=? 122)).
Definition isdigit (c : Z) : bool := (48 <=? c) && (c <=? 57).
Definition isalnum (c : Z) : bool := isalpha c || isdigit c.

(** Modelled from the spec: [isnum] comes from [utils.h], which is not
    among the sources; the spec calls it "an ASCII digit". *)
Definition isnum (c : Z) : bool := isdigit c.

(** [strchr(s, c) != NULL]: the terminator of [s] is part of the search,
    as in C. *)
Definition strchr (s : string) (c : Z) : bool :=
  existsb (Z.eqb c) (cstr s).
Arguments strchr s%_string c.

(** ** Data model *)

(** Modelled from the spec: the token kinds are declared in the [token.h]
    that belongs to this [token.c], which is not among the sources; the
    closed set is the one of the spec's data model. *)
Inductive token_type : Type :=
| TOKEN_EOF | TOKEN_COMMENT | TOKEN_SEMICOLON | TOKEN_OP | TOKEN_COLON
| TOKEN_BRACE | TOKEN_ARRAY | TOKEN_PAREN | TOKEN_TERNARY | TOKEN_CLOSE
| TOKEN_STRING | TOKEN_REGEXP | TOKEN_NUMBER | TOKEN_DOT | TOKEN_SPREAD
| TOKEN_ARROW | TOKEN_T_BRACE | TOKEN_LIT | TOKEN_COMMA.

Definition token_type_eqb (a b : token_type) : bool :=
  match a, b with
  | TOKEN_EOF, TOKEN_EOF | TOKEN_COMMENT, TOKEN_COMMENT
  | TOKEN_SEMICOLON, TOKEN_SEMICOLON | TOKEN_OP, TOKEN_OP
  | TOKEN_COLON, TOKEN_COLON | TOKEN_BRACE, TOKEN_BRACE
  | TOKEN_ARRAY, TOKEN_ARRAY | TOKEN_PAREN, TOKEN_PAREN
  | TOKEN_TERNARY, TOKEN_TERNARY | TOKEN_CLOSE, TOKEN_CLOSE
  | TOKEN_STRING, TOKEN_STRING | TOKEN_REGEXP, TOKEN_REGEXP
  | TOKEN_NUMBER, TOKEN_NUMBER | TOKEN_DOT, TOKEN_DOT
  | TOKEN_SPREAD, TOKEN_SPREAD | TOKEN_ARROW, TOKEN_ARROW
  | TOKEN_T_BRACE, TOKEN_T_BRACE | TOKEN_LIT, TOKEN_LIT
  | TOKEN_COMMA, TOKEN_COMMA => true
  | _, _ => false
  end.

(** [token]: [p] is the offset of the token in the buffer (the C field is
    the pointer [d->buf + offset]). *)
Record token : Type := mk_token {
  p : Z;
  t_len : Z;
  t_type : token_type;
  t_line_no : Z;
  lit_next_colon : bool
}.

(** [eat_out]: [eo_type = None] is the sentinel [-1] ("found nothing"). *)
Record eat_out : Type := mk_eat_out {
  eo_len : Z;
  eo_type : option token_type
}.

(** Modelled from the spec: the [tokendef] this [token.c] works on (with
    [curr], [len] and a stack of 32-bit words) is declared in a [token.h]
    that is not among the sources; the fields are the ones [token.c]
    uses. *)
Record tokendef : Type := mk_tokendef {
  buf : list Z;
  curr : Z;
  len : Z;
  line_no : Z;
  flag : Z;
  depth : Z;
  stack : list Z
}.

(** Modelled from the spec: [__STACK_SIZE], "the source uses 256 entries". *)
Definition STACK_SIZE : Z := 256.

Definition FLAG__PENDING_T_BRACE : Z := 1.
Definition FLAG__RESUME_LIT : Z := 2.

(** [tokenvalue]: the oracle and its opaque context. *)
Record tokenvalue (C : Type) : Type := mk_tokenvalue {
  check : C -> Z * C;
  context : C
}.
Arguments mk_tokenvalue {C} _ _.
Arguments check {C} _ _.
Arguments context {C} _.

Definition set_curr (d : tokendef) (v : Z) : tokendef :=
  mk_tokendef (buf d) v (len d) (line_no d) (flag d) (depth d) (stack d).
Definition set_line_no (d : tokendef) (v : Z) : tokendef :=
  mk_tokendef (buf d) (curr d) (len d) v (flag d) (depth d) (stack d).
Definition set_flag (d : tokendef) (v : Z) : tokendef :=
  mk_tokendef (buf d) (curr d) (len d) (line_no d) v (depth d) (stack d).
Definition set_stack (d : tokendef) (dp : Z) (st : list Z) : tokendef :=
  mk_tokendef (buf d) (curr d) (len d) (line_no d) (flag d) dp st.

(** ** Memory reads *)

(** [d->buf[i]]. *)
Definition buf_at (d : tokendef) (i : Z) : Z :=
  if i <? 0 then 0 else nth (Z.to_nat i) (buf d) 0.

(** The memory from [d->buf + i] on. *)
Definition mem_from (d : tokendef) (i : Z) : list Z :=
  skipn (Z.to_nat i) (buf d).

Definition peek_char (d : tokendef) (k : Z) : Z :=
  let out := curr d + k in
  if out <? len d then buf_at d out else 0.

(** ** The bracket bit-stack *)

Fixpoint upd_nth (i : nat) (v : Z) (l : list Z) : list Z :=
  match l, i with
  | [], _ => []
  | _ :: r, O => v :: r
  | x :: r, S i' => x :: upd_nth i' v r
  end.

Definition UINT32_MAX : Z := 4294967295.

Definition stack_inc (d : tokendef) (t_brace : bool) : Z * tokendef :=
  if depth d =? STACK_SIZE then (-1, d)
  else
    let i := Z.to_nat (Z.shiftr (depth d) 5) in
    let set := Z.shiftl 1 (Z.land (depth d) 31) in
    let w := nth i (stack d) 0 in
    let w' := if t_brace then Z.lor w set
              else Z.land w (Z.lxor set UINT32_MAX) in
    (0, set_stack d (depth d + 1) (upd_nth i w' (stack d))).

Definition stack_dec (d : tokendef) : Z * tokendef :=
  if depth d =? 0 then (-1, d)
  else
    let d := set_stack d (depth d - 1) (stack d) in
    let w := nth (Z.to_nat (Z.shiftr (depth d) 5)) (stack d) 0 in
    let check := Z.shiftl 1 (Z.land (depth d) 31) in
    if negb (Z.land w check =? 0) then (1, d) else (0, d).

(** ** <string.h> on the buffer *)

(** [needle] (which holds no NUL) is at the very start of [hay]. *)
Fixpoint starts_with (needle hay : list Z) : bool :=
  match needle, hay with
  | [], _ => true
  | _ :: _, [] => false
  | n :: needle', h :: hay' => (n =? h) && starts_with needle' hay'
  end.

(** [strstr(hay, needle)], as the offset [at - hay] of the first
    occurrence; [None] is [NULL].  The search ends at the terminator of
    [hay]. *)
Fixpoint strstr (hay needle : list Z) : option Z :=
  match hay with
  | [] => None
  | c :: hay' =>
      if starts_with needle hay then Some 0
      else if c =? 0 then None
      else option_map Z.succ (strstr hay' needle)
  end.

(** The [strchr(newline, 10)] loop of the long comment: one increment of
    [line_no] for each newline among the first [n] bytes of [search]
    (those before [at]). *)
Fixpoint count_newlines (search : list Z) (n : nat) : Z :=
  match n, search with
  | O, _ => 0
  | _, [] => 0
  | S n', c :: search' =>
      (if c =? NL then 1 else 0) + count_newlines search' n'
  end.

(** ** eat_token *)

(** [_CONSUME(len, type)] stores into [eat] and has the value 0. *)
Definition CONSUME (l : Z) (t : token_type) : eat_out := mk_eat_out l (Some t).

(** [eat] as [eat_token] leaves it on the two paths that return before
    any [_CONSUME] (the caller does not read it there). *)
Definition eo_unset : eat_out := mk_eat_out 0 None.

Definition eat_step : Type := (Z * eat_out * tokendef)%type.

(** [if (c == 10) ++d->line_no]. *)
Definition bump_newline (d : tokendef) (c : Z) : tokendef :=
  if c =? NL then set_line_no d (line_no d + 1) else d.

(** Loops that walk the buffer through [peek_char] get as fuel the number
    of bytes left plus two; [peek_char] returns 0 from [d->len] on, which
    ends every one of them first (see the [_fuel] lemmas). *)
Definition fuel_of (d : tokendef) : nat := S (S (Z.to_nat (len d - curr d))).

(** Comments, C99 and long: the first [do { ... } while (0)]. *)
Definition eat_comment (d : tokendef) (c next : Z) : option eat_step :=
  if negb (c =? ch "/") then None
  else if (next =? ch "/") || (next =? ch "*") then
    let find := if next =? ch "/" then [NL] else [ch "*"; ch "/"] in
    let search := mem_from d (curr d + 2) in
    match strstr search find with
    | None => Some (0, CONSUME (len d - curr d) TOKEN_COMMENT, d)
    | Some at_ =>
        let l := at_ + 2 in
        if next =? ch "/" then Some (0, CONSUME l TOKEN_COMMENT, d)
        else
          let d := set_line_no d
                     (line_no d + count_newlines search (Z.to_nat at_)) in
          Some (0, CONSUME (l + 2) TOKEN_COMMENT, d)
    end
  else None.

(** The [switch (c)] of unambiguous characters. *)
Definition eat_punct (d : tokendef) (c : Z) : option eat_step :=
  if c =? ch ";" then Some (0, CONSUME 1 TOKEN_SEMICOLON, d)
  else if c =? ch "?" then Some (0, CONSUME 1 TOKEN_TERNARY, d)
  else if c =? ch ":" then Some (0, CONSUME 1 TOKEN_COLON, d)
  else if c =? ch "," then Some (0, CONSUME 1 TOKEN_COMMA, d)
  else if c =? ch "(" then
    let '(r, d) := stack_inc d false in Some (r, CONSUME 1 TOKEN_PAREN, d)
  else if c =? ch "[" then
    let '(r, d) := stack_inc d false in Some (r, CONSUME 1 TOKEN_ARRAY, d)
  else if c =? ch "{" then
    let '(r, d) := stack_inc d false in Some (r, CONSUME 1 TOKEN_BRACE, d)
  else if c =? ch ")" then
    let '(r, d) := stack_dec d in Some (r, CONSUME 1 TOKEN_CLOSE, d)
  else if c =? ch "]" then
    let '(r, d) := stack_dec d in Some (r, CONSUME 1 TOKEN_CLOSE, d)
  else if c =? ch "}" then
    let '(ret, d) := stack_dec d in
    if ret <? 0 then Some (ret, eo_unset, d)
    else
      let d := if 0 <? ret then set_flag d FLAG__RESUME_LIT else d in
      Some (0, CONSUME 1 TOKEN_CLOSE, d)
  else None.

(** [allowed]: how many characters of the same kind an operator takes. *)
Definition op_allowed (c : Z) : option nat :=
  if strchr "=&|^~!%/+-" c then Some 1%nat
  else if (c =? ch "*") || (c =? ch "<") then Some 2%nat
  else if c =? ch ">" then Some 3%nat
  else None.

(** [while (len < allowed) { c = peek_char(d, ++len); if (c != start) break; }]
    with [n = allowed - len] rounds left. *)
Fixpoint op_run (n : nat) (d : tokendef) (start l c : Z) : Z * Z :=
  match n with
  | O => (l, c)
  | S n' =>
      let l := l + 1 in
      let c := peek_char d l in
      if negb (c =? start) then (l, c) else op_run n' d start l c
  end.

(** The operator scanner after the oracle has let it through. *)
Definition eat_op_body (d : tokendef) (start : Z) : option eat_step :=
  match op_allowed start with
  | None => None
  | Some allowed =>
      let '(l, c) := op_run allowed d start 0 start in
      if (start =? ch "=") && (c =? ch ">") then
        Some (0, CONSUME 2 TOKEN_ARROW, d)
      else if (c =? start) && strchr "+-|&" start then
        Some (0, CONSUME (l + 1) TOKEN_OP, d)
      else if c =? ch "=" then
        let l := l + 1 in
        let c := peek_char d l in
        if (c =? ch "=") && ((start =? ch "=") || (start =? ch "!")) then
          Some (0, CONSUME (l + 1) TOKEN_OP, d)
        else Some (0, CONSUME l TOKEN_OP, d)
      else Some (0, CONSUME l TOKEN_OP, d)
  end.

(** Operators: the second [do { ... } while (0)], which asks the oracle
    when it stands on a slash. *)
Definition eat_op {C : Type} (d : tokendef) (tv : tokenvalue C) (c : Z)
  : option eat_step * tokenvalue C :=
  if c =? ch "/" then
    let '(has_value, ctx) := check tv (context tv) in
    let tv := mk_tokenvalue (check tv) ctx in
    if has_value <? 0 then (Some (has_value, eo_unset, d), tv)
    else if has_value =? 0 then (None, tv)
    else (eat_op_body d c, tv)
  else (eat_op_body d c, tv).

(** The string loop
    [while ((c = peek_char(d, ++len))) { ... }], entered at [start_string]
    with the opening quote in [start]. *)
Fixpoint string_loop (fuel : nat) (d : tokendef) (start l : Z)
  : Z * tokendef :=
  match fuel with
  | O => (l + 1, d)
  | S fuel' =>
      let l := l + 1 in
      let c := peek_char d l in
      if c =? 0 then (l, d)
      else if c =? start then (l + 1, d)
      else if c =? BACKSLASH then
        let l := l + 1 in
        let c := peek_char d l in
        string_loop fuel' (bump_newline d c) start l
      else if (start =? ch "`") && (c =? ch "$")
              && (peek_char d (l + 1) =? ch "{") then
        (l, set_flag d FLAG__PENDING_T_BRACE)
      else string_loop fuel' (bump_newline d c) start l
  end.

(** The string scanner from [start_string] to its [return]. *)
Definition scan_string (d : tokendef) (start l : Z) : eat_step :=
  let '(l, d) := string_loop (fuel_of d) d start l in
  (0, CONSUME l TOKEN_STRING, d).

(** Strings: entry through the quote at the cursor. *)
Definition eat_string (d : tokendef) (c : Z) : option eat_step :=
  if (c =? SQUOTE) || (c =? DQUOTE) || (c =? ch "`")
  then Some (scan_string d c 0)
  else None.

(** [resume_lit: start = backtick; len = -1;] and on into the string
    loop. *)
Definition resume_lit (d : tokendef) : eat_step := scan_string d (ch "`") (-1).

(** The number loop [for (;;) { if (!(isalnum(c) || c == '.')) break;
    c = peek_char(d, ++len); }]. *)
Fixpoint number_loop (fuel : nat) (d : tokendef) (l c : Z) : Z :=
  match fuel with
  | O => l
  | S fuel' =>
      if negb (isalnum c || (c =? ch ".")) then l
      else number_loop fuel' d (l + 1) (peek_char d (l + 1))
  end.

Definition eat_number (d : tokendef) (c next : Z) : option eat_step :=
  if isnum c || ((c =? ch ".") && isnum next) then
    Some (0, CONSUME (number_loop (fuel_of d) d 1 next) TOKEN_NUMBER, d)
  else None.

Definition eat_dot (d : tokendef) (c next : Z) : option eat_step :=
  if c =? ch "." then
    if (next =? ch ".") && (peek_char d 2 =? ch ".") then
      Some (0, CONSUME 3 TOKEN_SPREAD, d)
    else Some (0, CONSUME 1 TOKEN_DOT, d)
  else None.

(** The body loop of the regular expression,
    [do { ... } while (c)], one round per unit of fuel; the result is
    [len], [c] and the state when the loop is left. *)
Fixpoint regexp_loop (fuel : nat) (d : tokendef) (is_charexpr : bool)
    (l c : Z) : Z * Z * tokendef :=
  match fuel with
  | O => (l, 0, d)
  | S fuel' =>
      let round (is_charexpr : bool) (l c : Z) :=
        let d := bump_newline d c in
        let l := l + 1 in
        let c := peek_char d l in
        if c =? 0 then (l, c, d) else regexp_loop fuel' d is_charexpr l c in
      if c =? ch "[" then round true l c
      else if c =? ch "]" then round false l c
      else if c =? BACKSLASH then
        let l := l + 1 in
        round is_charexpr l (peek_char d l)
      else if negb is_charexpr && (c =? ch "/") then
        let l := l + 1 in
        (l, peek_char d l, d)
      else round is_charexpr l c
  end.

(** [while (isalnum(c)) { c = peek_char(d, ++len); }]. *)
Fixpoint flags_loop (fuel : nat) (d : tokendef) (l c : Z) : Z :=
  match fuel with
  | O => l
  | S fuel' =>
      if isalnum c then flags_loop fuel' d (l + 1) (peek_char d (l + 1))
      else l
  end.

Definition eat_regexp (d : tokendef) (c next : Z) : option eat_step :=
  if c =? ch "/" then
    let '(l, c, d) := regexp_loop (fuel_of d) d false 1 next in
    Some (0, CONSUME (flags_loop (fuel_of d) d l c) TOKEN_REGEXP, d)
  else None.

(** [while (c && c != '}') { c = peek_char(d, ++len); }] of the
    backslash-u-brace escape. *)
Fixpoint brace_loop (fuel : nat) (d : tokendef) (l c : Z) : Z * Z :=
  match fuel with
  | O => (l, 0)
  | S fuel' =>
      if negb (c =? 0) && negb (c =? ch "}")
      then brace_loop fuel' d (l + 1) (peek_char d (l + 1))
      else (l, c)
  end.

(** The literal loop [do { ... } while (c)]; the result is [len]. *)
Fixpoint lit_loop (fuel : nat) (d : tokendef) (l c : Z) : Z :=
  match fuel with
  | O => l
  | S fuel' =>
      if c =? BACKSLASH then
        let l := l + 1 in
        let l := l + 1 in
        let c := peek_char d l in
        if negb (c =? ch "{") then
          if c =? 0 then l else lit_loop fuel' d l c
        else
          let '(l, c) := brace_loop (fuel_of d) d l c in
          let l := l + 1 in
          if c =? 0 then l else lit_loop fuel' d l c
      else
        let valid :=
          (if negb (l =? 0) then isalnum c else isalpha c)
          || (c =? ch "$") || (c =? ch "_") || (c <? 0) in
        if negb valid then l
        else
          let l := l + 1 in
          let c := peek_char d l in
          if c =? 0 then l else lit_loop fuel' d l c
  end.

(** Literals, and the final "found nothing". *)
Definition eat_lit (d : tokendef) (c : Z) : eat_step :=
  let l := lit_loop (fuel_of d) d 0 c in
  if negb (l =? 0) then (0, CONSUME l TOKEN_LIT, d)
  else (0, mk_eat_out 0 None, d).

(** What [eat_token] returns: the [int], [*eat], the scanner and the
    oracle's state. *)
Record eaten (C : Type) : Type := mk_eaten {
  e_ret : Z;
  e_out : eat_out;
  e_d : tokendef;
  e_tv : tokenvalue C
}.
Arguments mk_eaten {C} _ _ _ _.
Arguments e_ret {C} _.
Arguments e_out {C} _.
Arguments e_d {C} _.
Arguments e_tv {C} _.

Definition eaten_of {C : Type} (s : eat_step) (tv : tokenvalue C) : eaten C :=
  let '(r, eo, d) := s in mk_eaten r eo d tv.

Definition or_else {A : Type} (o : option A) (k : A) : A :=
  match o with Some a => a | None => k end.

(** The part of [eat_token] below the operators (strings, numbers, dots,
    regular expressions, literals). *)
Definition eat_rest (d : tokendef) (c next : Z) : eat_step :=
  match eat_string d c with
  | Some s => s
  | None =>
    match eat_number d c next with
    | Some s => s
    | None =>
      match eat_dot d c next with
      | Some s => s
      | None =>
        match eat_regexp d c next with
        | Some s => s
        | None => eat_lit d c
        end
      end
    end
  end.

(** [eat_token] below the flag states: comments, the [switch],
    operators, and the rest, in the order of the source. *)
Definition dispatch {C : Type} (d : tokendef) (tv : tokenvalue C) (c : Z)
  : eaten C :=
  let next := peek_char d 1 in
  match eat_comment d c next with
  | Some s => eaten_of s tv
  | None =>
    match eat_punct d c with
    | Some s => eaten_of s tv
    | None =>
      match eat_op d tv c with
      | (Some s, tv) => eaten_of s tv
      | (None, tv) => eaten_of (eat_rest d c next) tv
      end
    end
  end.

Definition eat_token {C : Type} (d : tokendef) (tv : tokenvalue C) : eaten C :=
  let flag0 := flag d in
  let d := set_flag d 0 in
  let c := peek_char d 0 in
  if c =? 0 then
    mk_eaten (if 0 <? depth d then 1 else 0) (CONSUME 0 TOKEN_EOF) d tv
  else if negb (Z.land flag0 FLAG__PENDING_T_BRACE =? 0) then
    let '(r, d) := stack_inc d true in
    mk_eaten r (CONSUME 2 TOKEN_T_BRACE) d tv
  else if negb (Z.land flag0 FLAG__RESUME_LIT =? 0) then
    eaten_of (resume_lit d) tv
  else dispatch d tv c.

(** ** lookahead_char *)

(** [for (;; ++p) { if (!isspace( *p )) break; }] from offset [i]. *)
Fixpoint skip_space (mem : list Z) (i : Z) : Z :=
  match mem with
  | [] => i
  | c :: mem' => if isspace c then skip_space mem' (i + 1) else i
  end.

(** The outer [for (;;)] of [lookahead_char], with [p = d->buf + i]; every
    round but the last moves [p] forward over a whole comment. *)
Fixpoint lookahead_loop (fuel : nat) (d : tokendef) (i : Z) : Z :=
  match fuel with
  | O => 0
  | S fuel' =>
      let i := skip_space (mem_from d i) i in
      let c := buf_at d i in
      if negb (c =? ch "/") then c
      else
        let next := buf_at d (i + 1) in
        if (next =? ch "/") || (next =? ch "*") then
          let find := if next =? ch "/" then [NL] else [ch "*"; ch "/"] in
          match strstr (mem_from d (i + 2)) find with
          | None => 0
          | Some at_ =>
              let i := i + 2 + at_ + 1 in
              let i := if negb (next =? ch "/") then i + 1 else i in
              lookahead_loop fuel' d i
          end
        else c
  end.

Definition lookahead_char (d : tokendef) : Z :=
  if negb (Z.land (flag d) FLAG__RESUME_LIT =? 0) then ch "`"
  else lookahead_loop (S (List.length (buf d))) d (curr d).

(** ** prsr_next_token *)

(** The whitespace loop at the head of [prsr_next_token]:
    [for (char c;; ++d->curr) { c = d->buf[d->curr]; if (c == 10)
    ++d->line_no; else if (!isspace(c)) break; }], over the memory from
    the cursor on. *)
Fixpoint skip_loop (mem : list Z) (cur line : Z) : Z * Z :=
  match mem with
  | [] => (cur, line)
  | c :: mem' =>
      if c =? NL then skip_loop mem' (cur + 1) (line + 1)
      else if negb (isspace c) then (cur, line)
      else skip_loop mem' (cur + 1) line
  end.

Definition skip_whitespace (d : tokendef) : tokendef :=
  let '(cur, line) := skip_loop (mem_from d (curr d)) (curr d) (line_no d) in
  set_line_no (set_curr d cur) line.

(** What a call of [prsr_next_token] leaves behind: the returned [int],
    the scanner, the token slot [*out] and the oracle's state. *)
Record next_token (C : Type) : Type := mk_next_token {
  n_ret : Z;
  n_d : tokendef;
  n_out : token;
  n_tv : tokenvalue C
}.
Arguments mk_next_token {C} _ _ _ _.
Arguments n_ret {C} _.
Arguments n_d {C} _.
Arguments n_out {C} _.
Arguments n_tv {C} _.

Definition prsr_next_token {C : Type} (d : tokendef) (out : token)
    (tv : tokenvalue C) : next_token C :=
  let d := skip_whitespace d in
  let out := mk_token (p out) (t_len out) (t_type out) (line_no d)
               (lit_next_colon out) in
  let e := eat_token d tv in
  let d := e_d e in
  if e_ret e <? 0 then mk_next_token (e_ret e) d out (e_tv e)
  else
    match eo_type (e_out e) with
    | None => mk_next_token (curr d) d out (e_tv e)
    | Some ty =>
        let at_ := curr d in
        let d := set_curr d (curr d + eo_len (e_out e)) in
        let colon :=
          if token_type_eqb ty TOKEN_LIT
          then lookahead_char d =? ch ":" else false in
        mk_next_token 0 d
          (mk_token at_ (eo_len (e_out e)) ty (t_line_no out) colon)
          (e_tv e)
    end.

(** ** prsr_init_token *)

Fixpoint strlen (s : list Z) : Z :=
  match s with
  | [] => 0
  | c :: s' => if c =? 0 then 0 else 1 + strlen s'
  end.

(** [bzero(&d, sizeof(d))] leaves eight zero words of stack. *)
Definition prsr_init_token (mem : list Z) : tokendef :=
  mk_tokendef mem 0 (strlen mem) 1 0 0 (repeat 0 8).

(** ** Running the scanner *)

(** A caller's token slot before the first call. *)
Definition slot0 : token := mk_token 0 0 TOKEN_EOF 0 false.

(** The caller's loop: call [prsr_next_token] until it returns non-zero or
    the slot holds EOF; every call is recorded with its return value, the
    cursor it started from and the slot it left. *)
Record call : Type := mk_call {
  c_ret : Z;
  c_from : Z;
  c_tok : token
}.

Fixpoint run {C : Type} (calls : nat) (d : tokendef) (out : token)
    (tv : tokenvalue C) : list call :=
  match calls with
  | O => []
  | S calls' =>
      let r := prsr_next_token d out tv in
      let here := mk_call (n_ret r) (curr d) (n_out r) in
      if negb (n_ret r =? 0) then [here]
      else if token_type_eqb (t_type (n_out r)) TOKEN_EOF then [here]
      else here :: run calls' (n_d r) (n_out r) (n_tv r)
  end.

(** The state after [n] calls. *)
Fixpoint after {C : Type} (n : nat) (d : tokendef) (out : token)
    (tv : tokenvalue C) : next_token C :=
  match n with
  | O => mk_next_token 0 d out tv
  | S n' =>
      let r := after n' d out tv in
      prsr_next_token (n_d r) (n_out r) (n_tv r)
  end.

(** An oracle that always answers [v] and counts how often it is asked. *)
Definition answering (v : Z) : tokenvalue nat :=
  mk_tokenvalue (fun n => (v, S n)) 0%nat.

(** Kind and length of each token of a run. *)
Definition shape (cs : list call) : list (token_type * Z) :=
  map (fun c => (t_type (c_tok c), t_len (c_tok c))) cs.

Definition scan (s : string) (v : Z) : list call :=
  let mem := cstr s in
  run (S (List.length mem)) (prsr_init_token mem) slot0 (answering v).
Arguments scan s%_string v.

Definition LF : string := String (ascii_of_nat 10) EmptyString.

(** Bytes a run has walked over: for every call the whitespace before the
    token ([p] minus the cursor the call started from) plus the token's
    length. *)
Definition consumed (cs : list call) : Z :=
  fold_right (fun c acc => (p (c_tok c) - c_from c) + t_len (c_tok c) + acc)
    0 cs.

(** ** Vocabulary of the statements *)

(** The byte the dispatcher stands on, and the one after it. *)
Definition standing (d : tokendef) : Z := peek_char d 0.
Definition following (d : tokendef) : Z := peek_char d 1.

(** No flag is armed / pending-substitution-open is armed /
    resume-template-literal is armed (and is the one [eat_token] acts
    on). *)
Definition plain (d : tokendef) : Prop :=
  Z.land (flag d) FLAG__PENDING_T_BRACE = 0
  /\ Z.land (flag d) FLAG__RESUME_LIT = 0.
Definition pending (d : tokendef) : Prop :=
  Z.land (flag d) FLAG__PENDING_T_BRACE <> 0.
Definition resuming (d : tokendef) : Prop :=
  Z.land (flag d) FLAG__PENDING_T_BRACE = 0
  /\ Z.land (flag d) FLAG__RESUME_LIT <> 0.

(** The bit of the entry on top of the stack (the one a pop returns). *)
Definition top_bit (d : tokendef) : bool :=
  negb (Z.land (nth (Z.to_nat (Z.shiftr (depth d - 1) 5)) (stack d) 0)
               (Z.shiftl 1 (Z.land (depth d - 1) 31)) =? 0).

(** The slash at the cursor does not begin a comment. *)
Definition slash_not_comment (d : tokendef) : Prop :=
  standing d = ch "/" /\ following d <> ch "/" /\ following d <> ch "*".

(** The hard failures of a token call, by kind, with the value each one
    makes the call return. *)
Inductive hard_failure {C : Type} (d : tokendef) (tv : tokenvalue C)
  : Z -> Prop :=
| stack_overflow_subst :
    standing d <> 0 -> pending d -> depth d = STACK_SIZE ->
    hard_failure d tv (-1)
| stack_overflow_open :
    plain d ->
    standing d = ch "(" \/ standing d = ch "[" \/ standing d = ch "{" ->
    depth d = STACK_SIZE ->
    hard_failure d tv (-1)
| unbalanced_close :
    plain d ->
    standing d = ch ")" \/ standing d = ch "]" \/ standing d = ch "}" ->
    depth d = 0 ->
    hard_failure d tv (-1)
| oracle_failure :
    plain d -> slash_not_comment d ->
    fst (check tv (context tv)) < 0 ->
    hard_failure d tv (fst (check tv (context tv))).

(** An oracle wrapped so that its context also counts the calls. *)
Definition counted {C : Type} (tv : tokenvalue C) (n : nat)
  : tokenvalue (C * nat) :=
  mk_tokenvalue
    (fun cn => let '(v, c) := check tv (fst cn) in (v, (c, S (snd cn))))
    (context tv, n).

(** The number of newlines in the buffer in front of offset [i]. *)
Definition newlines_before (d : tokendef) (i : Z) : Z :=
  count_newlines (buf d) (Z.to_nat i).

(** The scanner, slot and oracle after [n] calls on the C string [s] with
    an oracle that always answers [v]. *)
Definition reached (s : string) (v : Z) (n : nat) : next_token nat :=
  after n (prsr_init_token (cstr s)) slot0 (answering v).
Arguments reached s%_string v n%_nat.

(** A template literal whose substitution is followed by a space, a
    newline and another space. *)
Definition template_with_gap : string :=
  ("`a${x} " ++ LF ++ " b`")%string.

(** A long comment over two lines, followed by an identifier. *)
Definition two_line_comment : string :=
  ("/* line1" ++ LF ++ "line2 */x")%string.

(** The two bytes that close a long comment. *)
Definition COMMENT_END : list Z := [ch "*"; ch "/"].

(** ** Vocabulary of the further statements *)

(** The bit of stack entry [i] (entry 0 is the bottom). *)
Definition bit_at (st : list Z) (i : Z) : bool :=
  negb (Z.land (nth (Z.to_nat (Z.shiftr i 5)) st 0)
               (Z.shiftl 1 (Z.land i 31)) =? 0).

(** The cursor is inside the C string, whose terminator is where [len]
    says. *)
Definition in_buffer (d : tokendef) : Prop :=
  0 <= curr d <= len d /\ buf_at d (len d) = 0.

(** What a token kind does to the bracket depth. *)
Definition depth_change (ty : token_type) : Z :=
  match ty with
  | TOKEN_PAREN | TOKEN_ARRAY | TOKEN_BRACE | TOKEN_T_BRACE => 1
  | TOKEN_CLOSE => -1
  | _ => 0
  end.

(** The kinds whose scanners count a byte for a [peek_char] past the end
    of the buffer. *)
Definition may_overshoot (ty : token_type) : bool :=
  match ty with
  | TOKEN_STRING | TOKEN_REGEXP | TOKEN_LIT => true
  | _ => false
  end.

(** The call filled the token slot: [eat_token] neither failed nor left
    the sentinel. *)
Definition emitted {C : Type} (d : tokendef) (tv : tokenvalue C) : bool :=
  let e := eat_token (skip_whitespace d) tv in
  (0 <=? e_ret e)
  && match eo_type (e_out e) with Some _ => true | None => false end.

(** A step of [eat_token] moves the depth by what its token kind says (not
    at all when it fails or finds nothing) and keeps it within the
    stack. *)
Definition depth_step (d : tokendef) (s : eat_step) : Prop :=
  let '(r, eo, d') := s in
  (r < 0 -> depth d' = depth d)
  /\ (0 <= r ->
      depth d' = depth d + match eo_type eo with
                           | Some ty => depth_change ty
                           | None => 0
                           end)
  /\ (0 <= depth d <= STACK_SIZE -> 0 <= depth d' <= STACK_SIZE).

(** A step of [eat_token] that yields a token yields at least one byte,
    and the token ends inside the buffer, or at most one byte behind it for
    the kinds that may overshoot. *)
Definition within (d : tokendef) (s : eat_step) : Prop :=
  let '(r, eo, d') := s in
  0 <= r ->
  match eo_type eo with
  | Some ty =>
      1 <= eo_len eo
      /\ (0 <= curr d -> buf_at d (len d) = 0 ->
          curr d + eo_len eo
          <= len d + (if may_overshoot ty then 1 else 0))
  | None => True
  end.

(** A step of [eat_token] leaves the flag as it found it, or arms
    pending-substitution-open at the end of a STRING that stops on
    dollar-brace, or arms resume-template-literal on the CLOSE of a closing
    brace whose popped entry has bit 1. *)
Definition flag_step (d : tokendef) (s : eat_step) : Prop :=
  let '(r, eo, d') := s in
  flag d' = flag d
  \/ (flag d' = FLAG__PENDING_T_BRACE
      /\ r = 0 /\ eo_type eo = Some TOKEN_STRING
      /\ peek_char d (eo_len eo) = ch "$"
      /\ peek_char d (eo_len eo + 1) = ch "{")
  \/ (flag d' = FLAG__RESUME_LIT
      /\ r = 0 /\ eo = CONSUME 1 TOKEN_CLOSE
      /\ peek_char d 0 = ch "}" /\ depth d <> 0 /\ top_bit d = true).

Definition lit_start (c : Z) : bool :=
  isalpha c || (c =? ch "$") || (c =? ch "_") || (c <? 0).
Definition lit_byte (c : Z) : bool :=
  isalnum c || (c =? ch "$") || (c =? ch "_") || (c <? 0).

(** A byte inside a string whose opening quote is [q] that the string
    loop steps over as one ordinary byte: not the terminator, not the
    closing quote, not a backslash and, in a template literal, not the
    dollar sign of a substitution. *)
Definition string_byte (d : tokendef) (q j : Z) : Prop :=
  peek_char d j <> 0 /\ peek_char d j <> q /\ peek_char d j <> BACKSLASH
  /\ ~ (q = ch "`" /\ peek_char d j = ch "$"
        /\ peek_char d (j + 1) = ch "{").

(** The number of newlines among the bytes at offsets [a] to [b - 1] from
    the cursor. *)
Definition newlines_within (d : tokendef) (a b : Z) : Z :=
  count_newlines (mem_from d (curr d + a)) (Z.to_nat (b - a)).

(** The scanner after a string token that held [n] newlines. *)
Definition after_string (d : tokendef) (n : Z) : tokendef :=
  set_line_no (set_flag d 0) (line_no d + n).

(** Where an escape-free string ends: at the terminator, behind the closing
    quote, or in front of a substitution. *)
Definition string_end (d : tokendef) (q k : Z) (d' : tokendef)
  : Z * tokendef :=
  if peek_char d k =? 0 then (k, d')
  else if peek_char d k =? q then (k + 1, d')
  else (k, set_flag d' FLAG__PENDING_T_BRACE).

(** From offset [i] to offset [j] the memory holds only whitespace and
    whole comments: line comments with the newline that ends them, long
    comments with the two bytes that close them. *)
Inductive skipped_to (d : tokendef) : Z -> Z -> Prop :=
| skip_none (i : Z) : skipped_to d i i
| skip_space_byte (i j : Z) :
    isspace (buf_at d i) = true ->
    skipped_to d (i + 1) j -> skipped_to d i j
| skip_line_comment (i a j : Z) :
    buf_at d i = ch "/" -> buf_at d (i + 1) = ch "/" ->
    strstr (mem_from d (i + 2)) [NL] = Some a ->
    skipped_to d (i + 2 + a + 1) j -> skipped_to d i j
| skip_block_comment (i a j : Z) :
    buf_at d i = ch "/" -> buf_at d (i + 1) = ch "*" ->
    strstr (mem_from d (i + 2)) COMMENT_END = Some a ->
    skipped_to d (i + 2 + a + 2) j -> skipped_to d i j.

(** The byte at offset [j] is neither whitespace nor the start of a
    comment. *)
Definition lands (d : tokendef) (j : Z) : Prop :=
  isspace (buf_at d j) = false
  /\ (buf_at d j = ch "/" ->
      buf_at d (j + 1) <> ch "/" /\ buf_at d (j + 1) <> ch "*").

(** What the kind of a token says about the byte [c] it starts on and
    about its length [l]. *)
Definition kind_shape (ty : token_type) (c l : Z) : Prop :=
  match ty with
  | TOKEN_EOF => c = 0 /\ l = 0
  | TOKEN_SEMICOLON => c = ch ";" /\ l = 1
  | TOKEN_TERNARY => c = ch "?" /\ l = 1
  | TOKEN_COLON => c = ch ":" /\ l = 1
  | TOKEN_COMMA => c = ch "," /\ l = 1
  | TOKEN_PAREN => c = ch "(" /\ l = 1
  | TOKEN_ARRAY => c = ch "[" /\ l = 1
  | TOKEN_BRACE => c = ch "{" /\ l = 1
  | TOKEN_CLOSE => (c = ch ")" \/ c = ch "]" \/ c = ch "}") /\ l = 1
  | TOKEN_DOT => c = ch "." /\ l = 1
  | TOKEN_SPREAD => c = ch "." /\ l = 3
  | TOKEN_ARROW => c = ch "=" /\ l = 2
  | TOKEN_T_BRACE => l = 2
  | TOKEN_OP => op_allowed c <> None /\ 1 <= l <= 4
  | TOKEN_COMMENT | TOKEN_REGEXP => c = ch "/"
  | TOKEN_NUMBER => isnum c = true \/ c = ch "."
  | TOKEN_STRING | TOKEN_LIT => True
  end.

(** A step of [eat_token] on the byte [c] yields a token of the shape its
    kind says. *)
Definition shaped (c : Z) (s : eat_step) : Prop :=
  let '(r, eo, _) := s in
  0 <= r ->
  match eo_type eo with
  | Some ty => kind_shape ty c (eo_len eo)
  | None => True
  end.

(** Whether the regular expression is inside a character class behind its
    first [n] body bytes (those at offsets 1 to [n] from the cursor), when
    none of them is escaped: the last bracket among them is an opening
    one. *)
Fixpoint in_class (d : tokendef) (n : nat) : bool :=
  match n with
  | O => false
  | S n' =>
      if peek_char d (Z.of_nat n) =? ch "[" then true
      else if peek_char d (Z.of_nat n) =? ch "]" then false
      else in_class d n'
  end.

(** A body byte of a regular expression that the scanner steps over as one
    ordinary byte: not the terminator, not a backslash, and a slash only
    inside a character class. *)
Definition regexp_byte (d : tokendef) (j : Z) : Prop :=
  peek_char d j <> 0 /\ peek_char d j <> BACKSLASH
  /\ (peek_char d j = ch "/" -> in_class d (Z.to_nat (j - 1)) = true).

(** The oracle after it has been asked once. *)
Definition asked {C : Type} (tv : tokenvalue C) : tokenvalue C :=
  mk_tokenvalue (check tv) (snd (check tv (context tv))).

(** * Properties *)

(** ** Concrete runs *)

Example scenario_division :
  shape (scan "a/b/g" 1)
  = [(TOKEN_LIT, 1); (TOKEN_OP, 1); (TOKEN_LIT, 1); (TOKEN_OP, 1);
     (TOKEN_LIT, 1); (TOKEN_EOF, 0)].
Proof. vm_compute. reflexivity. Qed.

Example scenario_regexp :
  shape (scan "a/b/g" 0) = [(TOKEN_LIT, 1); (TOKEN_REGEXP, 4); (TOKEN_EOF, 0)].
Proof. vm_compute. reflexivity. Qed.

Example scenario_label :
  shape (scan "{ a: 1 }" 0)
  = [(TOKEN_BRACE, 1); (TOKEN_LIT, 1); (TOKEN_COLON, 1); (TOKEN_NUMBER, 1);
     (TOKEN_CLOSE, 1); (TOKEN_EOF, 0)]
  /\ map (fun c => lit_next_colon (c_tok c)) (scan "{ a: 1 }" 0)
     = [false; true; false; false; false; false].
Proof. vm_compute. split; reflexivity. Qed.

Example scenario_shift_assign :
  shape (scan ">>>=" 0) = [(TOKEN_OP, 4); (TOKEN_EOF, 0)].
Proof. vm_compute. reflexivity. Qed.

Example scenario_spread :
  shape (scan "...x" 0) = [(TOKEN_SPREAD, 3); (TOKEN_LIT, 1); (TOKEN_EOF, 0)].
Proof. vm_compute. reflexivity. Qed.

(** ** The whitespace skipper *)

Lemma isspace_NL : isspace NL = true.
Proof. reflexivity. Qed.

Lemma skip_loop_spec (mem : list Z) :
  forall cur line cur' line',
    skip_loop mem cur line = (cur', line') ->
    cur <= cur'
    /\ (forall k, (k < Z.to_nat (cur' - cur))%nat -> isspace (nth k mem 0) = true)
    /\ isspace (nth (Z.to_nat (cur' - cur)) mem 0) = false
    /\ line' = line + count_newlines mem (Z.to_nat (cur' - cur)).
Proof.
  induction mem as [|c mem IH]; intros cur line cur' line' H; simpl in H.
  - inversion H; subst. rewrite Z.sub_diag. simpl.
    repeat split; [lia | intros k Hk; lia | lia].
  - destruct (c =? NL) eqn:Hnl.
    + apply IH in H. destruct H as (Hle & Hws & Hstop & Hline).
      assert (Hn : Z.to_nat (cur' - cur) = S (Z.to_nat (cur' - (cur + 1)))) by lia.
      rewrite Hn. repeat split.
      * lia.
      * intros [|k] Hk; simpl.
        -- apply Z.eqb_eq in Hnl. subst c. reflexivity.
        -- apply Hws. lia.
      * simpl. exact Hstop.
      * simpl. rewrite Hnl. lia.
    + destruct (isspace c) eqn:Hsp; simpl in H.
      * apply IH in H. destruct H as (Hle & Hws & Hstop & Hline).
        assert (Hn : Z.to_nat (cur' - cur) = S (Z.to_nat (cur' - (cur + 1)))) by lia.
        rewrite Hn. repeat split.
        -- lia.
        -- intros [|k] Hk; simpl; [exact Hsp | apply Hws; lia].
        -- simpl. exact Hstop.
        -- simpl. rewrite Hnl. lia.
      * inversion H; subst. rewrite Z.sub_diag. simpl.
        repeat split; [lia | intros k Hk; lia | exact Hsp | lia].
Qed.

Lemma nth_skipn_shift (n k : nat) (l : list Z) :
  nth k (skipn n l) 0 = nth (n + k) l 0.
Proof.
  revert l; induction n as [|n IH]; intros l; simpl.
  - reflexivity.
  - destruct l as [|x l]; simpl.
    + destruct k; reflexivity.
    + apply IH.
Qed.

Lemma count_newlines_nonneg (mem : list Z) (n : nat) :
  0 <= count_newlines mem n.
Proof.
  revert mem; induction n as [|n IH]; intros [|c mem]; simpl; try lia.
  specialize (IH mem). destruct (c =? NL); lia.
Qed.

Lemma skip_whitespace_fields (d : tokendef) :
  buf (skip_whitespace d) = buf d
  /\ len (skip_whitespace d) = len d
  /\ flag (skip_whitespace d) = flag d
  /\ depth (skip_whitespace d) = depth d
  /\ stack (skip_whitespace d) = stack d.
Proof.
  unfold skip_whitespace.
  destruct (skip_loop (mem_from d (curr d)) (curr d) (line_no d)); simpl.
  repeat split.
Qed.

(** The skipper moves the cursor forward over whitespace only, stops on the
    first byte that is none, and adds the newlines it walked over to
    [line_no]. *)
Lemma skip_whitespace_spec (d : tokendef) :
  0 <= curr d ->
  curr d <= curr (skip_whitespace d)
  /\ (forall i, curr d <= i < curr (skip_whitespace d) ->
                isspace (buf_at d i) = true)
  /\ isspace (buf_at d (curr (skip_whitespace d))) = false
  /\ line_no (skip_whitespace d)
     = line_no d
       + count_newlines (mem_from d (curr d))
           (Z.to_nat (curr (skip_whitespace d) - curr d)).
Proof.
  intros Hc. unfold skip_whitespace.
  destruct (skip_loop (mem_from d (curr d)) (curr d) (line_no d))
    as [cur' line'] eqn:E.
  apply skip_loop_spec in E. destruct E as (Hle & Hws & Hstop & Hline).
  simpl. repeat split.
  - exact Hle.
  - intros i Hi. unfold buf_at.
    destruct (i <? 0) eqn:Hneg; [apply Z.ltb_lt in Hneg; lia|].
    specialize (Hws (Z.to_nat (i - curr d))).
    unfold mem_from in Hws. rewrite nth_skipn_shift in Hws.
    replace (Z.to_nat (curr d) + Z.to_nat (i - curr d))%nat
      with (Z.to_nat i) in Hws by lia.
    apply Hws. lia.
  - unfold buf_at.
    destruct (cur' <? 0) eqn:Hneg; [apply Z.ltb_lt in Hneg; lia|].
    unfold mem_from in Hstop. rewrite nth_skipn_shift in Hstop.
    replace (Z.to_nat (curr d) + Z.to_nat (cur' - curr d))%nat
      with (Z.to_nat cur') in Hstop by lia.
    exact Hstop.
  - exact Hline.
Qed.

Lemma skip_whitespace_line_no_mono (d : tokendef) :
  line_no d <= line_no (skip_whitespace d).
Proof.
  unfold skip_whitespace.
  destruct (skip_loop (mem_from d (curr d)) (curr d) (line_no d))
    as [cur' line'] eqn:E.
  apply skip_loop_spec in E. destruct E as (_ & _ & _ & Hline).
  simpl. subst line'.
  pose proof (count_newlines_nonneg (mem_from d (curr d))
                (Z.to_nat (cur' - curr d))). lia.
Qed.

Lemma skip_whitespace_curr_mono (d : tokendef) :
  curr d <= curr (skip_whitespace d).
Proof.
  unfold skip_whitespace.
  destruct (skip_loop (mem_from d (curr d)) (curr d) (line_no d))
    as [cur' line'] eqn:E.
  apply skip_loop_spec in E. simpl. tauto.
Qed.

(** ** The dispatcher on a flag-forced path *)

Lemma peek_char_set_flag (d : tokendef) (v k : Z) :
  peek_char (set_flag d v) k = peek_char d k.
Proof. reflexivity. Qed.

(** With resume-template-literal armed and the cursor not on NUL,
    [eat_token] is the string scanner entered at [resume_lit]. *)
Lemma eat_token_resuming {C : Type} (d : tokendef) (tv : tokenvalue C) :
  resuming d -> standing d <> 0 ->
  eat_token d tv = eaten_of (resume_lit (set_flag d 0)) tv.
Proof.
  intros [Hp Hr] Hc. unfold eat_token, standing in *.
  rewrite peek_char_set_flag.
  destruct (peek_char d 0 =? 0) eqn:E0; [apply Z.eqb_eq in E0; contradiction|].
  rewrite Hp. simpl negb at 1. cbv iota.
  destruct (Z.land (flag d) FLAG__RESUME_LIT =? 0) eqn:E2;
    [apply Z.eqb_eq in E2; contradiction|].
  reflexivity.
Qed.

(** The string loop touches [line_no] and [flag] only. *)
Lemma string_loop_fields (fuel : nat) :
  forall d start l l' d',
    string_loop fuel d start l = (l', d') ->
    buf d' = buf d /\ curr d' = curr d /\ len d' = len d
    /\ depth d' = depth d /\ stack d' = stack d.
Proof.
  induction fuel as [|fuel IH]; intros d start l l' d' H; simpl in H.
  - inversion H; subst; repeat split.
  - repeat match type of H with
           | (if ?b then _ else _) = _ => destruct b
           end;
      try (inversion H; subst; repeat split; fail);
      apply IH in H; unfold bump_newline in H;
      match type of H with
      | context [if ?b then _ else _] => destruct b
      end; simpl in H; exact H.
Qed.

(** C10: with the resume-template-literal flag armed, the token call first
    runs the whitespace skipper: the bytes between the cursor and the
    resumed STRING token are all whitespace, their newlines are added to
    [line_no], and the STRING token starts at the first byte that is not
    whitespace and is exactly what the string scanner yields from there, so
    the skipped bytes are not part of it. *)
Theorem resume_skips_whitespace_first {C : Type}
    (d : tokendef) (out : token) (tv : tokenvalue C) :
  0 <= curr d -> resuming d ->
  let d1 := skip_whitespace d in
  let r := prsr_next_token d out tv in
  (forall i, curr d <= i < curr d1 -> isspace (buf_at d i) = true)
  /\ isspace (buf_at d (curr d1)) = false
  /\ line_no d1
     = line_no d
       + count_newlines (mem_from d (curr d)) (Z.to_nat (curr d1 - curr d))
  /\ (standing d1 <> 0 ->
      let '(l, d2) := string_loop (fuel_of d1) (set_flag d1 0) (ch "`") (-1) in
      n_ret r = 0
      /\ n_out r = mk_token (curr d1) l TOKEN_STRING (line_no d1) false
      /\ n_d r = set_curr d2 (curr d1 + l)
      /\ n_tv r = tv).
Proof.
  intros Hc Hres d1 r.
  destruct (skip_whitespace_spec d Hc) as (_ & Hws & Hstop & Hline).
  repeat split; try assumption.
  intros Hst.
  assert (Hres1 : resuming d1).
  { unfold resuming, d1.
    destruct (skip_whitespace_fields d) as (_ & _ & Hf & _).
    rewrite Hf. exact Hres. }
  subst r. unfold prsr_next_token. fold d1.
  rewrite (eat_token_resuming d1 tv Hres1 Hst).
  unfold resume_lit, scan_string.
  change (fuel_of (set_flag d1 0)) with (fuel_of d1).
  destruct (string_loop (fuel_of d1) (set_flag d1 0) (ch "`") (-1))
    as [l d2] eqn:E.
  apply string_loop_fields in E. destruct E as (_ & Hcur & _).
  simpl in *. rewrite Hcur. repeat split.
Qed.

Lemma resume_skips_whitespace_first_witness :
  let d := n_d (reached template_with_gap 0 4) in
  0 <= curr d /\ resuming d
  /\ curr d = 6 /\ curr (skip_whitespace d) = 9
  /\ n_out (prsr_next_token d slot0 (answering 0))
     = mk_token 9 2 TOKEN_STRING 2 false.
Proof.
  intros d.
  assert (H0 : 0 <= curr d) by (vm_compute; discriminate).
  assert (H1 : resuming d) by (vm_compute; split; [reflexivity | discriminate]).
  split; [exact H0|]. split; [exact H1|].
  split; [reflexivity|]. split; [reflexivity|].
  pose proof (resume_skips_whitespace_first d slot0 (answering 0) H0 H1)
    as (_ & _ & _ & H).
  assert (Hst : standing (skip_whitespace d) <> 0) by (vm_compute; discriminate).
  specialize (H Hst).
  destruct (string_loop (fuel_of (skip_whitespace d))
              (set_flag (skip_whitespace d) 0) (ch "`") (-1)) as [l d2] eqn:E.
  destruct H as (_ & Hout & _).
  rewrite Hout. vm_compute in E. inversion E. reflexivity.
Defined.

Lemma eat_token_eof {C : Type} (d : tokendef) (tv : tokenvalue C) :
  standing d = 0 ->
  eat_token d tv
  = mk_eaten (if 0 <? depth d then 1 else 0) (CONSUME 0 TOKEN_EOF)
      (set_flag d 0) tv.
Proof.
  intros Hc. unfold eat_token, standing in *.
  rewrite peek_char_set_flag, Hc. reflexivity.
Qed.

Lemma eat_token_pending {C : Type} (d : tokendef) (tv : tokenvalue C) :
  pending d -> standing d <> 0 ->
  eat_token d tv
  = mk_eaten (fst (stack_inc (set_flag d 0) true)) (CONSUME 2 TOKEN_T_BRACE)
      (snd (stack_inc (set_flag d 0) true)) tv.
Proof.
  intros Hp Hc. unfold eat_token, standing, pending in *.
  rewrite peek_char_set_flag.
  destruct (peek_char d 0 =? 0) eqn:E0; [apply Z.eqb_eq in E0; contradiction|].
  destruct (Z.land (flag d) FLAG__PENDING_T_BRACE =? 0) eqn:E1;
    [apply Z.eqb_eq in E1; contradiction|].
  simpl negb. cbv iota.
  destruct (stack_inc (set_flag d 0) true); reflexivity.
Qed.

Lemma eat_token_plain {C : Type} (d : tokendef) (tv : tokenvalue C) :
  plain d -> standing d <> 0 ->
  eat_token d tv = dispatch (set_flag d 0) tv (standing d).
Proof.
  intros [Hp Hr] Hc. unfold eat_token, standing in *.
  rewrite peek_char_set_flag.
  destruct (peek_char d 0 =? 0) eqn:E0; [apply Z.eqb_eq in E0; contradiction|].
  rewrite Hp, Hr. reflexivity.
Qed.

(** A pop of a non-empty stack returns the bit on top. *)
Lemma stack_dec_top (d : tokendef) :
  depth d <> 0 ->
  stack_dec d
  = (if top_bit d then 1 else 0, set_stack d (depth d - 1) (stack d)).
Proof.
  intros Hd. unfold stack_dec, top_bit.
  destruct (depth d =? 0) eqn:E; [apply Z.eqb_eq in E; contradiction|].
  simpl.
  destruct (Z.land _ _ =? 0); reflexivity.
Qed.

Lemma stack_dec_empty (d : tokendef) :
  depth d = 0 -> stack_dec d = (-1, d).
Proof. intros Hd. unfold stack_dec. rewrite Hd. reflexivity. Qed.

Lemma stack_inc_ret (d : tokendef) (b : bool) :
  fst (stack_inc d b) = if depth d =? STACK_SIZE then -1 else 0.
Proof. unfold stack_inc. destruct (depth d =? STACK_SIZE); reflexivity. Qed.

(** The dispatcher on the three closing brackets. *)
Lemma dispatch_close_brace {C : Type} (d : tokendef) (tv : tokenvalue C) :
  dispatch d tv (ch "}")
  = let '(ret, d') := stack_dec d in
    if ret <? 0 then mk_eaten ret eo_unset d' tv
    else mk_eaten 0 (CONSUME 1 TOKEN_CLOSE)
           (if 0 <? ret then set_flag d' FLAG__RESUME_LIT else d') tv.
Proof.
  unfold dispatch. cbn. destruct (stack_dec d) as [ret d'].
  destruct (ret <? 0); reflexivity.
Qed.

Lemma dispatch_close_paren {C : Type} (d : tokendef) (tv : tokenvalue C) :
  dispatch d tv (ch ")")
  = mk_eaten (fst (stack_dec d)) (CONSUME 1 TOKEN_CLOSE) (snd (stack_dec d)) tv.
Proof. unfold dispatch. cbn. destruct (stack_dec d); reflexivity. Qed.

Lemma dispatch_close_array {C : Type} (d : tokendef) (tv : tokenvalue C) :
  dispatch d tv (ch "]")
  = mk_eaten (fst (stack_dec d)) (CONSUME 1 TOKEN_CLOSE) (snd (stack_dec d)) tv.
Proof. unfold dispatch. cbn. destruct (stack_dec d); reflexivity. Qed.

Lemma plain_skip_whitespace (d : tokendef) :
  plain d -> plain (skip_whitespace d).
Proof.
  unfold plain. destruct (skip_whitespace_fields d) as (_ & _ & Hf & _).
  rewrite Hf. tauto.
Qed.

Lemma top_bit_skip_whitespace (d : tokendef) :
  top_bit (set_flag (skip_whitespace d) 0) = top_bit d.
Proof.
  unfold top_bit. simpl.
  destruct (skip_whitespace_fields d) as (_ & _ & _ & Hd & Hs).
  rewrite Hd, Hs. reflexivity.
Qed.

(** ** Closing brackets on a template-substitution entry *)

(** C4, as the code has it: when the dispatcher stands on a closing
    parenthesis or square bracket and the popped entry carries template
    bit 1, [eat_token] returns the positive value 1, and the token call
    does not pass it on: it emits CLOSE of length 1, pops the entry, leaves
    both flags clear and returns 0. *)
Theorem close_group_on_template_entry {C : Type}
    (d : tokendef) (out : token) (tv : tokenvalue C) :
  plain d ->
  let d0 := skip_whitespace d in
  standing d0 = ch ")" \/ standing d0 = ch "]" ->
  depth d <> 0 -> top_bit d = true ->
  let r := prsr_next_token d out tv in
  e_ret (eat_token d0 tv) = 1
  /\ n_ret r = 0
  /\ n_out r = mk_token (curr d0) 1 TOKEN_CLOSE (line_no d0) false
  /\ depth (n_d r) = depth d - 1
  /\ flag (n_d r) = 0
  /\ curr (n_d r) = curr d0 + 1.
Proof.
  intros Hp d0 Hc Hd Ht r.
  assert (Hp0 : plain d0) by (apply plain_skip_whitespace; exact Hp).
  assert (Hd0 : depth (set_flag d0 0) <> 0).
  { simpl. unfold d0.
    destruct (skip_whitespace_fields d) as (_ & _ & _ & Hdd & _).
    rewrite Hdd. exact Hd. }
  assert (Hdep : depth d0 = depth d).
  { unfold d0. destruct (skip_whitespace_fields d) as (_ & _ & _ & Hdd & _).
    exact Hdd. }
  assert (He : eat_token d0 tv
               = mk_eaten 1 (CONSUME 1 TOKEN_CLOSE)
                   (set_stack (set_flag d0 0) (depth d0 - 1) (stack d0)) tv).
  { rewrite eat_token_plain;
      [| exact Hp0 | destruct Hc as [Hc|Hc]; rewrite Hc; discriminate].
    destruct Hc as [Hc|Hc]; rewrite Hc;
      [rewrite dispatch_close_paren | rewrite dispatch_close_array];
      rewrite (stack_dec_top _ Hd0);
      unfold d0; rewrite top_bit_skip_whitespace, Ht; reflexivity. }
  subst r. unfold prsr_next_token. fold d0. rewrite He. simpl.
  rewrite Hdep. repeat split.
Qed.

Lemma close_group_on_template_entry_witness :
  let d := n_d (reached "`${)" 0 2) in
  plain d /\ standing (skip_whitespace d) = ch ")"
  /\ depth d <> 0 /\ top_bit d = true
  /\ e_ret (eat_token (skip_whitespace d) (answering 0)) = 1
  /\ n_ret (prsr_next_token d slot0 (answering 0)) = 0.
Proof.
  intros d.
  assert (H1 : plain d) by (vm_compute; split; reflexivity).
  assert (H2 : standing (skip_whitespace d) = ch ")") by reflexivity.
  assert (H3 : depth d <> 0) by (vm_compute; discriminate).
  assert (H4 : top_bit d = true) by reflexivity.
  pose proof (close_group_on_template_entry d slot0 (answering 0)
                H1 (or_introl H2) H3 H4) as (Ha & Hb & _).
  repeat split; try assumption; apply H1.
Defined.

(** C4 as stated fails: after the substitution brace of a template
    literal, a closing parenthesis pops the entry with bit 1, and the call
    returns 0, not a negative value. *)
Lemma close_group_is_not_reported :
  let d := n_d (reached "`${)" 0 2) in
  standing (skip_whitespace d) = ch ")"
  /\ depth d = 1 /\ top_bit d = true
  /\ ~ n_ret (prsr_next_token d slot0 (answering 0)) < 0.
Proof.
  intros d. repeat split; try reflexivity.
  vm_compute. discriminate.
Qed.

(** ** Resuming a template literal *)

(** The claimed stream of C2, with the closing brace counted into the
    resumed STRING token. *)
Lemma template_stream_as_claimed_fails :
  shape (scan "`hi ${x} bye`" 1)
  <> [(TOKEN_STRING, 4); (TOKEN_T_BRACE, 2); (TOKEN_LIT, 1); (TOKEN_CLOSE, 1);
      (TOKEN_STRING, 5); (TOKEN_EOF, 0)].
Proof. vm_compute. discriminate. Qed.

(** ** Long comments *)

(** What [strstr] finds is the first occurrence. *)
Lemma strstr_spec (needle : list Z) :
  forall hay k,
    strstr hay needle = Some k ->
    0 <= k
    /\ starts_with needle (skipn (Z.to_nat k) hay) = true
    /\ (forall j, (j < Z.to_nat k)%nat ->
                  starts_with needle (skipn j hay) = false
                  /\ nth j hay 0 <> 0).
Proof.
  induction hay as [|c hay IH]; intros k H; simpl in H; [discriminate|].
  destruct (starts_with needle (c :: hay)) eqn:Es.
  - inversion H; subst. simpl. repeat split; [lia | exact Es | lia | lia].
  - destruct (c =? 0) eqn:E0; [discriminate|].
    destruct (strstr hay needle) as [k'|] eqn:Ek; [|discriminate].
    simpl in H. inversion H; subst.
    destruct (IH k' eq_refl) as (Hk & Hfound & Hfirst).
    replace (Z.to_nat (Z.succ k')) with (S (Z.to_nat k')) by lia.
    split; [lia|]. split; [exact Hfound|].
    intros [|j] Hj; simpl.
    + split; [exact Es | apply Z.eqb_neq; exact E0].
    + apply Hfirst. lia.
Qed.

Lemma dispatch_long_comment {C : Type} (d : tokendef) (tv : tokenvalue C)
    (at_ : Z) :
  following d = ch "*" ->
  strstr (mem_from d (curr d + 2)) COMMENT_END = Some at_ ->
  dispatch d tv (ch "/")
  = mk_eaten 0 (CONSUME (at_ + 4) TOKEN_COMMENT)
      (set_line_no d
         (line_no d
          + count_newlines (mem_from d (curr d + 2)) (Z.to_nat at_))) tv.
Proof.
  intros Hn Hs. unfold dispatch, following in *. rewrite Hn.
  unfold eat_comment. cbn [negb]. change (ch "/" =? ch "/") with true.
  change (ch "*" =? ch "/") with false. change (ch "*" =? ch "*") with true.
  cbn [negb orb]. cbv iota.
  unfold COMMENT_END in Hs. rewrite Hs.
  unfold eaten_of. f_equal. unfold CONSUME. f_equal. lia.
Qed.

(** The claimed stream of C8 gives the comment 15 bytes. *)
Lemma long_comment_stream_as_claimed_fails :
  shape (scan two_line_comment 0)
  <> [(TOKEN_COMMENT, 15); (TOKEN_LIT, 1); (TOKEN_EOF, 0)].
Proof. vm_compute. discriminate. Qed.

(** C8, as the code has it: for the input [/* line1], newline, [line2 */x]
    the scanner emits COMMENT(17) LIT(1) EOF(0), with LIT and EOF reported
    at line 2; in general a long comment whose closing star-slash exists
    consumes through the first one after its opening (the two opening
    bytes, the [at_] bytes in front of the closing pair, and the pair) and
    adds every newline in between to [line_no]. *)
Theorem long_comment_consumed_through_close :
  (forall (C : Type) (d : tokendef) (tv : tokenvalue C) (at_ : Z),
      plain d -> standing d = ch "/" -> following d = ch "*" ->
      strstr (mem_from d (curr d + 2)) COMMENT_END = Some at_ ->
      let search := mem_from d (curr d + 2) in
      eat_token d tv
      = mk_eaten 0 (CONSUME (2 + at_ + 2) TOKEN_COMMENT)
          (set_line_no (set_flag d 0)
             (line_no d + count_newlines search (Z.to_nat at_))) tv
      /\ 0 <= at_
      /\ starts_with COMMENT_END (skipn (Z.to_nat at_) search) = true
      /\ (forall j, (j < Z.to_nat at_)%nat ->
                    starts_with COMMENT_END (skipn j search) = false))
  /\ (let cs := scan two_line_comment 0 in
      shape cs = [(TOKEN_COMMENT, 17); (TOKEN_LIT, 1); (TOKEN_EOF, 0)]
      /\ map (fun c => t_line_no (c_tok c)) cs = [1; 2; 2]
      /\ map c_ret cs = [0; 0; 0]).
Proof.
  split; [| vm_compute; repeat split].
  intros C d tv at_ Hp Hc Hn Hs search.
  destruct (strstr_spec _ _ _ Hs) as (Hk & Hfound & Hfirst).
  split; [| split; [exact Hk | split; [exact Hfound |]]].
  - rewrite eat_token_plain; [| exact Hp | rewrite Hc; discriminate].
    rewrite Hc. rewrite (dispatch_long_comment (set_flag d 0) tv at_ Hn Hs).
    replace (2 + at_ + 2) with (at_ + 4) by lia. reflexivity.
  - intros j Hj. apply (Hfirst j Hj).
Qed.

Lemma long_comment_consumed_through_close_witness :
  let d := prsr_init_token (cstr two_line_comment) in
  plain d /\ standing d = ch "/" /\ following d = ch "*"
  /\ strstr (mem_from d (curr d + 2)) COMMENT_END = Some 13
  /\ e_out (eat_token d (answering 0)) = CONSUME 17 TOKEN_COMMENT
  /\ line_no (e_d (eat_token d (answering 0))) = 2.
Proof.
  intros d.
  assert (H1 : plain d) by (split; reflexivity).
  assert (H2 : standing d = ch "/") by reflexivity.
  assert (H3 : following d = ch "*") by reflexivity.
  assert (H4 : strstr (mem_from d (curr d + 2)) COMMENT_END = Some 13)
    by reflexivity.
  pose proof (proj1 long_comment_consumed_through_close nat d (answering 0)
                13 H1 H2 H3 H4) as (He & _).
  split; [exact H1|]. split; [exact H2|]. split; [exact H3|].
  split; [exact H4|].
  rewrite He. split; reflexivity.
Defined.

(** ** Where the code leaves the buffer, the line count and the return
       code behind *)

(** C6 at its failing input, an unterminated backslash-u-brace escape at
    the end of the buffer (five bytes): the call returns 0 with a LIT token
    of length 6, and the cursor ends at 6, past [len = 5].  Nothing here
    depends on the memory behind the terminator ([tail]).  A quoted string
    that ends in a backslash overshoots in the same way (STRING of length 3
    on two bytes). *)
Theorem escape_at_end_overshoots_buffer (tail : list Z) :
  let d := prsr_init_token (bytes "\u{12" ++ 0 :: tail) in
  let r := prsr_next_token d slot0 (answering 0) in
  len d = 5
  /\ n_ret r = 0
  /\ t_type (n_out r) = TOKEN_LIT /\ p (n_out r) = 0 /\ t_len (n_out r) = 6
  /\ curr (n_d r) = 6
  /\ len (n_d r) < curr (n_d r)
  /\ len (n_d r) < p (n_out r) + t_len (n_out r)
  /\ (let d' := prsr_init_token (bytes "'\" ++ 0 :: tail) in
      let r' := prsr_next_token d' slot0 (answering 0) in
      len d' = 2 /\ n_ret r' = 0
      /\ n_out r' = mk_token 0 3 TOKEN_STRING 1 false
      /\ curr (n_d r') = 3).
Proof.
  vm_compute. repeat split.
Qed.

(** C3 at its failing input, the C string made of a lone backslash, with
    one zero byte behind its terminator: both calls return 0, the run ends
    with EOF, and the tokens and whitespace add up to 2 bytes on a buffer
    of length 1, the LIT token covering the terminator.  Same defect as
    C6. *)
Theorem overshoot_breaks_length_sum (tail : list Z) :
  let d := prsr_init_token (BACKSLASH :: 0 :: 0 :: tail) in
  let cs := run 3 d slot0 (answering 0) in
  len d = 1
  /\ map c_ret cs = [0; 0]
  /\ shape cs = [(TOKEN_LIT, 2); (TOKEN_EOF, 0)]
  /\ map (fun c => p (c_tok c)) cs = [0; 2]
  /\ consumed cs = 2
  /\ consumed cs <> len d.
Proof.
  vm_compute. repeat split. discriminate.
Qed.

(** C7 at its failing input, a long comment that is never closed and
    holds a newline: the comment runs to the end of the buffer without its
    newline being counted, so EOF, whose first byte has one newline in
    front of it, is reported at line 1 instead of line 2.  The literal
    scanner drops the newline behind a backslash in the same way. *)
Theorem unterminated_comment_loses_newlines :
  (let src := ("/*" ++ LF)%string in
   let cs := scan src 0 in
   shape cs = [(TOKEN_COMMENT, 3); (TOKEN_EOF, 0)]
   /\ map (fun c => p (c_tok c)) cs = [0; 3]
   /\ map (fun c => t_line_no (c_tok c)) cs = [1; 1]
   /\ 1 + newlines_before (prsr_init_token (cstr src)) 3 = 2)
  /\ (let src := ("\" ++ LF ++ "a;")%string in
      let cs := scan src 0 in
      shape cs = [(TOKEN_LIT, 3); (TOKEN_SEMICOLON, 1); (TOKEN_EOF, 0)]
      /\ map (fun c => p (c_tok c)) cs = [0; 3; 4]
      /\ map (fun c => t_line_no (c_tok c)) cs = [1; 1; 1]
      /\ 1 + newlines_before (prsr_init_token (cstr src)) 3 = 2).
Proof.
  vm_compute. repeat split.
Qed.

(** C9 at its failing input, a byte no rule matches at offset 0:
    [eat_token] leaves the sentinel (length 0, no kind), the token slot is
    not filled, the cursor stays, and the call returns the offset, which is
    0, the very value a successful call returns.  At offset 1 the call
    returns 1. *)
Theorem no_rule_at_offset_zero_returns_zero :
  let d := prsr_init_token (cstr "#") in
  let r := prsr_next_token d slot0 (answering 0) in
  e_out (eat_token d (answering 0)) = mk_eat_out 0 None
  /\ e_ret (eat_token d (answering 0)) = 0
  /\ n_ret r = 0
  /\ n_out r = mk_token (p slot0) (t_len slot0) (t_type slot0) 1
                 (lit_next_colon slot0)
  /\ curr (n_d r) = 0
  /\ n_ret (prsr_next_token (prsr_init_token (cstr "a")) slot0 (answering 0))
     = 0
  /\ n_ret (prsr_next_token (prsr_init_token (cstr " #")) slot0 (answering 0))
     = 1.
Proof.
  vm_compute. repeat split.
Qed.

(** ** Return values of the dispatcher's stages *)

Lemma eat_comment_some (d : tokendef) (c next : Z) (s : eat_step) :
  eat_comment d c next = Some s ->
  fst (fst s) = 0 /\ c = ch "/" /\ (next = ch "/" \/ next = ch "*").
Proof.
  unfold eat_comment. intros H.
  destruct (c =? ch "/") eqn:Ec; simpl in H; [|discriminate].
  apply Z.eqb_eq in Ec.
  destruct (next =? ch "/") eqn:E1; simpl in H.
  - apply Z.eqb_eq in E1.
    destruct (strstr _ _); inversion H; subst; simpl; auto.
  - destruct (next =? ch "*") eqn:E2; simpl in H; [|discriminate].
    apply Z.eqb_eq in E2.
    destruct (strstr _ _); inversion H; subst; simpl; auto.
Qed.

Lemma eat_comment_none (d : tokendef) (next : Z) :
  eat_comment d (ch "/") next = None ->
  next <> ch "/" /\ next <> ch "*".
Proof.
  unfold eat_comment. change (negb (ch "/" =? ch "/")) with false. cbv iota.
  destruct (next =? ch "/") eqn:E1; simpl.
  - destruct (strstr _ _); discriminate.
  - destruct (next =? ch "*") eqn:E2; simpl.
    + destruct (strstr _ _); discriminate.
    + intros _. split; apply Z.eqb_neq; assumption.
Qed.

Lemma eat_comment_not_comment (d : tokendef) (next : Z) :
  next <> ch "/" -> next <> ch "*" ->
  eat_comment d (ch "/") next = None.
Proof.
  intros H1 H2. unfold eat_comment.
  change (negb (ch "/" =? ch "/")) with false. cbv iota.
  apply Z.eqb_neq in H1, H2. rewrite H1, H2. reflexivity.
Qed.

Lemma eat_punct_ret (d : tokendef) (c : Z) (s : eat_step) :
  eat_punct d c = Some s ->
  0 <= fst (fst s)
  \/ (fst (fst s) = -1
      /\ (((c = ch "(" \/ c = ch "[" \/ c = ch "{") /\ depth d = STACK_SIZE)
          \/ ((c = ch ")" \/ c = ch "]" \/ c = ch "}") /\ depth d = 0))).
Proof.
  unfold eat_punct. intros H.
  repeat match type of H with
         | (if ?x =? ?y then _ else _) = _ =>
             let E := fresh "E" in
             destruct (Z.eqb_spec x y) as [E|E]
         end;
    try (inversion H; subst; simpl; left; lia).
  all: try discriminate.
  all: try (unfold stack_inc in H;
            destruct (Z.eqb_spec (depth d) STACK_SIZE) as [Ed|Ed];
            inversion H; subst; simpl; [right | left; lia];
            split; [reflexivity | left; split; [tauto | exact Ed]]).
  all: try (unfold stack_dec in H;
            destruct (Z.eqb_spec (depth d) 0) as [Ed|Ed];
            [inversion H; subst; simpl; right;
             split; [reflexivity | right; split; [tauto | exact Ed]]
            | simpl in H;
              match type of H with
              | context [if ?b then _ else _] => destruct b
              end; simpl in H; inversion H; subst; simpl; left; lia]).
Qed.

Lemma eat_op_body_ret (d : tokendef) (c : Z) (s : eat_step) :
  eat_op_body d c = Some s -> fst (fst s) = 0.
Proof.
  unfold eat_op_body. intros H.
  destruct (op_allowed c) as [allowed|]; [|discriminate].
  destruct (op_run allowed d c 0 c) as [l c'].
  repeat match type of H with
         | (if ?b then _ else _) = _ => destruct b
         end; inversion H; reflexivity.
Qed.

Lemma eat_rest_ret (d : tokendef) (c next : Z) :
  fst (fst (eat_rest d c next)) = 0.
Proof.
  unfold eat_rest, eat_string, scan_string, eat_number, eat_dot, eat_regexp,
    eat_lit.
  repeat match goal with
         | |- context [if ?b then _ else _] => destruct b
         | |- context [let '(_, _) := ?x in _] => destruct x
         end; reflexivity.
Qed.

Lemma e_ret_eaten_of {C : Type} (s : eat_step) (tv : tokenvalue C) :
  e_ret (eaten_of s tv) = fst (fst s).
Proof. destruct s as [[r eo] d]. reflexivity. Qed.

Lemma e_tv_eaten_of {C : Type} (s : eat_step) (tv : tokenvalue C) :
  e_tv (eaten_of s tv) = tv.
Proof. destruct s as [[r eo] d]. reflexivity. Qed.

(** A negative return of the dispatcher is a stack failure or the
    oracle's own negative answer. *)
Lemma dispatch_negative {C : Type} (d : tokendef) (tv : tokenvalue C) (c : Z) :
  e_ret (dispatch d tv c) < 0 ->
  (e_ret (dispatch d tv c) = -1
   /\ (((c = ch "(" \/ c = ch "[" \/ c = ch "{") /\ depth d = STACK_SIZE)
       \/ ((c = ch ")" \/ c = ch "]" \/ c = ch "}") /\ depth d = 0)))
  \/ (c = ch "/" /\ peek_char d 1 <> ch "/" /\ peek_char d 1 <> ch "*"
      /\ e_ret (dispatch d tv c) = fst (check tv (context tv))).
Proof.
  unfold dispatch.
  destruct (eat_comment d c (peek_char d 1)) as [s|] eqn:Ecom.
  { rewrite e_ret_eaten_of. apply eat_comment_some in Ecom. lia. }
  destruct (eat_punct d c) as [s|] eqn:Epun.
  { rewrite e_ret_eaten_of. apply eat_punct_ret in Epun.
    intros Hneg. left. destruct Epun as [Hge | [Hm Hwhy]]; [lia|].
    split; assumption. }
  unfold eat_op.
  destruct (Z.eqb_spec c (ch "/")) as [Ec|Ec].
  - subst c. apply eat_comment_none in Ecom. destruct Ecom as [Hn1 Hn2].
    destruct (check tv (context tv)) as [v ctx] eqn:Echk. simpl fst.
    destruct (v <? 0) eqn:Ev.
    + simpl. intros _. right. repeat split; assumption.
    + destruct (v =? 0).
      * rewrite e_ret_eaten_of, eat_rest_ret. lia.
      * destruct (eat_op_body d (ch "/")) as [s|] eqn:Eop.
        -- rewrite e_ret_eaten_of. apply eat_op_body_ret in Eop. lia.
        -- rewrite e_ret_eaten_of, eat_rest_ret. lia.
  - destruct (eat_op_body d c) as [s|] eqn:Eop.
    + rewrite e_ret_eaten_of. apply eat_op_body_ret in Eop. lia.
    + rewrite e_ret_eaten_of, eat_rest_ret. lia.
Qed.

(** The dispatcher on a slash that begins no comment: the oracle is asked,
    and its answer selects the path. *)
Lemma dispatch_slash {C : Type} (d : tokendef) (tv : tokenvalue C) :
  peek_char d 1 <> ch "/" -> peek_char d 1 <> ch "*" ->
  let v := fst (check tv (context tv)) in
  let tv' := mk_tokenvalue (check tv) (snd (check tv (context tv))) in
  dispatch d tv (ch "/")
  = if v <? 0 then mk_eaten v eo_unset d tv'
    else if v =? 0 then
      eaten_of (or_else (eat_regexp d (ch "/") (peek_char d 1))
                  (eat_lit d (ch "/"))) tv'
    else
      mk_eaten 0
        (CONSUME (if peek_char d 1 =? ch "=" then 2 else 1) TOKEN_OP) d tv'.
Proof.
  intros H1 H2 v tv'. unfold dispatch.
  rewrite (eat_comment_not_comment d _ H1 H2).
  change (eat_punct d (ch "/")) with (@None eat_step). cbv iota.
  unfold eat_op. change (ch "/" =? ch "/") with true. cbv iota.
  subst v tv'. destruct (check tv (context tv)) as [v ctx]. simpl fst. simpl snd.
  destruct (v <? 0); [reflexivity|].
  destruct (v =? 0); [reflexivity|].
  unfold eat_op_body. change (op_allowed (ch "/")) with (Some 1%nat).
  cbv iota. simpl op_run.
  apply Z.eqb_neq in H1. rewrite H1. simpl negb. cbv iota.
  change (ch "/" =? ch "=") with false. rewrite andb_false_l.
  rewrite H1. rewrite andb_false_l.
  destruct (peek_char d 1 =? ch "="); [|reflexivity].
  change ((false || (ch "/" =? ch "!"))%bool) with false.
  rewrite andb_false_r. reflexivity.
Qed.

Lemma bump_newline_fields (d : tokendef) (c : Z) :
  buf (bump_newline d c) = buf d /\ curr (bump_newline d c) = curr d
  /\ len (bump_newline d c) = len d /\ flag (bump_newline d c) = flag d
  /\ depth (bump_newline d c) = depth d /\ stack (bump_newline d c) = stack d.
Proof. unfold bump_newline. destruct (c =? NL); repeat split. Qed.

(** The regular-expression loop touches [line_no] only. *)
Lemma regexp_loop_fields (fuel : nat) :
  forall d is_charexpr l c l' c' d',
    regexp_loop fuel d is_charexpr l c = (l', c', d') ->
    buf d' = buf d /\ curr d' = curr d /\ len d' = len d
    /\ flag d' = flag d /\ depth d' = depth d /\ stack d' = stack d.
Proof.
  induction fuel as [|fuel IH]; intros d is_charexpr l c l' c' d' H;
    simpl in H.
  - inversion H; subst; repeat split.
  - assert (Hround : forall is_charexpr l c,
               (let d0 := bump_newline d c in
                if peek_char d0 (l + 1) =? 0
                then (l + 1, peek_char d0 (l + 1), d0)
                else regexp_loop fuel d0 is_charexpr (l + 1)
                       (peek_char d0 (l + 1))) = (l', c', d') ->
               buf d' = buf d /\ curr d' = curr d /\ len d' = len d
               /\ flag d' = flag d /\ depth d' = depth d
               /\ stack d' = stack d).
    { intros i k x Hx. cbv zeta in Hx.
      pose proof (bump_newline_fields d x) as (B1 & B2 & B3 & B4 & B5 & B6).
      destruct (peek_char (bump_newline d x) (k + 1) =? 0).
      - inversion Hx; subst. repeat split; assumption.
      - apply IH in Hx. destruct Hx as (A1 & A2 & A3 & A4 & A5 & A6).
        repeat split; congruence. }
    destruct (c =? ch "["); [apply (Hround true l c); exact H|].
    destruct (c =? ch "]"); [apply (Hround false l c); exact H|].
    destruct (c =? BACKSLASH);
      [apply (Hround is_charexpr (l + 1) (peek_char d (l + 1))); exact H|].
    destruct (negb is_charexpr && (c =? ch "/")).
    + inversion H; subst; repeat split.
    + apply (Hround is_charexpr l c); exact H.
Qed.

(** ** The oracle *)

(** C5, as the code has it: for a slash at the cursor that begins no
    comment, when no flag-forced path is armed, the oracle is consulted
    exactly once during the token call (the oracle's context after the call
    is the one a single [check] leaves; a counting oracle counts one more);
    a positive answer makes the slash an operator (OP, one byte, or two
    with a following equals sign), zero makes it the start of a REGEXP
    token, and a negative answer is returned verbatim by the token call. *)
Theorem oracle_decides_slash {C : Type}
    (d : tokendef) (out : token) (tv : tokenvalue C) :
  plain d ->
  let d0 := skip_whitespace d in
  slash_not_comment d0 ->
  let v := fst (check tv (context tv)) in
  let r := prsr_next_token d out tv in
  n_tv r = mk_tokenvalue (check tv) (snd (check tv (context tv)))
  /\ (forall n : nat,
         snd (context (n_tv (prsr_next_token d out (counted tv n)))) = S n)
  /\ (0 < v ->
      n_ret r = 0
      /\ n_out r = mk_token (curr d0) (if following d0 =? ch "=" then 2 else 1)
                     TOKEN_OP (line_no d0) false)
  /\ (v = 0 ->
      n_ret r = 0 /\ t_type (n_out r) = TOKEN_REGEXP /\ p (n_out r) = curr d0)
  /\ (v < 0 -> n_ret r = v).
Proof.
  intros Hp d0 (Hc & Hn1 & Hn2) v r.
  assert (Hp0 : plain d0) by (apply plain_skip_whitespace; exact Hp).
  assert (He : forall (X : Type) (t : tokenvalue X),
             eat_token d0 t = dispatch (set_flag d0 0) t (ch "/")).
  { intros X t. rewrite eat_token_plain;
      [rewrite Hc; reflexivity | exact Hp0 | rewrite Hc; discriminate]. }
  assert (Hd : forall (X : Type) (t : tokenvalue X),
             e_tv (eat_token d0 t)
             = mk_tokenvalue (check t) (snd (check t (context t)))).
  { intros X t. rewrite He.
    rewrite (dispatch_slash (set_flag d0 0) t Hn1 Hn2).
    destruct (fst (check t (context t)) <? 0); [reflexivity|].
    destruct (fst (check t (context t)) =? 0); [|reflexivity].
    apply e_tv_eaten_of. }
  assert (Htv : forall (X : Type) (t : tokenvalue X),
             n_tv (prsr_next_token d out t) = e_tv (eat_token d0 t)).
  { intros X t. unfold prsr_next_token. fold d0.
    destruct (e_ret (eat_token d0 t) <? 0); [reflexivity|].
    destruct (eo_type (e_out (eat_token d0 t))); reflexivity. }
  split; [subst r; rewrite Htv; apply Hd|].
  split.
  { intros n. rewrite Htv, Hd. unfold counted. simpl.
    destruct (check tv (context tv)); reflexivity. }
  subst r. unfold prsr_next_token. fold d0. rewrite He.
  rewrite (dispatch_slash (set_flag d0 0) tv Hn1 Hn2). fold v.
  change (peek_char (set_flag d0 0) 1) with (following d0).
  split; [|split].
  - intros Hv.
    destruct (v <? 0) eqn:E1; [apply Z.ltb_lt in E1; lia|].
    destruct (v =? 0) eqn:E2; [apply Z.eqb_eq in E2; lia|].
    simpl. split; reflexivity.
  - intros Hv. rewrite Hv. simpl Z.ltb. simpl Z.eqb. cbv iota.
    unfold eat_regexp. change (ch "/" =? ch "/") with true. cbv iota.
    destruct (regexp_loop (fuel_of (set_flag d0 0)) (set_flag d0 0) false 1
                (following d0)) as [[l c] d2] eqn:E.
    apply regexp_loop_fields in E. destruct E as (_ & Hcur & _).
    simpl. split; [reflexivity|]. split; [reflexivity|]. exact Hcur.
  - intros Hv.
    destruct (v <? 0) eqn:E1; [|apply Z.ltb_ge in E1; lia].
    simpl. rewrite E1. reflexivity.
Qed.

Lemma oracle_decides_slash_witness :
  let d := n_d (reached "a/b/g" 1 1) in
  let r := prsr_next_token d slot0 (answering 1) in
  plain d /\ slash_not_comment (skip_whitespace d)
  /\ context (n_tv r) = 1%nat
  /\ n_out r = mk_token 1 1 TOKEN_OP 1 false.
Proof.
  intros d r.
  assert (H1 : plain d) by (split; reflexivity).
  assert (H2 : slash_not_comment (skip_whitespace d))
    by (split; [reflexivity | split; vm_compute; discriminate]).
  pose proof (oracle_decides_slash d slot0 (answering 1) H1 H2)
    as (Htv & _ & Hop & _).
  split; [exact H1|]. split; [exact H2|].
  split.
  - unfold r. rewrite Htv. reflexivity.
  - unfold r. apply Hop. reflexivity.
Defined.

(** C5 as stated fails while a template literal is being resumed: behind
    the brace that closes a substitution the cursor stands on a slash that
    begins no comment, the oracle is not consulted (its call count stays
    0) and the slash is the first byte of a STRING token. *)
Lemma slash_in_resumed_template_skips_oracle :
  let before := reached "`${x}/`" 1 4 in
  let r := prsr_next_token (n_d before) (n_out before) (n_tv before) in
  slash_not_comment (skip_whitespace (n_d before))
  /\ context (n_tv before) = 0%nat
  /\ context (n_tv r) <> 1%nat
  /\ n_out r = mk_token 5 2 TOKEN_STRING 1 false.
Proof.
  vm_compute. repeat split; discriminate.
Qed.

(** ** The cursor does not move inside eat_token *)

Lemma stack_inc_curr (d : tokendef) (b : bool) :
  curr (snd (stack_inc d b)) = curr d.
Proof. unfold stack_inc. destruct (depth d =? STACK_SIZE); reflexivity. Qed.

Lemma stack_dec_curr (d : tokendef) :
  curr (snd (stack_dec d)) = curr d.
Proof.
  unfold stack_dec. destruct (depth d =? 0); [reflexivity|]. simpl.
  destruct (negb _); reflexivity.
Qed.

Lemma eat_comment_curr (d : tokendef) (c next : Z) (s : eat_step) :
  eat_comment d c next = Some s -> curr (snd s) = curr d.
Proof.
  unfold eat_comment. intros H.
  repeat match type of H with
         | (if ?b then _ else _) = _ => destruct b
         | match ?x with Some _ => _ | None => _ end = _ => destruct x
         end; inversion H; reflexivity.
Qed.

Lemma eat_punct_curr (d : tokendef) (c : Z) (s : eat_step) :
  eat_punct d c = Some s -> curr (snd s) = curr d.
Proof.
  unfold eat_punct. intros H.
  pose proof (stack_inc_curr d false) as Hi.
  pose proof (stack_dec_curr d) as Hd.
  destruct (stack_inc d false) as [ri di].
  destruct (stack_dec d) as [rd dd]. simpl in Hi, Hd.
  repeat match type of H with
         | (if ?b then _ else _) = _ => destruct b
         end; inversion H; subst; simpl; try assumption; try reflexivity.
  destruct (0 <? rd); simpl; assumption.
Qed.

Lemma eat_op_body_curr (d : tokendef) (c : Z) (s : eat_step) :
  eat_op_body d c = Some s -> curr (snd s) = curr d.
Proof.
  unfold eat_op_body. intros H.
  destruct (op_allowed c) as [allowed|]; [|discriminate].
  destruct (op_run allowed d c 0 c) as [l c'].
  repeat match type of H with
         | (if ?b then _ else _) = _ => destruct b
         end; inversion H; reflexivity.
Qed.

Lemma eat_rest_curr (d : tokendef) (c next : Z) :
  curr (snd (eat_rest d c next)) = curr d.
Proof.
  unfold eat_rest, eat_string, scan_string, eat_number, eat_dot, eat_regexp,
    eat_lit.
  destruct ((c =? SQUOTE) || (c =? DQUOTE) || (c =? ch "`")).
  { destruct (string_loop (fuel_of d) d c 0) as [l d'] eqn:E.
    apply string_loop_fields in E. simpl. tauto. }
  destruct (isnum c || (c =? ch ".") && isnum next); [reflexivity|].
  destruct (c =? ch ".").
  { destruct ((next =? ch ".") && (peek_char d 2 =? ch ".")); reflexivity. }
  destruct (c =? ch "/").
  { destruct (regexp_loop (fuel_of d) d false 1 next) as [[l c'] d'] eqn:E.
    apply regexp_loop_fields in E. simpl. tauto. }
  destruct (negb (lit_loop (fuel_of d) d 0 c =? 0)); reflexivity.
Qed.

Lemma e_d_eaten_of {C : Type} (s : eat_step) (tv : tokenvalue C) :
  e_d (eaten_of s tv) = snd s.
Proof. destruct s as [[r eo] d]. reflexivity. Qed.

Lemma dispatch_curr {C : Type} (d : tokendef) (tv : tokenvalue C) (c : Z) :
  curr (e_d (dispatch d tv c)) = curr d.
Proof.
  unfold dispatch.
  destruct (eat_comment d c (peek_char d 1)) as [s|] eqn:Ecom.
  { rewrite e_d_eaten_of. eapply eat_comment_curr; eassumption. }
  destruct (eat_punct d c) as [s|] eqn:Epun.
  { rewrite e_d_eaten_of. eapply eat_punct_curr; eassumption. }
  unfold eat_op.
  destruct (c =? ch "/").
  - destruct (check tv (context tv)) as [v ctx].
    destruct (v <? 0); [reflexivity|].
    destruct (v =? 0); [rewrite e_d_eaten_of; apply eat_rest_curr|].
    destruct (eat_op_body d c) as [s|] eqn:Eop; rewrite e_d_eaten_of;
      [eapply eat_op_body_curr; eassumption | apply eat_rest_curr].
  - destruct (eat_op_body d c) as [s|] eqn:Eop; rewrite e_d_eaten_of;
      [eapply eat_op_body_curr; eassumption | apply eat_rest_curr].
Qed.

Lemma eat_token_curr {C : Type} (d : tokendef) (tv : tokenvalue C) :
  curr (e_d (eat_token d tv)) = curr d.
Proof.
  unfold eat_token.
  destruct (peek_char (set_flag d 0) 0 =? 0); [reflexivity|].
  destruct (negb (Z.land (flag d) FLAG__PENDING_T_BRACE =? 0)).
  { pose proof (stack_inc_curr (set_flag d 0) true) as H.
    destruct (stack_inc (set_flag d 0) true). exact H. }
  destruct (negb (Z.land (flag d) FLAG__RESUME_LIT =? 0)).
  { rewrite e_d_eaten_of. unfold resume_lit, scan_string.
    destruct (string_loop _ _ _ _) as [l d'] eqn:E.
    apply string_loop_fields in E. simpl. tauto. }
  exact (dispatch_curr (set_flag d 0) tv _).
Qed.

Lemma dispatch_open {C : Type} (d : tokendef) (tv : tokenvalue C) (c : Z) :
  c = ch "(" \/ c = ch "[" \/ c = ch "{" ->
  e_ret (dispatch d tv c) = fst (stack_inc d false).
Proof.
  intros [H|[H|H]]; subst c; unfold dispatch; cbn;
    destruct (stack_inc d false); reflexivity.
Qed.

Lemma dispatch_close_empty {C : Type} (d : tokendef) (tv : tokenvalue C)
    (c : Z) :
  c = ch ")" \/ c = ch "]" \/ c = ch "}" -> depth d = 0 ->
  e_ret (dispatch d tv c) = -1.
Proof.
  intros [H|[H|H]] Hd; subst c.
  - rewrite dispatch_close_paren, (stack_dec_empty d Hd). reflexivity.
  - rewrite dispatch_close_array, (stack_dec_empty d Hd). reflexivity.
  - rewrite dispatch_close_brace, (stack_dec_empty d Hd). reflexivity.
Qed.

(** What [prsr_next_token] returns, in terms of what [eat_token] left. *)
Lemma n_ret_cases {C : Type} (d : tokendef) (out : token) (tv : tokenvalue C) :
  let d0 := skip_whitespace d in
  let e := eat_token d0 tv in
  n_ret (prsr_next_token d out tv)
  = if e_ret e <? 0 then e_ret e
    else match eo_type (e_out e) with
         | None => curr d0
         | Some _ => 0
         end.
Proof.
  intros d0 e. unfold prsr_next_token. fold d0. fold e.
  destruct (e_ret e <? 0); [reflexivity|].
  destruct (eo_type (e_out e)); [reflexivity|].
  simpl. unfold e. apply eat_token_curr.
Qed.

(** ** Return values of the token call *)

(** C1, as the code has it: the token call returns a negative value
    exactly on hard failure (stack overflow, a close bracket on the empty
    stack, a negative answer of the oracle), and then that failure's value;
    on reaching EOF while the depth is greater than 0, [eat_token] returns
    1 and the EOF token is emitted, but the token call itself returns 0;
    whenever a token is emitted the call returns 0; a positive return comes
    only from the "found nothing" sentinel and is the cursor offset. *)
Theorem token_call_return_value {C : Type}
    (d : tokendef) (out : token) (tv : tokenvalue C) :
  0 <= curr d ->
  let d0 := skip_whitespace d in
  let e := eat_token d0 tv in
  let r := prsr_next_token d out tv in
  (forall v, hard_failure d0 tv v -> v < 0 /\ n_ret r = v)
  /\ (n_ret r < 0 -> hard_failure d0 tv (n_ret r))
  /\ (standing d0 = 0 -> 0 < depth d ->
      e_ret e = 1 /\ n_ret r = 0
      /\ n_out r = mk_token (curr d0) 0 TOKEN_EOF (line_no d0) false)
  /\ (0 < n_ret r -> eo_type (e_out e) = None /\ n_ret r = curr d0)
  /\ (forall ty, 0 <= e_ret e -> eo_type (e_out e) = Some ty ->
      n_ret r = 0 /\ t_type (n_out r) = ty
      /\ t_len (n_out r) = eo_len (e_out e)).
Proof.
  intros Hcur d0 e r.
  pose proof (n_ret_cases d out tv) as Hret. cbv zeta in Hret.
  fold d0 in Hret. fold e in Hret. fold r in Hret.
  pose proof (skip_whitespace_curr_mono d) as Hmono. fold d0 in Hmono.
  destruct (skip_whitespace_fields d) as (_ & _ & _ & Hdep & _).
  fold d0 in Hdep.
  assert (Hneg : forall v, e_ret e = v -> v < 0 -> n_ret r = v).
  { intros v Hv Hlt. rewrite Hret, Hv.
    destruct (v <? 0) eqn:E; [reflexivity | apply Z.ltb_ge in E; lia]. }
  split; [|split; [|split; [|split]]].
  - (* every hard failure is returned *)
    intros v Hf. destruct Hf as [Hst Hpe Hd | Hpl Hst Hd | Hpl Hst Hd
                                 | Hpl (Hst & Hn1 & Hn2) Hv].
    + split; [lia|]. apply Hneg; [|lia]. unfold e.
      rewrite (eat_token_pending d0 tv Hpe Hst). simpl e_ret.
      rewrite stack_inc_ret. simpl depth. rewrite Hd. reflexivity.
    + split; [lia|]. apply Hneg; [|lia]. unfold e.
      rewrite (eat_token_plain d0 tv Hpl);
        [| destruct Hst as [H|[H|H]]; rewrite H; discriminate].
      rewrite (dispatch_open _ _ _ Hst), stack_inc_ret.
      simpl depth. rewrite Hd. reflexivity.
    + split; [lia|]. apply Hneg; [|lia]. unfold e.
      rewrite (eat_token_plain d0 tv Hpl);
        [| destruct Hst as [H|[H|H]]; rewrite H; discriminate].
      apply dispatch_close_empty; [exact Hst | exact Hd].
    + split; [exact Hv|]. apply Hneg; [|exact Hv]. unfold e.
      rewrite (eat_token_plain d0 tv Hpl); [| rewrite Hst; discriminate].
      rewrite Hst. rewrite (dispatch_slash (set_flag d0 0) tv Hn1 Hn2).
      destruct (fst (check tv (context tv)) <? 0) eqn:E;
        [reflexivity | apply Z.ltb_ge in E; lia].
  - (* a negative return is a hard failure *)
    intros Hlt.
    assert (He : e_ret e < 0 /\ n_ret r = e_ret e).
    { rewrite Hret in Hlt |- *. destruct (e_ret e <? 0) eqn:E.
      - apply Z.ltb_lt in E. split; [exact E | reflexivity].
      - destruct (eo_type (e_out e)); lia. }
    destruct He as [Helt Heq]. rewrite Heq. clear Hlt Heq Hret Hneg.
    unfold e in *.
    destruct (Z.eq_dec (standing d0) 0) as [Hst|Hst].
    { rewrite (eat_token_eof d0 tv Hst) in Helt. simpl in Helt.
      destruct (0 <? depth d0); lia. }
    destruct (Z.eq_dec (Z.land (flag d0) FLAG__PENDING_T_BRACE) 0) as [Hp|Hp].
    2:{ rewrite (eat_token_pending d0 tv Hp Hst) in Helt |- *.
        simpl e_ret in *. rewrite stack_inc_ret in Helt |- *.
        simpl depth in *.
        destruct (Z.eqb_spec (depth d0) STACK_SIZE) as [Hd|Hd]; [|lia].
        apply stack_overflow_subst; assumption. }
    destruct (Z.eq_dec (Z.land (flag d0) FLAG__RESUME_LIT) 0) as [Hr|Hr].
    2:{ rewrite (eat_token_resuming d0 tv (conj Hp Hr) Hst) in Helt.
        rewrite e_ret_eaten_of in Helt. unfold resume_lit, scan_string in Helt.
        destruct (string_loop _ _ _ _) in Helt. simpl in Helt. lia. }
    assert (Hpl : plain d0) by (split; assumption).
    rewrite (eat_token_plain d0 tv Hpl Hst) in Helt |- *.
    destruct (dispatch_negative _ _ _ Helt)
      as [(Hm & [(Hc & Hd) | (Hc & Hd)]) | (Hc & Hn1 & Hn2 & Hv)].
    + rewrite Hm. apply stack_overflow_open; assumption.
    + rewrite Hm. apply unbalanced_close; assumption.
    + rewrite Hv. apply oracle_failure.
      * exact Hpl.
      * repeat split; assumption.
      * rewrite <- Hv. exact Helt.
  - (* EOF with open brackets *)
    intros Hst Hd.
    assert (He : e = mk_eaten 1 (CONSUME 0 TOKEN_EOF) (set_flag d0 0) tv).
    { unfold e. rewrite (eat_token_eof d0 tv Hst). rewrite Hdep.
      destruct (0 <? depth d) eqn:E; [reflexivity | apply Z.ltb_ge in E; lia]. }
    split; [rewrite He; reflexivity|].
    unfold r, prsr_next_token. fold d0. fold e. rewrite He. simpl.
    split; reflexivity.
  - (* a positive return is the sentinel *)
    intros Hpos. rewrite Hret in Hpos |- *.
    destruct (e_ret e <? 0) eqn:E; [apply Z.ltb_lt in E; lia|].
    destruct (eo_type (e_out e)); [lia | split; reflexivity].
  - (* an emitted token comes with 0 *)
    intros ty Hge Hty.
    unfold r, prsr_next_token. fold d0. fold e.
    destruct (e_ret e <? 0) eqn:E; [apply Z.ltb_lt in E; lia|].
    rewrite Hty. simpl. repeat split.
Qed.

Lemma token_call_return_value_witness :
  let d := n_d (reached "(" 0 1) in
  let r := prsr_next_token d slot0 (answering 0) in
  0 <= curr d
  /\ standing (skip_whitespace d) = 0 /\ 0 < depth d
  /\ e_ret (eat_token (skip_whitespace d) (answering 0)) = 1
  /\ n_ret r = 0
  /\ n_out r = mk_token 1 0 TOKEN_EOF 1 false.
Proof.
  intros d r.
  assert (H0 : 0 <= curr d) by (vm_compute; discriminate).
  assert (H1 : standing (skip_whitespace d) = 0) by reflexivity.
  assert (H2 : 0 < depth d) by reflexivity.
  pose proof (token_call_return_value d slot0 (answering 0) H0)
    as (_ & _ & Heof & _).
  destruct (Heof H1 H2) as (Ha & Hb & Hc).
  split; [exact H0|]. split; [exact H1|]. split; [exact H2|].
  split; [exact Ha|]. split; [exact Hb|].
  unfold r. rewrite Hc. reflexivity.
Defined.

(** C1 as stated fails at EOF with an open bracket: the EOF token is
    emitted, and the call returns 0, not a positive value. *)
Lemma unbalanced_eof_returns_zero :
  let before := reached "(" 0 1 in
  let r := prsr_next_token (n_d before) (n_out before) (n_tv before) in
  standing (skip_whitespace (n_d before)) = 0
  /\ depth (n_d before) = 1
  /\ t_type (n_out r) = TOKEN_EOF
  /\ ~ 0 < n_ret r.
Proof.
  vm_compute. repeat split. discriminate.
Qed.

(** ** The fuel of the loops is enough

    Every loop below ends on the 0 that [peek_char] returns from [d->len]
    on, before its fuel runs out: more fuel does not change its result. *)

Lemma peek_char_past_end (d : tokendef) (k : Z) :
  len d <= curr d + k -> peek_char d k = 0.
Proof.
  intros H. unfold peek_char.
  destruct (curr d + k <? len d) eqn:E; [apply Z.ltb_lt in E; lia|reflexivity].
Qed.

Lemma peek_char_bump_newline (d : tokendef) (c k : Z) :
  peek_char (bump_newline d c) k = peek_char d k.
Proof. unfold bump_newline. destruct (c =? NL); reflexivity. Qed.

Lemma string_loop_fuel (n : nat) :
  forall d start l,
    len d - curr d - l <= Z.of_nat n ->
    string_loop (S n) d start l = string_loop n d start l.
Proof.
  induction n as [|n IH]; intros d start l Hb.
  - simpl. rewrite peek_char_past_end by lia. reflexivity.
  - assert (Hrec : forall c l', l + 1 <= l' ->
               string_loop (S n) (bump_newline d c) start l'
               = string_loop n (bump_newline d c) start l').
    { intros c l' Hl. apply IH.
      pose proof (bump_newline_fields d c) as (_ & B2 & B3 & _).
      rewrite B2, B3. lia. }
    change (string_loop (S (S n)) d start l)
      with (let l1 := l + 1 in
            let c := peek_char d l1 in
            if c =? 0 then (l1, d)
            else if c =? start then (l1 + 1, d)
            else if c =? BACKSLASH then
              string_loop (S n) (bump_newline d (peek_char d (l1 + 1)))
                start (l1 + 1)
            else if (start =? ch "`") && (c =? ch "$")
                    && (peek_char d (l1 + 1) =? ch "{") then
              (l1, set_flag d FLAG__PENDING_T_BRACE)
            else string_loop (S n) (bump_newline d c) start l1).
    change (string_loop (S n) d start l)
      with (let l1 := l + 1 in
            let c := peek_char d l1 in
            if c =? 0 then (l1, d)
            else if c =? start then (l1 + 1, d)
            else if c =? BACKSLASH then
              string_loop n (bump_newline d (peek_char d (l1 + 1)))
                start (l1 + 1)
            else if (start =? ch "`") && (c =? ch "$")
                    && (peek_char d (l1 + 1) =? ch "{") then
              (l1, set_flag d FLAG__PENDING_T_BRACE)
            else string_loop n (bump_newline d c) start l1).
    cbv zeta.
    destruct (peek_char d (l + 1) =? 0); [reflexivity|].
    destruct (peek_char d (l + 1) =? start); [reflexivity|].
    destruct (peek_char d (l + 1) =? BACKSLASH); [apply Hrec; lia|].
    destruct ((start =? ch "`") && (peek_char d (l + 1) =? ch "$")
              && (peek_char d (l + 1 + 1) =? ch "{")); [reflexivity|].
    apply Hrec; lia.
Qed.

Lemma string_loop_enough (m : nat) (d : tokendef) (start l : Z) :
  -1 <= l ->
  string_loop (fuel_of d + m) d start l = string_loop (fuel_of d) d start l.
Proof.
  intros Hl. induction m as [|m IH].
  - rewrite Nat.add_0_r. reflexivity.
  - rewrite Nat.add_succ_r, string_loop_fuel; [exact IH|].
    unfold fuel_of. lia.
Qed.

Lemma number_loop_S (n : nat) (d : tokendef) (l c : Z) :
  number_loop (S n) d l c
  = if negb (isalnum c || (c =? ch ".")) then l
    else number_loop n d (l + 1) (peek_char d (l + 1)).
Proof. reflexivity. Qed.

Lemma number_loop_fuel (n : nat) :
  forall d l c,
    c = peek_char d l ->
    len d - curr d - l < Z.of_nat n ->
    number_loop (S n) d l c = number_loop n d l c.
Proof.
  induction n as [|n IH]; intros d l c Hc Hb.
  - rewrite peek_char_past_end in Hc by lia. subst c. reflexivity.
  - rewrite (number_loop_S (S n) d l c), (number_loop_S n d l c).
    destruct (negb (isalnum c || (c =? ch "."))); [reflexivity|].
    apply IH; [reflexivity | lia].
Qed.

Lemma number_loop_enough (m : nat) (d : tokendef) :
  number_loop (fuel_of d + m) d 1 (peek_char d 1)
  = number_loop (fuel_of d) d 1 (peek_char d 1).
Proof.
  induction m as [|m IH].
  - rewrite Nat.add_0_r. reflexivity.
  - rewrite Nat.add_succ_r, number_loop_fuel; [exact IH | reflexivity |].
    unfold fuel_of. lia.
Qed.

Lemma flags_loop_S (n : nat) (d : tokendef) (l c : Z) :
  flags_loop (S n) d l c
  = if isalnum c then flags_loop n d (l + 1) (peek_char d (l + 1)) else l.
Proof. reflexivity. Qed.

Lemma flags_loop_fuel (n : nat) :
  forall d l c,
    c = 0 \/ c = peek_char d l ->
    len d - curr d - l < Z.of_nat n ->
    flags_loop (S n) d l c = flags_loop n d l c.
Proof.
  induction n as [|n IH]; intros d l c Hc Hb.
  - assert (c = 0) by (destruct Hc as [Hc|Hc]; [exact Hc|];
                       rewrite peek_char_past_end in Hc by lia; exact Hc).
    subst c. reflexivity.
  - rewrite (flags_loop_S (S n) d l c), (flags_loop_S n d l c).
    destruct (isalnum c); [|reflexivity].
    apply IH; [right; reflexivity | lia].
Qed.

Lemma brace_loop_S (n : nat) (d : tokendef) (l c : Z) :
  brace_loop (S n) d l c
  = if negb (c =? 0) && negb (c =? ch "}")
    then brace_loop n d (l + 1) (peek_char d (l + 1))
    else (l, c).
Proof. reflexivity. Qed.

Lemma brace_loop_fuel (n : nat) :
  forall d l c,
    len d - curr d - l <= Z.of_nat n ->
    brace_loop (S (S n)) d l c = brace_loop (S n) d l c.
Proof.
  induction n as [|n IH]; intros d l c Hb.
  - rewrite (brace_loop_S 1 d l c), (brace_loop_S 0 d l c).
    destruct (negb (c =? 0) && negb (c =? ch "}")); [|reflexivity].
    rewrite (brace_loop_S 0). rewrite peek_char_past_end by lia. reflexivity.
  - rewrite (brace_loop_S (S (S n)) d l c), (brace_loop_S (S n) d l c).
    destruct (negb (c =? 0) && negb (c =? ch "}")); [|reflexivity].
    apply IH. lia.
Qed.

Lemma brace_loop_enough (m : nat) (d : tokendef) (l c : Z) :
  2 <= l ->
  brace_loop (fuel_of d + m) d l c = brace_loop (fuel_of d) d l c.
Proof.
  intros Hl. induction m as [|m IH].
  - rewrite Nat.add_0_r. reflexivity.
  - rewrite Nat.add_succ_r. unfold fuel_of in *. simpl Nat.add in *.
    rewrite brace_loop_fuel; [exact IH | lia].
Qed.

Lemma regexp_loop_S (n : nat) (d : tokendef) (is_charexpr : bool) (l c : Z) :
  regexp_loop (S n) d is_charexpr l c
  = let round (is_charexpr : bool) (l c : Z) :=
      if peek_char (bump_newline d c) (l + 1) =? 0
      then (l + 1, peek_char (bump_newline d c) (l + 1), bump_newline d c)
      else regexp_loop n (bump_newline d c) is_charexpr (l + 1)
             (peek_char (bump_newline d c) (l + 1)) in
    if c =? ch "[" then round true l c
    else if c =? ch "]" then round false l c
    else if c =? BACKSLASH then round is_charexpr (l + 1) (peek_char d (l + 1))
    else if negb is_charexpr && (c =? ch "/")
         then (l + 1, peek_char d (l + 1), d)
    else round is_charexpr l c.
Proof. reflexivity. Qed.

Lemma regexp_loop_fuel (n : nat) :
  forall d is_charexpr l c,
    len d - curr d - l <= Z.of_nat n ->
    regexp_loop (S (S n)) d is_charexpr l c
    = regexp_loop (S n) d is_charexpr l c.
Proof.
  induction n as [|n IH]; intros d is_charexpr l c Hb;
    rewrite (regexp_loop_S _ d is_charexpr l c);
    symmetry; rewrite (regexp_loop_S _ d is_charexpr l c); symmetry;
    cbv zeta.
  - assert (Hpk : forall x k, l <= k -> peek_char (bump_newline d x) (k + 1) = 0).
    { intros x k Hk. rewrite peek_char_bump_newline.
      apply peek_char_past_end. lia. }
    repeat match goal with
           | |- context [if ?b then _ else _] =>
               lazymatch b with
               | context [peek_char] => fail
               | _ => destruct b
               end
           end;
      try reflexivity; rewrite !Hpk by lia; reflexivity.
  - assert (Hrec : forall x i k, l <= k ->
               regexp_loop (S (S n)) (bump_newline d x) i (k + 1)
                 (peek_char (bump_newline d x) (k + 1))
               = regexp_loop (S n) (bump_newline d x) i (k + 1)
                   (peek_char (bump_newline d x) (k + 1))).
    { intros x i k Hk. apply IH.
      pose proof (bump_newline_fields d x) as (_ & B2 & B3 & _).
      rewrite B2, B3. lia. }
    destruct (c =? ch "[").
    { destruct (_ =? 0); [reflexivity | apply Hrec; lia]. }
    destruct (c =? ch "]").
    { destruct (_ =? 0); [reflexivity | apply Hrec; lia]. }
    destruct (c =? BACKSLASH).
    { destruct (_ =? 0); [reflexivity | apply Hrec; lia]. }
    destruct (negb is_charexpr && (c =? ch "/")); [reflexivity|].
    destruct (_ =? 0); [reflexivity | apply Hrec; lia].
Qed.

Lemma regexp_loop_enough (m : nat) (d : tokendef) (c : Z) :
  regexp_loop (fuel_of d + m) d false 1 c = regexp_loop (fuel_of d) d false 1 c.
Proof.
  induction m as [|m IH].
  - rewrite Nat.add_0_r. reflexivity.
  - rewrite Nat.add_succ_r. unfold fuel_of in *. simpl Nat.add in *.
    rewrite regexp_loop_fuel; [exact IH | lia].
Qed.

Lemma lit_loop_S (n : nat) (d : tokendef) (l c : Z) :
  lit_loop (S n) d l c
  = if c =? BACKSLASH then
      let c1 := peek_char d (l + 1 + 1) in
      if negb (c1 =? ch "{") then
        if c1 =? 0 then l + 1 + 1 else lit_loop n d (l + 1 + 1) c1
      else
        let '(l2, c2) := brace_loop (fuel_of d) d (l + 1 + 1) c1 in
        if c2 =? 0 then l2 + 1 else lit_loop n d (l2 + 1) c2
    else
      if negb ((if negb (l =? 0) then isalnum c else isalpha c)
               || (c =? ch "$") || (c =? ch "_") || (c <? 0))
      then l
      else if peek_char d (l + 1) =? 0 then l + 1
           else lit_loop n d (l + 1) (peek_char d (l + 1)).
Proof. reflexivity. Qed.

(** The brace loop only moves forward, and stops on 0 or on the brace. *)
Lemma brace_loop_spec (n : nat) :
  forall d l c l' c',
    brace_loop n d l c = (l', c') -> l <= l' /\ (c' = 0 \/ c' = ch "}").
Proof.
  induction n as [|n IH]; intros d l c l' c' H; simpl in H.
  - inversion H; subst. split; [lia | left; reflexivity].
  - destruct (Z.eqb_spec c 0) as [E0|E0]; simpl in H.
    + inversion H; subst. split; [lia | left; reflexivity].
    + destruct (Z.eqb_spec c (ch "}")) as [E1|E1]; simpl in H.
      * inversion H; subst. split; [lia | right; reflexivity].
      * apply IH in H. split; [lia | tauto].
Qed.

Lemma peek_char_inside (d : tokendef) (k : Z) :
  peek_char d k <> 0 -> curr d + k < len d.
Proof.
  intros Hk. unfold peek_char in Hk.
  destruct (curr d + k <? len d) eqn:E;
    [apply Z.ltb_lt in E; exact E | contradiction].
Qed.

Lemma lit_loop_fuel (n : nat) :
  forall d l c,
    c = 0 \/ c = ch "}" \/ curr d + l < len d ->
    len d - curr d - l <= Z.of_nat n ->
    lit_loop (S (S n)) d l c = lit_loop (S n) d l c.
Proof.
  induction n as [|n IH]; intros d l c Hin Hb;
    rewrite (lit_loop_S _ d l c);
    symmetry; rewrite (lit_loop_S _ d l c); symmetry; cbv zeta.
  - destruct Hin as [Hc|[Hc|Hc]]; [| |lia]; subst c;
      destruct (l =? 0); reflexivity.
  - destruct (c =? BACKSLASH).
    + destruct (negb (peek_char d (l + 1 + 1) =? ch "{")).
      * destruct (Z.eqb_spec (peek_char d (l + 1 + 1)) 0) as [E0|E0];
          [reflexivity|].
        apply IH; [right; right; apply peek_char_inside; exact E0|].
        apply peek_char_inside in E0. lia.
      * destruct (brace_loop (fuel_of d) d (l + 1 + 1)
                    (peek_char d (l + 1 + 1))) as [l2 c2] eqn:E.
        apply brace_loop_spec in E. destruct E as [Hl2 Hc2].
        destruct (Z.eqb_spec c2 0) as [E0|E0]; [reflexivity|].
        destruct Hc2 as [Hc2|Hc2]; [contradiction|]. subst c2.
        rewrite (lit_loop_S _ d (l2 + 1) (ch "}")).
        symmetry. rewrite (lit_loop_S _ d (l2 + 1) (ch "}")). symmetry.
        cbv zeta. destruct (l2 + 1 =? 0); reflexivity.
    + destruct (negb _); [reflexivity|].
      destruct (Z.eqb_spec (peek_char d (l + 1)) 0) as [E0|E0];
        [reflexivity|].
      apply IH; [right; right; apply peek_char_inside; exact E0|].
      apply peek_char_inside in E0. lia.
Qed.

Lemma lit_loop_enough (m : nat) (d : tokendef) :
  lit_loop (fuel_of d + m) d 0 (peek_char d 0)
  = lit_loop (fuel_of d) d 0 (peek_char d 0).
Proof.
  induction m as [|m IH].
  - rewrite Nat.add_0_r. reflexivity.
  - rewrite Nat.add_succ_r. unfold fuel_of in *. simpl Nat.add in *.
    rewrite lit_loop_fuel; [exact IH | | lia].
    destruct (Z.eqb_spec (peek_char d 0) 0) as [E0|E0];
      [left; exact E0 | right; right; apply peek_char_inside; exact E0].
Qed.

Lemma flags_loop_enough (m : nat) (d : tokendef) (l c : Z) :
  c = 0 \/ c = peek_char d l -> 1 <= l ->
  flags_loop (fuel_of d + m) d l c = flags_loop (fuel_of d) d l c.
Proof.
  intros Hc Hl. induction m as [|m IH].
  - rewrite Nat.add_0_r. reflexivity.
  - rewrite Nat.add_succ_r, flags_loop_fuel; [exact IH | exact Hc |].
    unfold fuel_of. lia.
Qed.

(** What the regular-expression loop hands to the flags loop. *)
Lemma regexp_loop_result (n : nat) :
  forall d is_charexpr l c l' c' d',
    regexp_loop n d is_charexpr l c = (l', c', d') ->
    l <= l' /\ (c' = 0 \/ c' = peek_char d' l').
Proof.
  induction n as [|n IH]; intros d is_charexpr l c l' c' d' H.
  - simpl in H. inversion H; subst. split; [lia | left; reflexivity].
  - rewrite regexp_loop_S in H. cbv zeta in H.
    assert (Hround : forall i k x,
               l <= k ->
               (if peek_char (bump_newline d x) (k + 1) =? 0
                then (k + 1, peek_char (bump_newline d x) (k + 1),
                      bump_newline d x)
                else regexp_loop n (bump_newline d x) i (k + 1)
                       (peek_char (bump_newline d x) (k + 1)))
               = (l', c', d') ->
               l <= l' /\ (c' = 0 \/ c' = peek_char d' l')).
    { intros i k x Hk Hx.
      destruct (peek_char (bump_newline d x) (k + 1) =? 0).
      - inversion Hx; subst. split; [lia | right; reflexivity].
      - apply IH in Hx. split; [lia | tauto]. }
    destruct (c =? ch "["); [apply (Hround true l c); [lia | exact H]|].
    destruct (c =? ch "]"); [apply (Hround false l c); [lia | exact H]|].
    destruct (c =? BACKSLASH);
      [apply (Hround is_charexpr (l + 1) (peek_char d (l + 1)));
       [lia | exact H]|].
    destruct (negb is_charexpr && (c =? ch "/")).
    + inversion H; subst. split; [lia | right; reflexivity].
    + apply (Hround is_charexpr l c); [lia | exact H].
Qed.

Lemma skip_space_ge (mem : list Z) :
  forall i, i <= skip_space mem i.
Proof.
  induction mem as [|c mem IH]; intros i; simpl; [lia|].
  destruct (isspace c); [specialize (IH (i + 1)); lia | lia].
Qed.

Lemma lookahead_loop_S (n : nat) (d : tokendef) (i : Z) :
  lookahead_loop (S n) d i
  = let j := skip_space (mem_from d i) i in
    if negb (buf_at d j =? ch "/") then buf_at d j
    else if (buf_at d (j + 1) =? ch "/") || (buf_at d (j + 1) =? ch "*") then
      match strstr (mem_from d (j + 2))
              (if buf_at d (j + 1) =? ch "/" then [NL]
               else [ch "*"; ch "/"]) with
      | None => 0
      | Some at_ =>
          lookahead_loop n d
            (if negb (buf_at d (j + 1) =? ch "/")
             then j + 2 + at_ + 1 + 1 else j + 2 + at_ + 1)
      end
    else buf_at d j.
Proof. reflexivity. Qed.

Lemma lookahead_loop_fuel (n : nat) :
  forall d i,
    0 <= i ->
    Z.of_nat (List.length (buf d)) - i <= Z.of_nat n ->
    lookahead_loop (S n) d i = lookahead_loop n d i.
Proof.
  induction n as [|n IH]; intros d i Hi Hb.
  - rewrite lookahead_loop_S. cbv zeta.
    unfold mem_from. rewrite skipn_all2 by lia. simpl skip_space.
    unfold buf_at. destruct (i <? 0); [reflexivity|].
    rewrite nth_overflow by lia. reflexivity.
  - rewrite (lookahead_loop_S (S n) d i), (lookahead_loop_S n d i).
    cbv zeta.
    pose proof (skip_space_ge (mem_from d i) i) as Hj.
    set (j := skip_space (mem_from d i) i) in *.
    destruct (negb (buf_at d j =? ch "/")); [reflexivity|].
    destruct ((buf_at d (j + 1) =? ch "/") || (buf_at d (j + 1) =? ch "*"));
      [|reflexivity].
    destruct (strstr _ _) as [at_|] eqn:Es; [|reflexivity].
    apply strstr_spec in Es. destruct Es as (Hat & _).
    destruct (negb (buf_at d (j + 1) =? ch "/")); apply IH; lia.
Qed.

Lemma lookahead_loop_enough (m : nat) (d : tokendef) :
  0 <= curr d ->
  lookahead_loop (S (List.length (buf d)) + m) d (curr d)
  = lookahead_loop (S (List.length (buf d))) d (curr d).
Proof.
  intros Hc. induction m as [|m IH].
  - rewrite Nat.add_0_r. reflexivity.
  - rewrite Nat.add_succ_r, lookahead_loop_fuel; [exact IH | exact Hc | lia].
Qed.

(** ** Tokens follow one another, and the line count never goes back *)

(** An emitted token starts where the skipper stopped, and the cursor is
    left right behind it. *)
Lemma token_call_advances {C : Type}
    (d : tokendef) (out : token) (tv : tokenvalue C) (ty : token_type) :
  let e := eat_token (skip_whitespace d) tv in
  let r := prsr_next_token d out tv in
  0 <= e_ret e -> eo_type (e_out e) = Some ty ->
  curr d <= p (n_out r)
  /\ p (n_out r) = curr (skip_whitespace d)
  /\ curr (n_d r) = p (n_out r) + t_len (n_out r).
Proof.
  intros e r Hge Hty.
  pose proof (skip_whitespace_curr_mono d) as Hm.
  pose proof (eat_token_curr (skip_whitespace d) tv) as Hc. fold e in Hc.
  unfold r, prsr_next_token. fold e.
  destruct (e_ret e <? 0) eqn:E; [apply Z.ltb_lt in E; lia|].
  rewrite Hty. simpl. rewrite Hc. repeat split. exact Hm.
Qed.

Lemma bump_newline_line_no (d : tokendef) (c : Z) :
  line_no d <= line_no (bump_newline d c).
Proof. unfold bump_newline. destruct (c =? NL); simpl; lia. Qed.

Lemma string_loop_line_no (fuel : nat) :
  forall d start l l' d',
    string_loop fuel d start l = (l', d') -> line_no d <= line_no d'.
Proof.
  induction fuel as [|fuel IH]; intros d start l l' d' H; simpl in H.
  - inversion H; subst; lia.
  - repeat match type of H with
           | (if ?b then _ else _) = _ => destruct b
           end;
      try (inversion H; subst; simpl; lia);
      apply IH in H;
      match type of H with
      | line_no (bump_newline ?d0 ?c0) <= _ =>
          pose proof (bump_newline_line_no d0 c0); lia
      end.
Qed.

Lemma regexp_loop_line_no (fuel : nat) :
  forall d is_charexpr l c l' c' d',
    regexp_loop fuel d is_charexpr l c = (l', c', d') ->
    line_no d <= line_no d'.
Proof.
  induction fuel as [|fuel IH]; intros d is_charexpr l c l' c' d' H.
  - simpl in H. inversion H; subst; lia.
  - rewrite regexp_loop_S in H. cbv zeta in H.
    assert (Hround : forall i k x,
               (if peek_char (bump_newline d x) (k + 1) =? 0
                then (k + 1, peek_char (bump_newline d x) (k + 1),
                      bump_newline d x)
                else regexp_loop fuel (bump_newline d x) i (k + 1)
                       (peek_char (bump_newline d x) (k + 1)))
               = (l', c', d') ->
               line_no d <= line_no d').
    { intros i k x Hx. pose proof (bump_newline_line_no d x) as Hb.
      destruct (peek_char (bump_newline d x) (k + 1) =? 0).
      - inversion Hx; subst. exact Hb.
      - apply IH in Hx. lia. }
    destruct (c =? ch "["); [apply (Hround true l c); exact H|].
    destruct (c =? ch "]"); [apply (Hround false l c); exact H|].
    destruct (c =? BACKSLASH);
      [apply (Hround is_charexpr (l + 1) (peek_char d (l + 1))); exact H|].
    destruct (negb is_charexpr && (c =? ch "/")).
    + inversion H; subst; lia.
    + apply (Hround is_charexpr l c); exact H.
Qed.

Lemma stack_inc_line_no (d : tokendef) (b : bool) :
  line_no (snd (stack_inc d b)) = line_no d.
Proof. unfold stack_inc. destruct (depth d =? STACK_SIZE); reflexivity. Qed.

Lemma stack_dec_line_no (d : tokendef) :
  line_no (snd (stack_dec d)) = line_no d.
Proof.
  unfold stack_dec. destruct (depth d =? 0); [reflexivity|]. simpl.
  destruct (negb _); reflexivity.
Qed.

Lemma dispatch_line_no {C : Type} (d : tokendef) (tv : tokenvalue C) (c : Z) :
  line_no d <= line_no (e_d (dispatch d tv c)).
Proof.
  assert (Hrest : forall next, line_no d <= line_no (snd (eat_rest d c next))).
  { intros next.
    unfold eat_rest, eat_string, scan_string, eat_number, eat_dot, eat_regexp,
      eat_lit.
    destruct ((c =? SQUOTE) || (c =? DQUOTE) || (c =? ch "`")).
    { destruct (string_loop (fuel_of d) d c 0) as [l d'] eqn:E.
      apply string_loop_line_no in E. exact E. }
    destruct (isnum c || (c =? ch ".") && isnum next); [simpl; lia|].
    destruct (c =? ch ".").
    { destruct ((next =? ch ".") && (peek_char d 2 =? ch ".")); simpl; lia. }
    destruct (c =? ch "/").
    { destruct (regexp_loop (fuel_of d) d false 1 next) as [[l c'] d'] eqn:E.
      apply regexp_loop_line_no in E. exact E. }
    destruct (negb (lit_loop (fuel_of d) d 0 c =? 0)); simpl; lia. }
  assert (Hop : forall s, eat_op_body d c = Some s -> line_no d <= line_no (snd s)).
  { intros s. unfold eat_op_body.
    destruct (op_allowed c) as [allowed|]; [|discriminate].
    destruct (op_run allowed d c 0 c) as [l c'].
    intros H.
    repeat match type of H with
           | (if ?b then _ else _) = _ => destruct b
           end; inversion H; simpl; lia. }
  unfold dispatch.
  destruct (eat_comment d c (peek_char d 1)) as [s|] eqn:Ecom.
  { rewrite e_d_eaten_of. unfold eat_comment in Ecom.
    repeat match type of Ecom with
           | (if ?b then _ else _) = _ => destruct b
           | match ?x with Some _ => _ | None => _ end = _ => destruct x
           end; inversion Ecom; simpl; try lia.
    match goal with
    | |- _ <= _ + count_newlines ?m ?n =>
        pose proof (count_newlines_nonneg m n); lia
    end. }
  destruct (eat_punct d c) as [s|] eqn:Epun.
  { rewrite e_d_eaten_of. unfold eat_punct in Epun.
    pose proof (stack_inc_line_no d false) as Hi.
    pose proof (stack_dec_line_no d) as Hd.
    destruct (stack_inc d false) as [ri di].
    destruct (stack_dec d) as [rd dd]. simpl in Hi, Hd.
    repeat match type of Epun with
           | (if ?b then _ else _) = _ => destruct b
           end; inversion Epun; subst; simpl; try lia.
    destruct (0 <? rd); simpl; lia. }
  unfold eat_op.
  destruct (c =? ch "/").
  - destruct (check tv (context tv)) as [v ctx].
    destruct (v <? 0); [simpl; lia|].
    destruct (v =? 0); [rewrite e_d_eaten_of; apply Hrest|].
    destruct (eat_op_body d c) as [s|] eqn:Eop; rewrite e_d_eaten_of;
      [apply Hop; reflexivity | apply Hrest].
  - destruct (eat_op_body d c) as [s|] eqn:Eop; rewrite e_d_eaten_of;
      [apply Hop; reflexivity | apply Hrest].
Qed.

Lemma eat_token_line_no {C : Type} (d : tokendef) (tv : tokenvalue C) :
  line_no d <= line_no (e_d (eat_token d tv)).
Proof.
  unfold eat_token.
  destruct (peek_char (set_flag d 0) 0 =? 0); [simpl; lia|].
  destruct (negb (Z.land (flag d) FLAG__PENDING_T_BRACE =? 0)).
  { pose proof (stack_inc_line_no (set_flag d 0) true) as H.
    destruct (stack_inc (set_flag d 0) true). simpl in *. lia. }
  destruct (negb (Z.land (flag d) FLAG__RESUME_LIT =? 0)).
  { rewrite e_d_eaten_of. unfold resume_lit, scan_string.
    destruct (string_loop _ _ _ _) as [l d'] eqn:E.
    apply string_loop_line_no in E. exact E. }
  exact (dispatch_line_no (set_flag d 0) tv _).
Qed.

(** The line a call reports is not before the line the scanner was at, and
    the scanner is left at that line or behind it: reported lines never
    decrease from one call to the next. *)
Lemma line_no_never_decreases {C : Type}
    (d : tokendef) (out : token) (tv : tokenvalue C) :
  let r := prsr_next_token d out tv in
  line_no d <= t_line_no (n_out r) /\ t_line_no (n_out r) <= line_no (n_d r).
Proof.
  intros r.
  pose proof (skip_whitespace_line_no_mono d) as Hs.
  pose proof (eat_token_line_no (skip_whitespace d) tv) as He.
  unfold r, prsr_next_token.
  destruct (e_ret (eat_token (skip_whitespace d) tv) <? 0); [simpl; lia|].
  destruct (eo_type (e_out (eat_token (skip_whitespace d) tv)));
    simpl; lia.
Qed.

(** * Further properties of the code *)

(** ** The bit-stack *)

Lemma nth_upd_nth_same (l : list Z) :
  forall i v, (i < List.length l)%nat -> nth i (upd_nth i v l) 0 = v.
Proof.
  induction l as [|x l IH]; intros i v Hi; simpl in Hi; [lia|].
  destruct i as [|i]; simpl; [reflexivity | apply IH; lia].
Qed.

Lemma nth_upd_nth_other (l : list Z) :
  forall i j v, i <> j -> nth j (upd_nth i v l) 0 = nth j l 0.
Proof.
  induction l as [|x l IH]; intros i j v Hij.
  - destruct i; reflexivity.
  - destruct i as [|i], j as [|j]; simpl; try reflexivity; try lia.
    apply IH. lia.
Qed.

Lemma length_upd_nth (l : list Z) :
  forall i v, List.length (upd_nth i v l) = List.length l.
Proof.
  induction l as [|x l IH]; intros i v; [destruct i; reflexivity|].
  destruct i as [|i]; simpl; [reflexivity | rewrite IH; reflexivity].
Qed.

(** Masking with a single bit tests that bit. *)
Lemma land_bit_zero (a k : Z) :
  0 <= k -> (Z.land a (Z.shiftl 1 k) =? 0) = negb (Z.testbit a k).
Proof.
  intros Hk. rewrite Z.shiftl_1_l.
  destruct (Z.testbit a k) eqn:Eb; simpl.
  - apply Z.eqb_neq. intros H0.
    assert (Ht : Z.testbit (Z.land a (2 ^ k)) k = true).
    { rewrite Z.land_spec, Eb, Z.pow2_bits_true by lia. reflexivity. }
    rewrite H0, Z.bits_0 in Ht. discriminate.
  - apply Z.eqb_eq. apply Z.bits_inj'. intros n Hn.
    rewrite Z.land_spec, Z.bits_0, Z.pow2_bits_eqb by lia.
    destruct (Z.eqb_spec k n) as [E|E]; [subst; rewrite Eb|];
      apply andb_false_r || reflexivity.
Qed.

Lemma word_and_bit (j : Z) :
  0 <= j ->
  0 <= Z.shiftr j 5 /\ 0 <= Z.land j 31 < 32
  /\ j = 32 * Z.shiftr j 5 + Z.land j 31.
Proof.
  intros Hj. rewrite Z.shiftr_div_pow2 by lia.
  change 31 with (Z.ones 5). rewrite Z.land_ones by lia.
  change (2 ^ 5) with 32.
  pose proof (Z.div_mod j 32). pose proof (Z.mod_pos_bound j 32).
  pose proof (Z.div_pos j 32). lia.
Qed.

Lemma bit_at_testbit (st : list Z) (j : Z) :
  0 <= j ->
  bit_at st j
  = Z.testbit (nth (Z.to_nat (Z.shiftr j 5)) st 0) (Z.land j 31).
Proof.
  intros Hj. unfold bit_at.
  destruct (word_and_bit j Hj) as (_ & Hk & _).
  rewrite land_bit_zero by lia. apply negb_involutive.
Qed.

(** A push writes the bit of the new entry and leaves the entries below
    as they were. *)
Lemma stack_inc_bits (d : tokendef) (b : bool) :
  0 <= depth d < STACK_SIZE -> List.length (stack d) = 8%nat ->
  stack_inc d b
  = (0, set_stack d (depth d + 1) (stack (snd (stack_inc d b))))
  /\ bit_at (stack (snd (stack_inc d b))) (depth d) = b
  /\ (forall j, 0 <= j -> j <> depth d ->
                bit_at (stack (snd (stack_inc d b))) j = bit_at (stack d) j)
  /\ List.length (stack (snd (stack_inc d b))) = 8%nat.
Proof.
  intros Hd Hlen. unfold stack_inc.
  destruct (Z.eqb_spec (depth d) STACK_SIZE) as [E|E]; [lia|]. simpl snd.
  destruct (word_and_bit (depth d) (proj1 Hd)) as (Hw & Hk & Hsplit).
  assert (Hi : (Z.to_nat (Z.shiftr (depth d) 5) < 8)%nat).
  { unfold STACK_SIZE in Hd. lia. }
  simpl stack. split; [reflexivity|]. split; [|split].
  - rewrite bit_at_testbit by lia.
    rewrite nth_upd_nth_same by (rewrite Hlen; exact Hi).
    destruct b.
    + rewrite Z.lor_spec, Z.shiftl_1_l, Z.pow2_bits_true by lia.
      apply orb_true_r.
    + rewrite Z.land_spec, Z.lxor_spec, Z.shiftl_1_l, Z.pow2_bits_true by lia.
      change UINT32_MAX with (Z.ones 32).
      rewrite Z.ones_spec_low by lia. apply andb_false_r.
  - intros j Hj Hne. rewrite !bit_at_testbit by lia.
    destruct (word_and_bit j Hj) as (Hwj & Hkj & Hsplitj).
    destruct (Z.eq_dec (Z.shiftr j 5) (Z.shiftr (depth d) 5)) as [Ew|Ew].
    + rewrite Ew. rewrite nth_upd_nth_same by (rewrite Hlen; exact Hi).
      assert (Hk' : Z.land (depth d) 31 <> Z.land j 31) by lia.
      destruct b.
      * rewrite Z.lor_spec, Z.shiftl_1_l, Z.pow2_bits_false by lia.
        apply orb_false_r.
      * rewrite Z.land_spec, Z.lxor_spec, Z.shiftl_1_l, Z.pow2_bits_false
          by lia.
        change UINT32_MAX with (Z.ones 32).
        rewrite Z.ones_spec_low by lia. simpl. apply andb_true_r.
    + rewrite nth_upd_nth_other by lia. reflexivity.
  - rewrite length_upd_nth. exact Hlen.
Qed.

Lemma top_bit_bit_at (d : tokendef) :
  top_bit d = bit_at (stack d) (depth d - 1).
Proof. reflexivity. Qed.

(** X1: on a stack that is not full, a push succeeds, and the pop that
    follows returns the pushed bit (1 for a template-substitution brace, 0
    for an ordinary group), brings the depth back, and finds every entry
    below as it was before the push. *)
Theorem stack_push_pop_round_trip (d : tokendef) (b : bool) :
  0 <= depth d < STACK_SIZE -> List.length (stack d) = 8%nat ->
  let pushed := snd (stack_inc d b) in
  let popped := snd (stack_dec pushed) in
  fst (stack_inc d b) = 0
  /\ depth pushed = depth d + 1
  /\ fst (stack_dec pushed) = (if b then 1 else 0)
  /\ depth popped = depth d
  /\ (forall j, 0 <= j < depth d ->
                bit_at (stack popped) j = bit_at (stack d) j).
Proof.
  intros Hd Hlen pushed popped.
  destruct (stack_inc_bits d b Hd Hlen) as (Heq & Hnew & Hold & _).
  fold pushed in Heq, Hnew, Hold.
  assert (Hdep : depth pushed = depth d + 1).
  { unfold pushed at 1. rewrite Heq. reflexivity. }
  assert (Hne : depth pushed <> 0) by lia.
  assert (Htop : top_bit pushed = b).
  { rewrite top_bit_bit_at, Hdep.
    replace (depth d + 1 - 1) with (depth d) by lia. exact Hnew. }
  unfold popped. rewrite (stack_dec_top pushed Hne), Htop.
  split; [rewrite Heq; reflexivity|].
  split; [exact Hdep|].
  split; [reflexivity|].
  split; [simpl; lia|].
  intros j Hj. simpl. apply Hold; lia.
Qed.

Lemma stack_push_pop_round_trip_witness :
  let d := n_d (reached "((" 0 2) in
  0 <= depth d < STACK_SIZE /\ List.length (stack d) = 8%nat
  /\ fst (stack_dec (snd (stack_inc d true))) = 1
  /\ depth (snd (stack_dec (snd (stack_inc d true)))) = 2.
Proof.
  intros d.
  assert (H1 : 0 <= depth d < STACK_SIZE) by (vm_compute; split; discriminate || reflexivity).
  assert (H2 : List.length (stack d) = 8%nat) by reflexivity.
  pose proof (stack_push_pop_round_trip d true H1 H2) as (_ & _ & Hb & Hd & _).
  split; [exact H1|]. split; [exact H2|]. split; [exact Hb|].
  rewrite Hd. reflexivity.
Defined.

(** ** The depth follows the brackets *)

Lemma depth_step_same (d d' : tokendef) (r : Z) (eo : eat_out) :
  depth d' = depth d ->
  match eo_type eo with Some ty => depth_change ty = 0 | None => True end ->
  depth_step d (r, eo, d').
Proof.
  intros Hd Hty. unfold depth_step. rewrite Hd.
  destruct (eo_type eo) as [ty|]; [rewrite Hty|]; repeat split; lia.
Qed.

Lemma depth_step_push (d : tokendef) (b : bool) (ty : token_type) (l : Z) :
  depth_change ty = 1 ->
  depth_step d (fst (stack_inc d b), CONSUME l ty, snd (stack_inc d b)).
Proof.
  intros Hty. unfold depth_step, stack_inc.
  destruct (Z.eqb_spec (depth d) STACK_SIZE) as [E|E]; simpl; rewrite ?Hty;
    repeat split; lia.
Qed.

Lemma depth_step_pop (d : tokendef) (l : Z) :
  depth_step d (fst (stack_dec d), CONSUME l TOKEN_CLOSE, snd (stack_dec d)).
Proof.
  unfold depth_step, stack_dec.
  destruct (Z.eqb_spec (depth d) 0) as [E|E]; simpl.
  - repeat split; lia.
  - destruct (negb _); simpl; repeat split; lia.
Qed.

Lemma eat_comment_depth (d : tokendef) (c next : Z) (s : eat_step) :
  eat_comment d c next = Some s -> depth_step d s.
Proof.
  unfold eat_comment. intros H.
  repeat match type of H with
         | (if ?b then _ else _) = _ => destruct b
         | match ?x with Some _ => _ | None => _ end = _ => destruct x
         end; inversion H; apply depth_step_same; reflexivity.
Qed.

Lemma eat_punct_depth (d : tokendef) (c : Z) (s : eat_step) :
  eat_punct d c = Some s -> depth_step d s.
Proof.
  unfold eat_punct. intros H.
  pose proof (depth_step_push d false TOKEN_PAREN 1 eq_refl) as Hp.
  pose proof (depth_step_push d false TOKEN_ARRAY 1 eq_refl) as Ha.
  pose proof (depth_step_push d false TOKEN_BRACE 1 eq_refl) as Hb.
  pose proof (depth_step_pop d 1) as Hc.
  destruct (stack_inc d false) as [ri di].
  destruct (stack_dec d) as [rd dd]. simpl fst in *. simpl snd in *.
  repeat match type of H with
         | (if ?x =? ?y then _ else _) = _ => destruct (x =? y)
         end;
    try (inversion H; subst; first [apply depth_step_same; reflexivity
                                   | assumption]; fail).
  - destruct (Z.ltb_spec rd 0) as [E|E]; inversion H; subst.
    + unfold depth_step in *. simpl in *. repeat split; try lia; tauto.
    + unfold depth_step in *. simpl in *.
      destruct Hc as (H1 & H2 & H3).
      destruct (0 <? rd); simpl; repeat split; try lia; tauto.
Qed.

Lemma eat_op_body_depth (d : tokendef) (c : Z) (s : eat_step) :
  eat_op_body d c = Some s -> depth_step d s.
Proof.
  unfold eat_op_body. intros H.
  destruct (op_allowed c) as [allowed|]; [|discriminate].
  destruct (op_run allowed d c 0 c) as [l c'].
  repeat match type of H with
         | (if ?b then _ else _) = _ => destruct b
         end; inversion H; apply depth_step_same; reflexivity.
Qed.

Lemma eat_rest_depth (d : tokendef) (c next : Z) :
  depth_step d (eat_rest d c next).
Proof.
  unfold eat_rest, eat_string, scan_string, eat_number, eat_dot, eat_regexp,
    eat_lit.
  destruct ((c =? SQUOTE) || (c =? DQUOTE) || (c =? ch "`")).
  { destruct (string_loop (fuel_of d) d c 0) as [l d'] eqn:E.
    apply string_loop_fields in E.
    apply depth_step_same; [tauto | reflexivity]. }
  destruct (isnum c || (c =? ch ".") && isnum next);
    [apply depth_step_same; reflexivity|].
  destruct (c =? ch ".").
  { destruct ((next =? ch ".") && (peek_char d 2 =? ch "."));
      apply depth_step_same; reflexivity. }
  destruct (c =? ch "/").
  { destruct (regexp_loop (fuel_of d) d false 1 next) as [[l c'] d'] eqn:E.
    apply regexp_loop_fields in E.
    apply depth_step_same; [tauto | reflexivity]. }
  destruct (negb (lit_loop (fuel_of d) d 0 c =? 0));
    apply depth_step_same; (reflexivity || exact I).
Qed.

Lemma depth_step_eaten {C : Type} (d : tokendef) (s : eat_step)
    (tv : tokenvalue C) :
  depth_step d s ->
  depth_step d (e_ret (eaten_of s tv), e_out (eaten_of s tv),
                e_d (eaten_of s tv)).
Proof. destruct s as [[r eo] d']. exact (fun H => H). Qed.

Lemma dispatch_depth {C : Type} (d : tokendef) (tv : tokenvalue C) (c : Z) :
  depth_step d (e_ret (dispatch d tv c), e_out (dispatch d tv c),
                e_d (dispatch d tv c)).
Proof.
  unfold dispatch.
  destruct (eat_comment d c (peek_char d 1)) as [s|] eqn:Ecom.
  { apply depth_step_eaten. eapply eat_comment_depth; eassumption. }
  destruct (eat_punct d c) as [s|] eqn:Epun.
  { apply depth_step_eaten. eapply eat_punct_depth; eassumption. }
  unfold eat_op.
  destruct (c =? ch "/").
  - destruct (check tv (context tv)) as [v ctx].
    destruct (v <? 0); [apply depth_step_same; (reflexivity || exact I)|].
    destruct (v =? 0); [apply depth_step_eaten, eat_rest_depth|].
    destruct (eat_op_body d c) as [s|] eqn:Eop; apply depth_step_eaten;
      [eapply eat_op_body_depth; eassumption | apply eat_rest_depth].
  - destruct (eat_op_body d c) as [s|] eqn:Eop; apply depth_step_eaten;
      [eapply eat_op_body_depth; eassumption | apply eat_rest_depth].
Qed.

Lemma eat_token_depth {C : Type} (d : tokendef) (tv : tokenvalue C) :
  depth_step d (e_ret (eat_token d tv), e_out (eat_token d tv),
                e_d (eat_token d tv)).
Proof.
  unfold eat_token.
  destruct (peek_char (set_flag d 0) 0 =? 0).
  { apply depth_step_same; reflexivity. }
  destruct (negb (Z.land (flag d) FLAG__PENDING_T_BRACE =? 0)).
  { pose proof (depth_step_push (set_flag d 0) true TOKEN_T_BRACE 2 eq_refl)
      as H.
    destruct (stack_inc (set_flag d 0) true). exact H. }
  destruct (negb (Z.land (flag d) FLAG__RESUME_LIT =? 0)).
  { apply depth_step_eaten. unfold resume_lit, scan_string.
    destruct (string_loop _ _ _ _) as [l d'] eqn:E.
    apply string_loop_fields in E.
    apply depth_step_same; [simpl in *; tauto | reflexivity]. }
  exact (dispatch_depth (set_flag d 0) tv _).
Qed.

(** X2: the depth follows the token kinds.  After a call that emitted a
    token the depth is one more for PAREN, ARRAY, BRACE and T_BRACE, one
    less for CLOSE and unchanged for every other kind; a call that fails
    or finds nothing leaves it alone; and a depth within [0 .. 256] stays
    there. *)
Theorem depth_follows_brackets {C : Type}
    (d : tokendef) (out : token) (tv : tokenvalue C) :
  let r := prsr_next_token d out tv in
  depth (n_d r)
  = (if emitted d tv then depth d + depth_change (t_type (n_out r))
     else depth d)
  /\ (0 <= depth d <= STACK_SIZE -> 0 <= depth (n_d r) <= STACK_SIZE).
Proof.
  intros r.
  pose proof (eat_token_depth (skip_whitespace d) tv) as H.
  destruct (skip_whitespace_fields d) as (_ & _ & _ & Hdep & _).
  unfold depth_step in H. rewrite Hdep in H.
  destruct H as (Hneg & Hpos & Hbound).
  unfold r, emitted, prsr_next_token.
  destruct (Z.ltb_spec (e_ret (eat_token (skip_whitespace d) tv)) 0) as [E|E].
  - destruct (Z.leb_spec 0 (e_ret (eat_token (skip_whitespace d) tv)));
      [lia|]. simpl. split; [apply Hneg; exact E | exact Hbound].
  - destruct (Z.leb_spec 0 (e_ret (eat_token (skip_whitespace d) tv)));
      [|lia]. specialize (Hpos E).
    destruct (eo_type (e_out (eat_token (skip_whitespace d) tv))) as [ty|];
      simpl; (split; [lia | exact Hbound]).
Qed.

Lemma depth_follows_brackets_witness :
  let d := n_d (reached "((" 0 1) in
  let r := prsr_next_token d slot0 (answering 0) in
  0 <= depth d <= STACK_SIZE
  /\ emitted d (answering 0) = true
  /\ t_type (n_out r) = TOKEN_PAREN
  /\ depth (n_d r) = depth d + 1
  /\ 0 <= depth (n_d r) <= STACK_SIZE.
Proof.
  intros d r.
  assert (H1 : 0 <= depth d <= STACK_SIZE)
    by (vm_compute; split; discriminate).
  pose proof (depth_follows_brackets d slot0 (answering 0)) as (Hd & Hb).
  split; [exact H1|]. split; [reflexivity|]. split; [reflexivity|].
  split; [exact Hd | exact (Hb H1)].
Defined.

(** ** prsr_init_token *)

Lemma strlen_spec (mem : list Z) :
  0 <= strlen mem <= Z.of_nat (List.length mem)
  /\ (forall i, (i < Z.to_nat (strlen mem))%nat -> nth i mem 0 <> 0)
  /\ nth (Z.to_nat (strlen mem)) mem 0 = 0.
Proof.
  induction mem as [|c mem (Hb & Hin & Hend)].
  - simpl. split; [lia|]. split; [intros i Hi; lia | reflexivity].
  - cbn [strlen]. destruct (Z.eqb_spec c 0) as [E|E].
    + simpl. split; [lia|]. split; [intros i Hi; lia | exact E].
    + replace (Z.to_nat (1 + strlen mem)) with (S (Z.to_nat (strlen mem)))
        by lia.
      cbn [List.length nth]. split; [lia|]. split; [|exact Hend].
      intros [|i] Hi; [exact E | apply Hin; lia].
Qed.

(** X3: [prsr_init_token] starts the scanner at offset 0, line 1, depth 0
    with both flags clear, and its [len] is the offset of the first NUL of
    the memory handed in: no byte before [len] is NUL, and the byte at
    [len] is. *)
Theorem init_token_state (mem : list Z) :
  let d := prsr_init_token mem in
  curr d = 0 /\ line_no d = 1 /\ depth d = 0 /\ plain d
  /\ 0 <= len d <= Z.of_nat (List.length mem)
  /\ (forall i, 0 <= i < len d -> buf_at d i <> 0)
  /\ buf_at d (len d) = 0
  /\ in_buffer d.
Proof.
  intros d. destruct (strlen_spec mem) as (Hb & Hin & Hend).
  assert (Hat : buf_at d (len d) = 0).
  { unfold buf_at, d. simpl.
    destruct (strlen mem <? 0) eqn:E; [reflexivity | exact Hend]. }
  split; [reflexivity|]. split; [reflexivity|]. split; [reflexivity|].
  split; [split; reflexivity|]. split; [exact Hb|].
  split; [|split; [exact Hat|]].
  - intros i Hi. unfold buf_at, d in *. simpl in *.
    destruct (i <? 0) eqn:E; [apply Z.ltb_lt in E; lia|].
    apply Hin. lia.
  - unfold in_buffer. split; [simpl; lia | exact Hat].
Qed.

Lemma init_token_state_witness :
  let d := prsr_init_token (cstr "ab") in
  len d = 2 /\ buf_at d 1 <> 0 /\ buf_at d (len d) = 0.
Proof.
  intros d.
  pose proof (init_token_state (cstr "ab")) as (_ & _ & _ & _ & _ & Hin & Hend
                                                 & _).
  split; [reflexivity|]. split; [|exact Hend].
  apply Hin. vm_compute. split; discriminate || reflexivity.
Defined.

(** ** A buffer of whitespace *)

Lemma buf_at_nth (d : tokendef) (i : Z) :
  0 <= i -> buf_at d i = nth (Z.to_nat i) (buf d) 0.
Proof.
  intros Hi. unfold buf_at.
  destruct (i <? 0) eqn:E; [apply Z.ltb_lt in E; lia | reflexivity].
Qed.

(** The skipper does not step over a byte that is no whitespace. *)
Lemma skip_whitespace_stops_before (d : tokendef) (i : Z) :
  0 <= curr d <= i -> isspace (buf_at d i) = false ->
  curr (skip_whitespace d) <= i.
Proof.
  intros Hc Hi.
  destruct (skip_whitespace_spec d (proj1 Hc)) as (_ & Hws & _).
  destruct (Z.le_gt_cases (curr (skip_whitespace d)) i) as [H|H]; [exact H|].
  rewrite Hws in Hi by lia. discriminate.
Qed.

(** X4: on a buffer that holds nothing but whitespace in front of its
    terminator (the empty buffer included), the first call returns 0 and
    emits EOF of length 0 at offset [len], on line 1 plus the number of
    newlines in the buffer, without consulting the oracle. *)
Theorem whitespace_only_gives_eof {C : Type}
    (mem : list Z) (out : token) (tv : tokenvalue C) :
  (forall i, 0 <= i < strlen mem -> isspace (nth (Z.to_nat i) mem 0) = true) ->
  let d := prsr_init_token mem in
  let r := prsr_next_token d out tv in
  n_ret r = 0
  /\ n_out r
     = mk_token (len d) 0 TOKEN_EOF
         (1 + count_newlines mem (Z.to_nat (len d))) false
  /\ curr (n_d r) = len d
  /\ n_tv r = tv.
Proof.
  intros Hall d r.
  destruct (init_token_state mem) as (_ & _ & _ & _ & Hb & _ & Hend & _).
  fold d in Hb, Hend.
  assert (Hc0 : 0 <= curr d) by (simpl; lia).
  destruct (skip_whitespace_spec d Hc0) as (_ & Hws & Hstop & Hline).
  assert (Hcur : curr (skip_whitespace d) = len d).
  { assert (Hle : curr (skip_whitespace d) <= len d).
    { apply skip_whitespace_stops_before; [simpl; simpl in Hb; lia|].
      rewrite Hend. reflexivity. }
    destruct (Z.eq_dec (curr (skip_whitespace d)) (len d)) as [E|E];
      [exact E|].
    pose proof (skip_whitespace_curr_mono d) as Hm. simpl curr in Hm at 1.
    rewrite buf_at_nth in Hstop by lia.
    change (buf d) with mem in Hstop.
    rewrite (Hall (curr (skip_whitespace d))) in Hstop;
      [discriminate | simpl in *; lia]. }
  destruct (skip_whitespace_fields d) as (Hbuf & Hlen & _ & Hdep & _).
  assert (Hst : standing (skip_whitespace d) = 0).
  { unfold standing. apply peek_char_past_end. rewrite Hlen. lia. }
  subst r. unfold prsr_next_token.
  rewrite (eat_token_eof _ tv Hst), Hdep.
  change (depth d) with 0. change (0 <? 0) with false. cbv iota.
  cbn [e_ret e_out e_d e_tv eo_type eo_len CONSUME Z.ltb Z.compare
       token_type_eqb set_flag set_curr curr line_no n_ret n_out n_d n_tv].
  rewrite Hcur, Hline, Z.add_0_r.
  change (line_no d) with 1. change (curr d) with 0. rewrite Z.sub_0_r.
  change (mem_from d 0) with mem.
  cbn [t_line_no]. rewrite Hcur. repeat split.
Qed.

Lemma whitespace_only_gives_eof_witness :
  let mem := cstr (" " ++ LF ++ " " ++ LF)%string in
  (forall i, 0 <= i < strlen mem -> isspace (nth (Z.to_nat i) mem 0) = true)
  /\ n_out (prsr_next_token (prsr_init_token mem) slot0 (answering 0))
     = mk_token 4 0 TOKEN_EOF 3 false.
Proof.
  intros mem.
  assert (H : forall i, 0 <= i < strlen mem ->
                        isspace (nth (Z.to_nat i) mem 0) = true).
  { intros i Hi. change (strlen mem) with 4 in Hi.
    assert (Hn : (Z.to_nat i < 4)%nat) by lia.
    destruct (Z.to_nat i) as [|[|[|[|n]]]]; try reflexivity. lia. }
  split; [exact H|].
  pose proof (whitespace_only_gives_eof mem slot0 (answering 0) H)
    as (_ & Hout & _).
  rewrite Hout. reflexivity.
Defined.

(** ** How far the scanners reach *)

Lemma starts_with_nth (needle : list Z) :
  forall l i,
    starts_with needle l = true -> (i < List.length needle)%nat ->
    nth i l 0 = nth i needle 0.
Proof.
  induction needle as [|n needle IH]; intros l i H Hi; simpl in Hi; [lia|].
  destruct l as [|h l]; simpl in H; [discriminate|].
  apply andb_prop in H. destruct H as [Hh Ht]. apply Z.eqb_eq in Hh.
  destruct i as [|i]; simpl; [symmetry; exact Hh | apply IH; [exact Ht | lia]].
Qed.

(** No NUL lies in front of or inside what [strstr] finds. *)
Lemma strstr_before_nul (hay needle : list Z) (k : Z) :
  strstr hay needle = Some k ->
  (forall i, (i < List.length needle)%nat -> nth i needle 0 <> 0) ->
  forall j, (j < Z.to_nat k + List.length needle)%nat -> nth j hay 0 <> 0.
Proof.
  intros Hs Hneedle j Hj.
  destruct (strstr_spec _ _ _ Hs) as (Hk & Hfound & Hfirst).
  destruct (Nat.lt_ge_cases j (Z.to_nat k)) as [Hlt|Hge].
  - apply (Hfirst j Hlt).
  - pose proof (starts_with_nth needle _ (j - Z.to_nat k)%nat Hfound) as Hn.
    rewrite nth_skipn_shift in Hn.
    replace (Z.to_nat k + (j - Z.to_nat k))%nat with j in Hn by lia.
    rewrite Hn by lia. apply Hneedle. lia.
Qed.

(** A comment found by [strstr] ends in front of the terminator. *)
Lemma strstr_in_buffer (d : tokendef) (i k : Z) (needle : list Z) :
  0 <= i <= len d -> buf_at d (len d) = 0 ->
  strstr (mem_from d i) needle = Some k ->
  (forall n, (n < List.length needle)%nat -> nth n needle 0 <> 0) ->
  0 <= k /\ i + k + Z.of_nat (List.length needle) <= len d.
Proof.
  intros Hi Hend Hs Hneedle.
  destruct (strstr_spec _ _ _ Hs) as (Hk & _).
  split; [exact Hk|].
  destruct (Z.le_gt_cases (i + k + Z.of_nat (List.length needle)) (len d))
    as [H|H]; [exact H|].
  exfalso.
  apply (strstr_before_nul _ _ _ Hs Hneedle (Z.to_nat (len d - i))); [lia|].
  unfold mem_from. rewrite nth_skipn_shift.
  replace (Z.to_nat i + Z.to_nat (len d - i))%nat with (Z.to_nat (len d))
    by lia.
  rewrite <- buf_at_nth by lia. exact Hend.
Qed.

Lemma eat_comment_within (d : tokendef) (s : eat_step) :
  eat_comment d (peek_char d 0) (peek_char d 1) = Some s -> within d s.
Proof.
  unfold eat_comment.
  destruct (negb (peek_char d 0 =? ch "/")); [discriminate|].
  destruct ((peek_char d 1 =? ch "/") || (peek_char d 1 =? ch "*")) eqn:En;
    [|discriminate].
  assert (Hin : curr d + 1 < len d).
  { apply peek_char_inside. apply orb_prop in En.
    destruct En as [E|E]; apply Z.eqb_eq in E; rewrite E; discriminate. }
  destruct (strstr _ _) as [at_|] eqn:Es.
  - assert (Hb : 0 <= at_
                 /\ (0 <= curr d -> buf_at d (len d) = 0 ->
                     curr d + 2 + at_
                     + (if peek_char d 1 =? ch "/" then 1 else 2) <= len d)).
    { split; [apply strstr_spec in Es; tauto|]. intros Hc Hend.
      destruct (peek_char d 1 =? ch "/");
        (eapply strstr_in_buffer in Es;
         [simpl List.length in Es; lia | lia | exact Hend
          | intros [|[|n]] Hn; simpl in *; try discriminate; lia]). }
    destruct Hb as [Hat Hb].
    destruct (peek_char d 1 =? ch "/"); intros H; inversion H; subst;
      unfold within; simpl; intros _; (split; [lia|]);
      intros Hc Hend; specialize (Hb Hc Hend); lia.
  - intros H; inversion H; subst. unfold within. simpl. intros _.
    split; [lia | intros; lia].
Qed.

Lemma eat_punct_within (d : tokendef) (s : eat_step) :
  eat_punct d (peek_char d 0) = Some s -> within d s.
Proof.
  unfold eat_punct. intros H.
  assert (Hin : peek_char d 0 <> 0 -> curr d + 1 <= len d).
  { intros Hn. apply peek_char_inside in Hn. lia. }
  destruct (stack_inc d false) as [ri di].
  destruct (stack_dec d) as [rd dd].
  repeat match type of H with
         | (if ?x =? ?y then _ else _) = _ =>
             let E := fresh "E" in destruct (Z.eqb_spec x y) as [E|E]
         end;
    try discriminate;
    try (destruct (rd <? 0) eqn:Er);
    inversion H; subst; unfold within; simpl;
    intros Hr;
    first [ apply Z.ltb_lt in Er; lia
          | assert (curr d + 1 <= len d)
              by (apply Hin;
                  match goal with
                  | Heq : peek_char d 0 = _ |- _ => rewrite Heq; discriminate
                  end);
            lia ].
Qed.

Lemma op_run_spec (n : nat) :
  forall d start l c l' c',
    op_run n d start l c = (l', c') -> n <> O ->
    l + 1 <= l' /\ c' = peek_char d l'
    /\ (l' = l + 1 \/ peek_char d (l' - 1) = start).
Proof.
  induction n as [|n IH]; intros d start l c l' c' H Hn; [contradiction|].
  simpl in H.
  destruct (Z.eqb_spec (peek_char d (l + 1)) start) as [E|E]; simpl in H.
  - destruct n as [|n].
    + simpl in H. inversion H; subst. repeat split; [lia | left; reflexivity].
    + apply IH in H; [|discriminate]. destruct H as (H1 & H2 & H3).
      split; [lia|]. split; [exact H2|]. right.
      destruct H3 as [H3|H3]; [|exact H3].
      rewrite H3. replace (l + 1 + 1 - 1) with (l + 1) by lia. exact E.
  - inversion H; subst. repeat split; [lia | left; reflexivity].
Qed.

Lemma eat_op_body_within (d : tokendef) (s : eat_step) :
  peek_char d 0 <> 0 ->
  eat_op_body d (peek_char d 0) = Some s -> within d s.
Proof.
  intros Hc. unfold eat_op_body.
  destruct (op_allowed (peek_char d 0)) as [allowed|] eqn:Ea; [|discriminate].
  assert (Hal : allowed <> O).
  { unfold op_allowed in Ea.
    repeat match type of Ea with
           | (if ?b then _ else _) = _ => destruct b
           end; inversion Ea; discriminate. }
  destruct (op_run allowed d (peek_char d 0) 0 (peek_char d 0)) as [l c'] eqn:E.
  apply op_run_spec in E; [|exact Hal]. destruct E as (Hl & Hc' & Hprev).
  assert (Hin : curr d + l <= len d).
  { destruct Hprev as [Hp|Hp].
    - apply peek_char_inside in Hc. lia.
    - rewrite <- Hp in Hc. apply peek_char_inside in Hc. lia. }
  assert (Hnz : c' <> 0 -> curr d + l < len d).
  { intros Hn. rewrite Hc' in Hn. apply peek_char_inside in Hn. exact Hn. }
  destruct ((peek_char d 0 =? ch "=") && (c' =? ch ">")) eqn:E1.
  { intros H; inversion H; subst. unfold within. simpl. intros _.
    apply andb_prop in E1. destruct E1 as [_ E1]. apply Z.eqb_eq in E1.
    assert (curr d + l < len d) by (apply Hnz; rewrite E1; discriminate).
    lia. }
  destruct ((c' =? peek_char d 0) && strchr "+-|&" (peek_char d 0)) eqn:E2.
  { intros H; inversion H; subst. unfold within. simpl. intros _.
    apply andb_prop in E2. destruct E2 as [E2 _]. apply Z.eqb_eq in E2.
    assert (curr d + l < len d) by (apply Hnz; rewrite E2; exact Hc).
    lia. }
  destruct (Z.eqb_spec c' (ch "=")) as [E3|E3].
  - assert (Hl1 : curr d + l < len d) by (apply Hnz; rewrite E3; discriminate).
    destruct ((peek_char d (l + 1) =? ch "=")
              && ((peek_char d 0 =? ch "=") || (peek_char d 0 =? ch "!")))
      eqn:E4; intros H; inversion H; subst; unfold within; simpl; intros _;
      [|lia].
    apply andb_prop in E4. destruct E4 as [E4 _]. apply Z.eqb_eq in E4.
    assert (curr d + (l + 1) < len d)
      by (apply peek_char_inside; rewrite E4; discriminate).
    lia.
  - intros H; inversion H; subst. unfold within. simpl. intros _. lia.
Qed.

Lemma string_loop_extent (fuel : nat) :
  forall d start l l' d',
    string_loop fuel d start l = (l', d') ->
    l + 1 <= l'
    /\ (curr d + l <= len d -> curr d + l' <= len d + 1)
    /\ (flag d' = flag d
        \/ (flag d' = FLAG__PENDING_T_BRACE
            /\ peek_char d l' = ch "$" /\ peek_char d (l' + 1) = ch "{"))
    /\ (fuel <> O -> l' = l + 1 ->
        peek_char d (l + 1) = 0 \/ flag d' = FLAG__PENDING_T_BRACE).
Proof.
  induction fuel as [|fuel IH]; intros d start l l' d' H.
  - simpl in H. inversion H; subst.
    repeat split; [lia | lia | left; reflexivity | intros; contradiction].
  - simpl in H.
    assert (Hrec : forall c k,
               l + 1 <= k -> (curr d + l <= len d -> curr d + k <= len d) ->
               string_loop fuel (bump_newline d c) start k = (l', d') ->
               l + 1 <= l'
               /\ (curr d + l <= len d -> curr d + l' <= len d + 1)
               /\ (flag d' = flag d
                   \/ (flag d' = FLAG__PENDING_T_BRACE
                       /\ peek_char d l' = ch "$"
                       /\ peek_char d (l' + 1) = ch "{"))
               /\ (S fuel <> O -> l' = l + 1 ->
                   peek_char d (l + 1) = 0
                   \/ flag d' = FLAG__PENDING_T_BRACE)).
    { intros c k Hk Hin Hx. apply IH in Hx.
      destruct Hx as (H1 & H2 & H3 & _).
      pose proof (bump_newline_fields d c) as (_ & B2 & B3 & B4 & _).
      rewrite B2, B3, B4 in *. rewrite !peek_char_bump_newline in H3.
      split; [lia|]. split; [intros Hl; apply H2; apply Hin; exact Hl|].
      split; [exact H3|]. intros _ Hl. lia. }
    destruct (Z.eqb_spec (peek_char d (l + 1)) 0) as [E0|E0].
    { inversion H; subst.
      repeat split; [lia | lia | left; reflexivity | left; exact E0]. }
    assert (Hin : curr d + (l + 1) < len d) by (apply peek_char_inside; exact E0).
    destruct (peek_char d (l + 1) =? start).
    { inversion H; subst.
      repeat split; [lia | lia | left; reflexivity | intros; lia]. }
    destruct (peek_char d (l + 1) =? BACKSLASH).
    { apply (Hrec (peek_char d (l + 1 + 1)) (l + 1 + 1));
        [lia | lia | exact H]. }
    destruct ((start =? ch "`") && (peek_char d (l + 1) =? ch "$")
              && (peek_char d (l + 1 + 1) =? ch "{")) eqn:Et.
    { inversion H; subst.
      apply andb_prop in Et. destruct Et as [Et E3].
      apply andb_prop in Et. destruct Et as [_ E2].
      apply Z.eqb_eq in E2, E3.
      repeat split; [lia | lia | right; repeat split; assumption
                     | intros; right; reflexivity]. }
    apply (Hrec (peek_char d (l + 1)) (l + 1)); [lia | lia | exact H].
Qed.

Lemma number_loop_extent (fuel : nat) :
  forall d l c,
    c = peek_char d l -> curr d + l <= len d ->
    l <= number_loop fuel d l c
    /\ curr d + number_loop fuel d l c <= len d.
Proof.
  induction fuel as [|fuel IH]; intros d l c Hc Hin; simpl; [lia|].
  destruct (isalnum c || (c =? ch ".")) eqn:E; simpl; [|lia].
  assert (Hnz : c <> 0) by (intros H0; rewrite H0 in E; discriminate).
  rewrite Hc in Hnz. apply peek_char_inside in Hnz.
  destruct (IH d (l + 1) (peek_char d (l + 1)) eq_refl); lia.
Qed.

Lemma flags_loop_extent (fuel : nat) :
  forall d l c,
    c = 0 \/ c = peek_char d l -> curr d + l <= len d + 1 ->
    l <= flags_loop fuel d l c
    /\ curr d + flags_loop fuel d l c <= len d + 1.
Proof.
  induction fuel as [|fuel IH]; intros d l c Hc Hin; simpl; [lia|].
  destruct (isalnum c) eqn:E; [|lia].
  assert (Hnz : c <> 0) by (intros H0; rewrite H0 in E; discriminate).
  destruct Hc as [Hc|Hc]; [contradiction|].
  rewrite Hc in Hnz. apply peek_char_inside in Hnz.
  destruct (IH d (l + 1) (peek_char d (l + 1)) (or_intror eq_refl)); lia.
Qed.

Lemma regexp_loop_extent (n : nat) :
  forall d is_charexpr l c l' c' d',
    regexp_loop n d is_charexpr l c = (l', c', d') ->
    c = peek_char d l -> curr d + l <= len d ->
    curr d + l' <= len d + 1 /\ (n <> O -> l + 1 <= l').
Proof.
  induction n as [|n IH]; intros d is_charexpr l c l' c' d' H Hc Hin.
  - simpl in H. inversion H; subst. split; [lia | intros; contradiction].
  - rewrite regexp_loop_S in H. cbv zeta in H.
    assert (Hround : forall i k x,
               l <= k -> curr d + k <= len d ->
               (if peek_char (bump_newline d x) (k + 1) =? 0
                then (k + 1, peek_char (bump_newline d x) (k + 1),
                      bump_newline d x)
                else regexp_loop n (bump_newline d x) i (k + 1)
                       (peek_char (bump_newline d x) (k + 1)))
               = (l', c', d') ->
               curr d + l' <= len d + 1 /\ (S n <> O -> l + 1 <= l')).
    { intros i k x Hk Hkin Hx.
      pose proof (bump_newline_fields d x) as (_ & B2 & B3 & _).
      destruct (Z.eqb_spec (peek_char (bump_newline d x) (k + 1)) 0) as [E|E].
      - inversion Hx; subst. split; [lia | intros; lia].
      - pose proof (peek_char_inside _ _ E) as Hi. rewrite B2, B3 in Hi.
        pose proof (regexp_loop_result _ _ _ _ _ _ _ _ Hx) as (Hge & _).
        apply IH in Hx; [|reflexivity | rewrite B2, B3; lia].
        rewrite B2, B3 in Hx. destruct Hx as (Hu & _).
        split; [exact Hu | intros; lia]. }
    assert (Hnz : c <> 0 -> curr d + l < len d).
    { intros Hn. rewrite Hc in Hn. apply peek_char_inside in Hn. exact Hn. }
    destruct (Z.eqb_spec c (ch "[")) as [E1|E1];
      [apply (Hround true l c); [lia | lia | exact H]|].
    destruct (Z.eqb_spec c (ch "]")) as [E2|E2];
      [apply (Hround false l c); [lia | lia | exact H]|].
    destruct (Z.eqb_spec c BACKSLASH) as [E3|E3].
    { assert (curr d + l < len d) by (apply Hnz; rewrite E3; discriminate).
      destruct (Hround is_charexpr (l + 1) (peek_char d (l + 1)));
        [lia | lia | exact H |]. split; [assumption | intros; lia]. }
    destruct (negb is_charexpr && (c =? ch "/")) eqn:E4.
    { apply andb_prop in E4. destruct E4 as [_ E4]. apply Z.eqb_eq in E4.
      assert (curr d + l < len d) by (apply Hnz; rewrite E4; discriminate).
      inversion H; subst. split; [lia | intros; lia]. }
    apply (Hround is_charexpr l c); [lia | lia | exact H].
Qed.

Lemma brace_loop_extent (n : nat) :
  forall d l c l' c',
    brace_loop n d l c = (l', c') ->
    c = peek_char d l -> curr d + l <= len d ->
    curr d + l' <= len d.
Proof.
  induction n as [|n IH]; intros d l c l' c' H Hc Hin; simpl in H.
  - inversion H; subst; lia.
  - destruct (Z.eqb_spec c 0) as [E0|E0]; simpl in H;
      [inversion H; subst; lia|].
    destruct (c =? ch "}"); simpl in H; [inversion H; subst; lia|].
    rewrite Hc in E0. apply peek_char_inside in E0.
    apply IH in H; [exact H | reflexivity | lia].
Qed.

Lemma lit_loop_extent (n : nat) :
  forall d l c,
    c = 0 \/ c = ch "}" \/ (c = peek_char d l /\ c <> 0) ->
    curr d + l <= len d + 1 ->
    l <= lit_loop n d l c /\ curr d + lit_loop n d l c <= len d + 1.
Proof.
  induction n as [|n IH]; intros d l c Hc Hin; [simpl; lia|].
  rewrite lit_loop_S. cbv zeta.
  destruct (Z.eqb_spec c BACKSLASH) as [Eb|Eb].
  - assert (Hl : curr d + l < len d).
    { destruct Hc as [Hc|[Hc|[Hc Hnz]]];
        [rewrite Hc in Eb; discriminate | rewrite Hc in Eb; discriminate|].
      rewrite Hc in Hnz. apply peek_char_inside in Hnz. exact Hnz. }
    destruct (Z.eqb_spec (peek_char d (l + 1 + 1)) (ch "{")) as [Ebr|Ebr];
      simpl negb; cbv iota.
    + destruct (brace_loop (fuel_of d) d (l + 1 + 1)
                  (peek_char d (l + 1 + 1))) as [l2 c2] eqn:E.
      pose proof (brace_loop_spec _ _ _ _ _ _ E) as (Hl2 & Hc2).
      assert (Hu : curr d + l2 <= len d).
      { assert (E0 : peek_char d (l + 1 + 1) <> 0)
          by (rewrite Ebr; discriminate).
        apply peek_char_inside in E0.
        eapply brace_loop_extent; [exact E | reflexivity | lia]. }
      destruct (Z.eqb_spec c2 0) as [E0|E0]; [lia|].
      destruct Hc2 as [Hc2|Hc2]; [contradiction|].
      destruct (IH d (l2 + 1) c2); [auto | lia | lia].
    + destruct (Z.eqb_spec (peek_char d (l + 1 + 1)) 0) as [E0|E0]; [lia|].
      pose proof (peek_char_inside _ _ E0).
      destruct (IH d (l + 1 + 1) (peek_char d (l + 1 + 1))); [auto | lia | lia].
  - destruct (negb _) eqn:Ev; [lia|].
    destruct Hc as [Hc|[Hc|[Hc Hnz]]].
    + subst c. destruct (l =? 0); discriminate.
    + subst c. destruct (l =? 0); discriminate.
    + rewrite Hc in Hnz. apply peek_char_inside in Hnz.
      destruct (Z.eqb_spec (peek_char d (l + 1)) 0) as [E0|E0]; [lia|].
      destruct (IH d (l + 1) (peek_char d (l + 1))); [auto | lia | lia].
Qed.

Lemma eat_rest_within (d : tokendef) :
  peek_char d 0 <> 0 ->
  within d (eat_rest d (peek_char d 0) (peek_char d 1)).
Proof.
  intros Hc. pose proof (peek_char_inside _ _ Hc) as Hin.
  unfold eat_rest, eat_string, scan_string, eat_number, eat_dot, eat_regexp,
    eat_lit.
  destruct ((peek_char d 0 =? SQUOTE) || (peek_char d 0 =? DQUOTE)
            || (peek_char d 0 =? ch "`")).
  { destruct (string_loop (fuel_of d) d (peek_char d 0) 0) as [l d'] eqn:E.
    apply string_loop_extent in E. destruct E as (Hlo & Hup & _).
    unfold within, CONSUME; cbn [eo_type eo_len may_overshoot]; intros _. split; [lia | intros; lia]. }
  destruct (isnum (peek_char d 0)
            || (peek_char d 0 =? ch ".") && isnum (peek_char d 1)).
  { destruct (number_loop_extent (fuel_of d) d 1 (peek_char d 1) eq_refl);
      [lia|].
    unfold within, CONSUME; cbn [eo_type eo_len may_overshoot]; intros _. split; [lia | intros; lia]. }
  destruct (peek_char d 0 =? ch ".").
  { destruct ((peek_char d 1 =? ch ".") && (peek_char d 2 =? ch ".")) eqn:E;
      unfold within, CONSUME; cbn [eo_type eo_len may_overshoot]; intros _; (split; [lia|]); intros _ _; [|lia].
    apply andb_prop in E. destruct E as [_ E]. apply Z.eqb_eq in E.
    assert (curr d + 2 < len d)
      by (apply peek_char_inside; rewrite E; discriminate).
    lia. }
  destruct (peek_char d 0 =? ch "/").
  { destruct (regexp_loop (fuel_of d) d false 1 (peek_char d 1))
      as [[l c'] d'] eqn:E.
    pose proof (regexp_loop_fields _ _ _ _ _ _ _ _ E) as (_ & F2 & F3 & _).
    pose proof (regexp_loop_result _ _ _ _ _ _ _ _ E) as (_ & Hc').
    apply regexp_loop_extent in E; [|reflexivity | lia].
    destruct E as (Hup & Hlo).
    assert (Hl : 1 + 1 <= l) by (apply Hlo; unfold fuel_of; discriminate).
    destruct (flags_loop_extent (fuel_of d') d' l c' Hc');
      [rewrite F2, F3; lia|].
    unfold within, CONSUME; cbn [eo_type eo_len may_overshoot]; intros _. rewrite F2, F3 in *.
    split; [lia | intros; lia]. }
  destruct (lit_loop_extent (fuel_of d) d 0 (peek_char d 0));
    [right; right; split; [reflexivity | exact Hc] | lia |].
  destruct (Z.eqb_spec (lit_loop (fuel_of d) d 0 (peek_char d 0)) 0);
    unfold within, CONSUME;
    cbv beta iota delta [eo_type eo_len may_overshoot negb]; intros _;
    [exact I|].
  split; [lia | intros; lia].
Qed.

Lemma within_eaten {C : Type} (d : tokendef) (s : eat_step)
    (tv : tokenvalue C) :
  within d s ->
  within d (e_ret (eaten_of s tv), e_out (eaten_of s tv),
            e_d (eaten_of s tv)).
Proof. destruct s as [[r eo] d']. exact (fun H => H). Qed.

Lemma dispatch_within {C : Type} (d : tokendef) (tv : tokenvalue C) :
  peek_char d 0 <> 0 ->
  within d (e_ret (dispatch d tv (peek_char d 0)),
            e_out (dispatch d tv (peek_char d 0)),
            e_d (dispatch d tv (peek_char d 0))).
Proof.
  intros Hc. unfold dispatch.
  destruct (eat_comment d (peek_char d 0) (peek_char d 1)) as [s|] eqn:Ecom.
  { apply within_eaten. apply eat_comment_within. exact Ecom. }
  destruct (eat_punct d (peek_char d 0)) as [s|] eqn:Epun.
  { apply within_eaten. apply eat_punct_within. exact Epun. }
  unfold eat_op.
  destruct (peek_char d 0 =? ch "/").
  - destruct (check tv (context tv)) as [v ctx].
    destruct (v <? 0) eqn:Ev.
    { unfold within. simpl. intros _. exact I. }
    destruct (v =? 0); [apply within_eaten, eat_rest_within; exact Hc|].
    destruct (eat_op_body d (peek_char d 0)) as [s|] eqn:Eop;
      apply within_eaten;
      [apply eat_op_body_within; assumption | apply eat_rest_within; exact Hc].
  - destruct (eat_op_body d (peek_char d 0)) as [s|] eqn:Eop;
      apply within_eaten;
      [apply eat_op_body_within; assumption | apply eat_rest_within; exact Hc].
Qed.

(** ** The buffer and its length are left alone *)

Lemma stack_inc_frame (d : tokendef) (b : bool) :
  buf (snd (stack_inc d b)) = buf d /\ len (snd (stack_inc d b)) = len d.
Proof. unfold stack_inc. destruct (depth d =? STACK_SIZE); split; reflexivity. Qed.

Lemma stack_dec_frame (d : tokendef) :
  buf (snd (stack_dec d)) = buf d /\ len (snd (stack_dec d)) = len d.
Proof.
  unfold stack_dec. destruct (depth d =? 0); [split; reflexivity|]. simpl.
  destruct (negb _); split; reflexivity.
Qed.

Lemma eat_comment_frame (d : tokendef) (c next : Z) (s : eat_step) :
  eat_comment d c next = Some s ->
  buf (snd s) = buf d /\ len (snd s) = len d.
Proof.
  unfold eat_comment. intros H.
  repeat match type of H with
         | (if ?b then _ else _) = _ => destruct b
         | match ?x with Some _ => _ | None => _ end = _ => destruct x
         end; inversion H; split; reflexivity.
Qed.

Lemma eat_punct_frame (d : tokendef) (c : Z) (s : eat_step) :
  eat_punct d c = Some s ->
  buf (snd s) = buf d /\ len (snd s) = len d.
Proof.
  unfold eat_punct. intros H.
  pose proof (stack_inc_frame d false) as Hi.
  pose proof (stack_dec_frame d) as Hd.
  destruct (stack_inc d false) as [ri di].
  destruct (stack_dec d) as [rd dd]. simpl in Hi, Hd.
  repeat match type of H with
         | (if ?b then _ else _) = _ => destruct b
         end; inversion H; subst; simpl; try assumption;
    try (split; reflexivity).
  destruct (0 <? rd); simpl; assumption.
Qed.

Lemma eat_op_body_frame (d : tokendef) (c : Z) (s : eat_step) :
  eat_op_body d c = Some s ->
  buf (snd s) = buf d /\ len (snd s) = len d.
Proof.
  unfold eat_op_body. intros H.
  destruct (op_allowed c) as [allowed|]; [|discriminate].
  destruct (op_run allowed d c 0 c) as [l c'].
  repeat match type of H with
         | (if ?b then _ else _) = _ => destruct b
         end; inversion H; split; reflexivity.
Qed.

Lemma eat_rest_frame (d : tokendef) (c next : Z) :
  buf (snd (eat_rest d c next)) = buf d
  /\ len (snd (eat_rest d c next)) = len d.
Proof.
  unfold eat_rest, eat_string, scan_string, eat_number, eat_dot, eat_regexp,
    eat_lit.
  destruct ((c =? SQUOTE) || (c =? DQUOTE) || (c =? ch "`")).
  { destruct (string_loop (fuel_of d) d c 0) as [l d'] eqn:E.
    apply string_loop_fields in E. simpl. tauto. }
  destruct (isnum c || (c =? ch ".") && isnum next); [split; reflexivity|].
  destruct (c =? ch ".").
  { destruct ((next =? ch ".") && (peek_char d 2 =? ch "."));
      split; reflexivity. }
  destruct (c =? ch "/").
  { destruct (regexp_loop (fuel_of d) d false 1 next) as [[l c'] d'] eqn:E.
    apply regexp_loop_fields in E. simpl. tauto. }
  destruct (negb (lit_loop (fuel_of d) d 0 c =? 0)); split; reflexivity.
Qed.

Lemma dispatch_frame {C : Type} (d : tokendef) (tv : tokenvalue C) (c : Z) :
  buf (e_d (dispatch d tv c)) = buf d /\ len (e_d (dispatch d tv c)) = len d.
Proof.
  unfold dispatch.
  destruct (eat_comment d c (peek_char d 1)) as [s|] eqn:Ecom.
  { rewrite e_d_eaten_of. eapply eat_comment_frame; eassumption. }
  destruct (eat_punct d c) as [s|] eqn:Epun.
  { rewrite e_d_eaten_of. eapply eat_punct_frame; eassumption. }
  unfold eat_op.
  destruct (c =? ch "/").
  - destruct (check tv (context tv)) as [v ctx].
    destruct (v <? 0); [split; reflexivity|].
    destruct (v =? 0); [rewrite e_d_eaten_of; apply eat_rest_frame|].
    destruct (eat_op_body d c) as [s|] eqn:Eop; rewrite e_d_eaten_of;
      [eapply eat_op_body_frame; eassumption | apply eat_rest_frame].
  - destruct (eat_op_body d c) as [s|] eqn:Eop; rewrite e_d_eaten_of;
      [eapply eat_op_body_frame; eassumption | apply eat_rest_frame].
Qed.

Lemma eat_token_frame {C : Type} (d : tokendef) (tv : tokenvalue C) :
  buf (e_d (eat_token d tv)) = buf d /\ len (e_d (eat_token d tv)) = len d.
Proof.
  unfold eat_token.
  destruct (peek_char (set_flag d 0) 0 =? 0); [split; reflexivity|].
  destruct (negb (Z.land (flag d) FLAG__PENDING_T_BRACE =? 0)).
  { pose proof (stack_inc_frame (set_flag d 0) true) as H.
    destruct (stack_inc (set_flag d 0) true). exact H. }
  destruct (negb (Z.land (flag d) FLAG__RESUME_LIT =? 0)).
  { rewrite e_d_eaten_of. unfold resume_lit, scan_string.
    destruct (string_loop _ _ _ _) as [l d'] eqn:E.
    apply string_loop_fields in E. simpl in *. tauto. }
  exact (dispatch_frame (set_flag d 0) tv _).
Qed.

Lemma next_token_frame {C : Type} (d : tokendef) (out : token)
    (tv : tokenvalue C) :
  buf (n_d (prsr_next_token d out tv)) = buf d
  /\ len (n_d (prsr_next_token d out tv)) = len d.
Proof.
  destruct (skip_whitespace_fields d) as (Hb & Hl & _).
  destruct (eat_token_frame (skip_whitespace d) tv) as (Eb & El).
  unfold prsr_next_token.
  destruct (e_ret (eat_token (skip_whitespace d) tv) <? 0);
    [simpl; split; congruence|].
  destruct (eo_type (e_out (eat_token (skip_whitespace d) tv)));
    simpl; split; congruence.
Qed.

(** ** Where tokens lie *)

(** What [eat_token] yields on each of its four entries. *)
Lemma eat_token_extent {C : Type} (d : tokendef) (tv : tokenvalue C) :
  let e := eat_token d tv in
  0 <= e_ret e ->
  match eo_type (e_out e) with
  | None => True
  | Some ty =>
      0 <= eo_len (e_out e)
      /\ (eo_len (e_out e) = 0 ->
          ty = TOKEN_EOF
          \/ (ty = TOKEN_STRING /\ resuming d
              /\ flag (e_d e) = FLAG__PENDING_T_BRACE))
      /\ (0 <= curr d <= len d -> buf_at d (len d) = 0 ->
          curr d + eo_len (e_out e) <= len d + 1
          /\ (may_overshoot ty = false ->
              (ty = TOKEN_T_BRACE -> following d <> 0) ->
              curr d + eo_len (e_out e) <= len d))
  end.
Proof.
  intros e Hret. subst e.
  destruct (Z.eq_dec (standing d) 0) as [Hst|Hst].
  { rewrite (eat_token_eof d tv Hst). simpl.
    split; [lia|]. split; [left; reflexivity|]. intros; lia. }
  pose proof (peek_char_inside _ _ Hst) as Hin.
  destruct (Z.eq_dec (Z.land (flag d) FLAG__PENDING_T_BRACE) 0) as [Hp|Hp].
  2:{ rewrite (eat_token_pending d tv Hp Hst). simpl.
      split; [lia|]. split; [intros; lia|]. intros Hc Hend.
      split; [lia|]. intros _ Hf. specialize (Hf eq_refl).
      apply peek_char_inside in Hf. lia. }
  destruct (Z.eq_dec (Z.land (flag d) FLAG__RESUME_LIT) 0) as [Hr|Hr].
  2:{ rewrite (eat_token_resuming d tv (conj Hp Hr) Hst).
      unfold resume_lit, scan_string.
      destruct (string_loop (fuel_of (set_flag d 0)) (set_flag d 0)
                  (ch "`") (-1)) as [l d'] eqn:E.
      apply string_loop_extent in E. destruct E as (Hlo & Hup & _ & Hz).
      simpl in *. split; [lia|]. split.
      - intros Hl0. right. split; [reflexivity|]. split; [split; assumption|].
        destruct Hz as [Hz|Hz]; [discriminate | lia | | exact Hz].
        unfold standing in Hst. contradiction.
      - intros Hc Hend. split; [lia | discriminate]. }
  rewrite (eat_token_plain d tv (conj Hp Hr) Hst).
  pose proof (dispatch_within (set_flag d 0) tv Hst) as Hw.
  change (peek_char (set_flag d 0) 0) with (standing d) in Hw.
  unfold within in Hw.
  rewrite (eat_token_plain d tv (conj Hp Hr) Hst) in Hret.
  specialize (Hw Hret).
  destruct (eo_type (e_out (dispatch (set_flag d 0) tv (standing d))))
    as [ty|]; [|exact I].
  destruct Hw as (Hlo & Hup). simpl in Hup.
  split; [lia|]. split; [intros; lia|].
  intros Hc Hend. specialize (Hup (proj1 Hc) Hend).
  destruct (may_overshoot ty); split; try lia; try discriminate.
Qed.

(** What an emitting call leaves in the slot and in the scanner. *)
Lemma emitted_call {C : Type} (d : tokendef) (out : token)
    (tv : tokenvalue C) :
  emitted d tv = true ->
  let d0 := skip_whitespace d in
  let e := eat_token d0 tv in
  let r := prsr_next_token d out tv in
  0 <= e_ret e
  /\ eo_type (e_out e) = Some (t_type (n_out r))
  /\ n_ret r = 0
  /\ p (n_out r) = curr d0
  /\ t_len (n_out r) = eo_len (e_out e)
  /\ t_line_no (n_out r) = line_no d0
  /\ n_d r = set_curr (e_d e) (curr d0 + eo_len (e_out e)).
Proof.
  intros Hem d0 e r. unfold emitted in Hem. cbv zeta in Hem.
  fold d0 in Hem. fold e in Hem.
  apply andb_prop in Hem. destruct Hem as [Hge Hty].
  apply Z.leb_le in Hge.
  pose proof (eat_token_curr d0 tv) as Hc. fold e in Hc.
  unfold r, prsr_next_token. fold d0. fold e.
  destruct (e_ret e <? 0) eqn:E; [apply Z.ltb_lt in E; lia|].
  destruct (eo_type (e_out e)) as [ty|]; [|discriminate].
  split; [exact Hge|].
  simpl. rewrite Hc. repeat split.
Qed.

(** X5: the cursor never moves backwards.  A call that emits a token
    reports a length that is not negative, and a token of length 0 is
    either EOF or the STRING of a resumed template literal that stands
    right on the next dollar-brace (the call then arms
    pending-substitution-open, so the following call still moves on). *)
Theorem cursor_never_goes_back {C : Type}
    (d : tokendef) (out : token) (tv : tokenvalue C) :
  let r := prsr_next_token d out tv in
  curr d <= curr (n_d r)
  /\ (emitted d tv = true ->
      0 <= t_len (n_out r)
      /\ curr (n_d r) = p (n_out r) + t_len (n_out r)
      /\ (t_len (n_out r) = 0 ->
          t_type (n_out r) = TOKEN_EOF
          \/ (t_type (n_out r) = TOKEN_STRING /\ resuming d
              /\ flag (n_d r) = FLAG__PENDING_T_BRACE))).
Proof.
  intros r.
  pose proof (skip_whitespace_curr_mono d) as Hm.
  pose proof (eat_token_curr (skip_whitespace d) tv) as Hc.
  destruct (emitted d tv) eqn:Hem.
  - destruct (emitted_call d out tv Hem)
      as (Hge & Hty & _ & Hp & Hl & _ & Hd).
    fold r in Hty, Hp, Hl, Hd.
    pose proof (eat_token_extent (skip_whitespace d) tv Hge) as Hx.
    rewrite Hty in Hx. destruct Hx as (Hlo & Hz & _).
    rewrite Hd, Hp, Hl. simpl. split; [lia|]. intros _.
    split; [exact Hlo|]. split; [reflexivity|].
    intros H0. destruct (Hz H0) as [He|(Hs & Hr & Hf)]; [left; exact He|].
    right. split; [exact Hs|]. split; [|exact Hf].
    unfold resuming in *.
    destruct (skip_whitespace_fields d) as (_ & _ & Hfl & _).
    rewrite Hfl in Hr. exact Hr.
  - split; [|discriminate].
    unfold emitted in Hem. unfold r, prsr_next_token.
    destruct (e_ret (eat_token (skip_whitespace d) tv) <? 0) eqn:E;
      [simpl; lia|].
    apply Z.ltb_ge in E. apply Z.leb_le in E. rewrite E in Hem.
    destruct (eo_type (e_out (eat_token (skip_whitespace d) tv)));
      [discriminate | simpl; lia].
Qed.

Lemma cursor_never_goes_back_witness :
  let d := n_d (reached "`${a}${b}`" 0 4) in
  let r := prsr_next_token d slot0 (answering 0) in
  emitted d (answering 0) = true
  /\ n_out r = mk_token 5 0 TOKEN_STRING 1 false
  /\ resuming d /\ flag (n_d r) = FLAG__PENDING_T_BRACE.
Proof.
  intros d r.
  assert (He : emitted d (answering 0) = true) by reflexivity.
  pose proof (cursor_never_goes_back d slot0 (answering 0)) as (_ & H).
  destruct (H He) as (_ & _ & Hz).
  split; [exact He|]. split; [reflexivity|].
  assert (Hl : t_len (n_out (prsr_next_token d slot0 (answering 0))) = 0)
    by (vm_compute; reflexivity).
  destruct (Hz Hl) as [Heof|(_ & Hr & Hf)];
    [vm_compute in Heof; discriminate Heof|].
  split; [exact Hr | exact Hf].
Defined.

(** X6: in a state whose cursor is inside the buffer, a token never ends
    more than one byte behind the end of the buffer; and a token of a kind
    other than STRING, REGEXP and LIT ends inside the buffer and leaves the
    cursor inside it (for T_BRACE provided the byte behind the cursor is
    not the terminator, as it is when pending-substitution-open was armed
    by the string scanner). *)
Theorem tokens_lie_in_buffer {C : Type}
    (d : tokendef) (out : token) (tv : tokenvalue C) :
  in_buffer d -> emitted d tv = true ->
  let r := prsr_next_token d out tv in
  let ty := t_type (n_out r) in
  curr d <= p (n_out r) <= len d
  /\ p (n_out r) + t_len (n_out r) <= len d + 1
  /\ (may_overshoot ty = false ->
      (ty = TOKEN_T_BRACE -> following (skip_whitespace d) <> 0) ->
      p (n_out r) + t_len (n_out r) <= len d /\ in_buffer (n_d r)).
Proof.
  intros (Hc & Hend) Hem r ty.
  destruct (emitted_call d out tv Hem) as (Hge & Hty & _ & Hp & Hl & _ & Hd).
  fold r in Hty, Hp, Hl, Hd.
  destruct (skip_whitespace_fields d) as (Hbuf & Hlen & _).
  pose proof (skip_whitespace_curr_mono d) as Hm.
  assert (Hstop : curr (skip_whitespace d) <= len d).
  { apply skip_whitespace_stops_before; [lia | rewrite Hend; reflexivity]. }
  assert (Hend0 : buf_at (skip_whitespace d) (len (skip_whitespace d)) = 0).
  { unfold buf_at in *. rewrite Hbuf, Hlen. exact Hend. }
  pose proof (eat_token_extent (skip_whitespace d) tv Hge) as Hx.
  rewrite Hty in Hx. destruct Hx as (Hlo & _ & Hup).
  rewrite Hlen in Hup, Hend0.
  destruct (Hup (conj (Z.le_trans _ _ _ (proj1 Hc) Hm) Hstop) Hend0)
    as (Hup1 & Hsafe).
  rewrite Hp, Hl. split; [lia|]. split; [exact Hup1|].
  intros Hkind Hbrace. specialize (Hsafe Hkind Hbrace).
  split; [exact Hsafe|].
  destruct (next_token_frame d out tv) as (Fb & Fl). fold r in Fb, Fl.
  unfold in_buffer. rewrite Fl. split.
  - rewrite Hd. simpl. lia.
  - unfold buf_at in *. rewrite Fb. exact Hend.
Qed.

Lemma tokens_lie_in_buffer_witness :
  let d := prsr_init_token (cstr ">>>= 1") in
  let r := prsr_next_token d slot0 (answering 0) in
  in_buffer d /\ emitted d (answering 0) = true
  /\ n_out r = mk_token 0 4 TOKEN_OP 1 false
  /\ p (n_out r) + t_len (n_out r) <= len d
  /\ in_buffer (n_d r).
Proof.
  intros d r.
  assert (H1 : in_buffer d)
    by (split; [vm_compute; split; discriminate | reflexivity]).
  assert (H2 : emitted d (answering 0) = true) by reflexivity.
  pose proof (tokens_lie_in_buffer d slot0 (answering 0) H1 H2)
    as (_ & _ & Hs).
  assert (Hk : may_overshoot (t_type (n_out r)) = false) by reflexivity.
  assert (Hb : t_type (n_out r) = TOKEN_T_BRACE ->
               following (skip_whitespace d) <> 0)
    by (intros Hx; discriminate Hx).
  destruct (Hs Hk Hb) as (Ha & Hi).
  split; [exact H1|]. split; [exact H2|]. split; [reflexivity|].
  split; [exact Ha | exact Hi].
Defined.

(** ** When the oracle is left alone *)

Lemma n_tv_is_e_tv {C : Type} (d : tokendef) (out : token)
    (tv : tokenvalue C) :
  n_tv (prsr_next_token d out tv) = e_tv (eat_token (skip_whitespace d) tv).
Proof.
  unfold prsr_next_token.
  destruct (e_ret (eat_token (skip_whitespace d) tv) <? 0); [reflexivity|].
  destruct (eo_type (e_out (eat_token (skip_whitespace d) tv))); reflexivity.
Qed.

Lemma dispatch_oracle {C : Type} (d : tokendef) (tv : tokenvalue C) (c : Z) :
  e_tv (dispatch d tv c) = tv
  \/ (c = ch "/" /\ peek_char d 1 <> ch "/" /\ peek_char d 1 <> ch "*"
      /\ e_tv (dispatch d tv c)
         = mk_tokenvalue (check tv) (snd (check tv (context tv)))).
Proof.
  unfold dispatch.
  destruct (eat_comment d c (peek_char d 1)) as [s|] eqn:Ecom;
    [left; apply e_tv_eaten_of|].
  destruct (eat_punct d c) as [s|] eqn:Epun; [left; apply e_tv_eaten_of|].
  unfold eat_op.
  destruct (Z.eqb_spec c (ch "/")) as [Ec|Ec].
  - subst c. apply eat_comment_none in Ecom. destruct Ecom as [H1 H2].
    right. split; [reflexivity|]. split; [exact H1|]. split; [exact H2|].
    destruct (check tv (context tv)) as [v ctx]. simpl snd.
    destruct (v <? 0); [reflexivity|].
    destruct (v =? 0); [apply e_tv_eaten_of|].
    destruct (eat_op_body d (ch "/")); apply e_tv_eaten_of.
  - left. destruct (eat_op_body d c); apply e_tv_eaten_of.
Qed.

(** X7: a token call consults the oracle at most once, and only when no
    flag is armed and the cursor, after the whitespace, stands on a slash
    that begins no comment; in every other call the oracle and its context
    come back untouched. *)
Theorem oracle_only_on_slash {C : Type}
    (d : tokendef) (out : token) (tv : tokenvalue C) :
  let d0 := skip_whitespace d in
  let r := prsr_next_token d out tv in
  (n_tv r = tv
   \/ n_tv r = mk_tokenvalue (check tv) (snd (check tv (context tv))))
  /\ (~ (plain d /\ slash_not_comment d0) -> n_tv r = tv).
Proof.
  intros d0 r. unfold r. rewrite n_tv_is_e_tv. fold d0.
  assert (Hcases : e_tv (eat_token d0 tv) = tv
                   \/ (plain d /\ slash_not_comment d0
                       /\ e_tv (eat_token d0 tv)
                          = mk_tokenvalue (check tv)
                              (snd (check tv (context tv))))).
  { destruct (Z.eq_dec (standing d0) 0) as [Hst|Hst].
    { left. rewrite (eat_token_eof d0 tv Hst). reflexivity. }
    destruct (Z.eq_dec (Z.land (flag d0) FLAG__PENDING_T_BRACE) 0) as [Hp|Hp].
    2:{ left. rewrite (eat_token_pending d0 tv Hp Hst). reflexivity. }
    destruct (Z.eq_dec (Z.land (flag d0) FLAG__RESUME_LIT) 0) as [Hr|Hr].
    2:{ left. rewrite (eat_token_resuming d0 tv (conj Hp Hr) Hst).
        apply e_tv_eaten_of. }
    rewrite (eat_token_plain d0 tv (conj Hp Hr) Hst).
    destruct (dispatch_oracle (set_flag d0 0) tv (standing d0))
      as [H|(Hc & H1 & H2 & H)]; [left; exact H|].
    right. split; [|split; [|exact H]].
    - unfold plain, d0 in *.
      destruct (skip_whitespace_fields d) as (_ & _ & Hf & _).
      rewrite Hf in Hp, Hr. split; assumption.
    - repeat split; assumption. }
  split.
  - destruct Hcases as [H|(_ & _ & H)]; [left | right]; exact H.
  - intros Hn. destruct Hcases as [H|(Hp & Hs & _)]; [exact H|].
    exfalso. apply Hn. split; assumption.
Qed.

Lemma oracle_only_on_slash_witness :
  let d := n_d (reached "a//b" 1 1) in
  ~ (plain d /\ slash_not_comment (skip_whitespace d))
  /\ context (n_tv (prsr_next_token d slot0 (answering 1))) = 0%nat
  /\ t_type (n_out (prsr_next_token d slot0 (answering 1))) = TOKEN_COMMENT.
Proof.
  intros d.
  assert (H : ~ (plain d /\ slash_not_comment (skip_whitespace d))).
  { intros (_ & _ & Hn & _). apply Hn. reflexivity. }
  pose proof (oracle_only_on_slash d slot0 (answering 1)) as (_ & Hk).
  split; [exact H|]. split; [|reflexivity].
  rewrite (Hk H). reflexivity.
Defined.

(** ** The two flags *)

Lemma flag_step_same (d d' : tokendef) (r : Z) (eo : eat_out) :
  flag d' = flag d -> flag_step d (r, eo, d').
Proof. intros H. left. exact H. Qed.

Lemma stack_inc_flag (d : tokendef) (b : bool) :
  flag (snd (stack_inc d b)) = flag d.
Proof. unfold stack_inc. destruct (depth d =? STACK_SIZE); reflexivity. Qed.

Lemma stack_dec_flag (d : tokendef) :
  flag (snd (stack_dec d)) = flag d.
Proof.
  unfold stack_dec. destruct (depth d =? 0); [reflexivity|]. simpl.
  destruct (negb _); reflexivity.
Qed.

Lemma stack_dec_positive (d : tokendef) :
  0 < fst (stack_dec d) -> depth d <> 0 /\ top_bit d = true.
Proof.
  intros H. destruct (Z.eq_dec (depth d) 0) as [E|E].
  - rewrite (stack_dec_empty d E) in H. simpl in H. lia.
  - split; [exact E|]. rewrite (stack_dec_top d E) in H. simpl in H.
    destruct (top_bit d); [reflexivity | lia].
Qed.

Lemma eat_comment_flag (d : tokendef) (c next : Z) (s : eat_step) :
  eat_comment d c next = Some s -> flag_step d s.
Proof.
  unfold eat_comment. intros H.
  repeat match type of H with
         | (if ?b then _ else _) = _ => destruct b
         | match ?x with Some _ => _ | None => _ end = _ => destruct x
         end; inversion H; apply flag_step_same; reflexivity.
Qed.

Lemma eat_punct_flag (d : tokendef) (s : eat_step) :
  eat_punct d (peek_char d 0) = Some s -> flag_step d s.
Proof.
  unfold eat_punct. intros H.
  pose proof (stack_inc_flag d false) as Hi.
  pose proof (stack_dec_flag d) as Hd.
  pose proof (stack_dec_positive d) as Hpos.
  destruct (stack_inc d false) as [ri di].
  destruct (stack_dec d) as [rd dd]. simpl in Hi, Hd, Hpos.
  repeat match type of H with
         | (if ?x =? ?y then _ else _) = _ =>
             let E := fresh "E" in destruct (Z.eqb_spec x y) as [E|E]
         end;
    try discriminate;
    try (inversion H; subst; apply flag_step_same; assumption || reflexivity).
  destruct (rd <? 0);
    [inversion H; subst; apply flag_step_same; assumption|].
  destruct (Z.ltb_spec 0 rd) as [Hr|Hr]; inversion H; subst.
  - right. right. destruct (Hpos Hr) as (H1 & H2).
    repeat split; assumption.
  - apply flag_step_same; assumption.
Qed.

Lemma eat_op_body_flag (d : tokendef) (c : Z) (s : eat_step) :
  eat_op_body d c = Some s -> flag_step d s.
Proof.
  unfold eat_op_body. intros H.
  destruct (op_allowed c) as [allowed|]; [|discriminate].
  destruct (op_run allowed d c 0 c) as [l c'].
  repeat match type of H with
         | (if ?b then _ else _) = _ => destruct b
         end; inversion H; apply flag_step_same; reflexivity.
Qed.

Lemma scan_string_flag (d : tokendef) (start l : Z) :
  flag_step d (scan_string d start l).
Proof.
  unfold scan_string.
  destruct (string_loop (fuel_of d) d start l) as [l' d'] eqn:E.
  apply string_loop_extent in E. destruct E as (_ & _ & [Hf|(Hf & H1 & H2)] & _).
  - left. exact Hf.
  - right. left. repeat split; assumption.
Qed.

Lemma eat_rest_flag (d : tokendef) (c next : Z) :
  flag_step d (eat_rest d c next).
Proof.
  unfold eat_rest, eat_string, eat_number, eat_dot, eat_regexp, eat_lit.
  destruct ((c =? SQUOTE) || (c =? DQUOTE) || (c =? ch "`"));
    [apply scan_string_flag|].
  destruct (isnum c || (c =? ch ".") && isnum next);
    [apply flag_step_same; reflexivity|].
  destruct (c =? ch ".").
  { destruct ((next =? ch ".") && (peek_char d 2 =? ch "."));
      apply flag_step_same; reflexivity. }
  destruct (c =? ch "/").
  { destruct (regexp_loop (fuel_of d) d false 1 next) as [[l c'] d'] eqn:E.
    apply regexp_loop_fields in E. apply flag_step_same. tauto. }
  destruct (negb (lit_loop (fuel_of d) d 0 c =? 0));
    apply flag_step_same; reflexivity.
Qed.

Lemma flag_step_eaten {C : Type} (d : tokendef) (s : eat_step)
    (tv : tokenvalue C) :
  flag_step d s ->
  flag_step d (e_ret (eaten_of s tv), e_out (eaten_of s tv),
               e_d (eaten_of s tv)).
Proof. destruct s as [[r eo] d']. exact (fun H => H). Qed.

Lemma dispatch_flag {C : Type} (d : tokendef) (tv : tokenvalue C) :
  flag_step d (e_ret (dispatch d tv (peek_char d 0)),
               e_out (dispatch d tv (peek_char d 0)),
               e_d (dispatch d tv (peek_char d 0))).
Proof.
  unfold dispatch.
  destruct (eat_comment d (peek_char d 0) (peek_char d 1)) as [s|] eqn:Ecom.
  { apply flag_step_eaten. eapply eat_comment_flag; eassumption. }
  destruct (eat_punct d (peek_char d 0)) as [s|] eqn:Epun.
  { apply flag_step_eaten. apply eat_punct_flag. exact Epun. }
  unfold eat_op.
  destruct (peek_char d 0 =? ch "/").
  - destruct (check tv (context tv)) as [v ctx].
    destruct (v <? 0); [apply flag_step_same; reflexivity|].
    destruct (v =? 0); [apply flag_step_eaten, eat_rest_flag|].
    destruct (eat_op_body d (peek_char d 0)) as [s|] eqn:Eop;
      apply flag_step_eaten;
      [eapply eat_op_body_flag; eassumption | apply eat_rest_flag].
  - destruct (eat_op_body d (peek_char d 0)) as [s|] eqn:Eop;
      apply flag_step_eaten;
      [eapply eat_op_body_flag; eassumption | apply eat_rest_flag].
Qed.

Lemma eat_token_flag {C : Type} (d : tokendef) (tv : tokenvalue C) :
  flag_step (set_flag d 0)
    (e_ret (eat_token d tv), e_out (eat_token d tv), e_d (eat_token d tv)).
Proof.
  unfold eat_token.
  destruct (peek_char (set_flag d 0) 0 =? 0);
    [apply flag_step_same; reflexivity|].
  destruct (negb (Z.land (flag d) FLAG__PENDING_T_BRACE =? 0)).
  { pose proof (stack_inc_flag (set_flag d 0) true) as H.
    destruct (stack_inc (set_flag d 0) true). apply flag_step_same. exact H. }
  destruct (negb (Z.land (flag d) FLAG__RESUME_LIT =? 0)).
  { apply flag_step_eaten. apply scan_string_flag. }
  exact (dispatch_flag (set_flag d 0) tv).
Qed.

Lemma peek_char_moved (d d' : tokendef) (k j : Z) :
  buf d' = buf d -> len d' = len d ->
  peek_char (set_curr d' (curr d + k)) j = peek_char d (k + j).
Proof.
  intros Hb Hl. unfold peek_char, buf_at. simpl. rewrite Hb, Hl.
  rewrite Z.add_assoc. reflexivity.
Qed.

(** X8: after every token call at most one flag is armed, and each one
    only where the next call needs it: pending-substitution-open only
    behind a STRING token, with the cursor standing on dollar-brace;
    resume-template-literal only behind the CLOSE token of a closing brace
    that popped an entry with bit 1.  Whatever was armed before the call
    is cleared by it. *)
Theorem flag_after_call {C : Type}
    (d : tokendef) (out : token) (tv : tokenvalue C) :
  let d0 := skip_whitespace d in
  let r := prsr_next_token d out tv in
  flag (n_d r) = 0
  \/ (flag (n_d r) = FLAG__PENDING_T_BRACE
      /\ n_ret r = 0 /\ t_type (n_out r) = TOKEN_STRING
      /\ standing (n_d r) = ch "$" /\ following (n_d r) = ch "{")
  \/ (flag (n_d r) = FLAG__RESUME_LIT
      /\ n_ret r = 0 /\ t_type (n_out r) = TOKEN_CLOSE
      /\ t_len (n_out r) = 1
      /\ standing d0 = ch "}" /\ depth d <> 0 /\ top_bit d = true).
Proof.
  intros d0 r.
  pose proof (eat_token_flag d0 tv) as H.
  pose proof (eat_token_frame d0 tv) as (Fb & Fl).
  pose proof (eat_token_curr d0 tv) as Fc.
  unfold flag_step in H. unfold r, prsr_next_token. fold d0.
  destruct H as [H|[(Hf & Hr & Hty & H1 & H2)|(Hf & Hr & Heo & Hc & Hd & Ht)]].
  - left. simpl flag in H.
    destruct (e_ret (eat_token d0 tv) <? 0); [exact H|].
    destruct (eo_type (e_out (eat_token d0 tv))); exact H.
  - right. left. rewrite Hr, Hty. simpl.
    split; [exact Hf|]. split; [reflexivity|]. split; [reflexivity|].
    unfold standing, following. rewrite Fc.
    rewrite !(peek_char_moved d0 _ _ _ Fb Fl).
    rewrite Z.add_0_r. change (peek_char (set_flag d0 0)) with (peek_char d0) in *.
    split; assumption.
  - right. right. rewrite Hr, Heo. simpl.
    split; [exact Hf|]. split; [reflexivity|]. split; [reflexivity|].
    split; [reflexivity|]. split; [exact Hc|].
    destruct (skip_whitespace_fields d) as (_ & _ & _ & Hdep & _).
    fold d0 in Hdep. simpl in Hd. rewrite Hdep in Hd. split; [exact Hd|].
    rewrite <- (top_bit_skip_whitespace d). exact Ht.
Qed.

(** ** The substitution brace *)

(** On a byte that is no whitespace the skipper does nothing. *)
Lemma skip_whitespace_id (d : tokendef) :
  0 <= curr d -> isspace (buf_at d (curr d)) = false ->
  skip_whitespace d = d.
Proof.
  intros Hc Hs.
  pose proof (skip_whitespace_stops_before d (curr d)
                (conj Hc (Z.le_refl _)) Hs) as Hle.
  pose proof (skip_whitespace_curr_mono d) as Hge.
  destruct (skip_whitespace_spec d Hc) as (_ & _ & _ & Hline).
  assert (Hcur : curr (skip_whitespace d) = curr d) by lia.
  rewrite Hcur, Z.sub_diag in Hline. change (Z.to_nat 0) with O in Hline.
  assert (Hz : forall m, count_newlines m O = 0) by (intros [|]; reflexivity).
  rewrite Hz, Z.add_0_r in Hline.
  destruct (skip_whitespace_fields d) as (F1 & F2 & F3 & F4 & F5).
  destruct (skip_whitespace d), d. simpl in *. congruence.
Qed.

Lemma standing_buf_at (d : tokendef) :
  standing d <> 0 -> buf_at d (curr d) = standing d.
Proof.
  unfold standing, peek_char. rewrite Z.add_0_r.
  destruct (curr d <? len d); [reflexivity | contradiction].
Qed.

(** X9: with pending-substitution-open armed and the cursor on the dollar
    of dollar-brace, the call emits T_BRACE of length 2 at the cursor,
    clears the flag and pushes an entry whose bit is 1 on top of the
    untouched entries, so that the closing brace at this depth will find
    it. *)
Theorem substitution_brace_pushes_template_bit {C : Type}
    (d : tokendef) (out : token) (tv : tokenvalue C) :
  pending d -> standing d = ch "$" -> 0 <= curr d ->
  0 <= depth d < STACK_SIZE -> List.length (stack d) = 8%nat ->
  let r := prsr_next_token d out tv in
  n_ret r = 0
  /\ n_out r = mk_token (curr d) 2 TOKEN_T_BRACE (line_no d) false
  /\ curr (n_d r) = curr d + 2
  /\ flag (n_d r) = 0
  /\ depth (n_d r) = depth d + 1
  /\ top_bit (n_d r) = true
  /\ (forall j, 0 <= j < depth d ->
                bit_at (stack (n_d r)) j = bit_at (stack d) j)
  /\ n_tv r = tv.
Proof.
  intros Hp Hst Hc Hd Hlen r.
  assert (Hnz : standing d <> 0) by (rewrite Hst; discriminate).
  assert (Hid : skip_whitespace d = d).
  { apply skip_whitespace_id; [exact Hc|].
    rewrite (standing_buf_at d Hnz), Hst. reflexivity. }
  destruct (stack_inc_bits (set_flag d 0) true Hd Hlen)
    as (Heq & Hnew & Hold & _).
  unfold r, prsr_next_token. rewrite Hid.
  rewrite (eat_token_pending d tv Hp Hnz).
  destruct (stack_inc (set_flag d 0) true) as [ri di].
  cbn [fst snd] in *. injection Heq as Hri Hdi. subst ri.
  assert (Fc : curr di = curr d) by (rewrite Hdi; reflexivity).
  assert (Ff : flag di = 0) by (rewrite Hdi; reflexivity).
  assert (Fd : depth di = depth d + 1) by (rewrite Hdi; reflexivity).
  cbn [e_ret e_out e_d e_tv CONSUME eo_type eo_len Z.ltb Z.compare
       token_type_eqb n_ret n_out n_d n_tv set_curr
       curr flag depth stack line_no t_line_no].
  rewrite Fc, Ff, Fd.
  split; [reflexivity|]. split; [reflexivity|]. split; [reflexivity|].
  split; [reflexivity|]. split; [reflexivity|].
  split; [|split; [|reflexivity]].
  - unfold top_bit, set_curr. cbn [depth stack]. rewrite Fd.
    replace (depth d + 1 - 1) with (depth d) by lia. exact Hnew.
  - intros j Hj. apply Hold; cbn [depth set_flag]; lia.
Qed.

Lemma substitution_brace_pushes_template_bit_witness :
  let d := n_d (reached "(`a${x}`)" 0 2) in
  let r := prsr_next_token d slot0 (answering 0) in
  pending d /\ standing d = ch "$" /\ 0 <= curr d
  /\ 0 <= depth d < STACK_SIZE /\ List.length (stack d) = 8%nat
  /\ n_out r = mk_token 3 2 TOKEN_T_BRACE 1 false
  /\ depth (n_d r) = 2 /\ top_bit (n_d r) = true.
Proof.
  intros d r.
  assert (H1 : pending d) by (vm_compute; discriminate).
  assert (H2 : standing d = ch "$") by (vm_compute; reflexivity).
  assert (H3 : 0 <= curr d) by (vm_compute; discriminate).
  assert (H4 : 0 <= depth d < STACK_SIZE)
    by (split; [vm_compute; discriminate | vm_compute; reflexivity]).
  assert (H5 : List.length (stack d) = 8%nat) by (vm_compute; reflexivity).
  pose proof (substitution_brace_pushes_template_bit d slot0 (answering 0)
                H1 H2 H3 H4 H5) as (_ & _ & _ & _ & _ & Ht & _).
  split; [exact H1|]. split; [exact H2|]. split; [exact H3|].
  split; [exact H4|]. split; [exact H5|].
  split; [vm_compute; reflexivity|].
  split; [vm_compute; reflexivity | exact Ht].
Defined.

(** ** Line comments *)

(** When [strstr] finds no newline, there is none in front of the
    terminator. *)
Lemma strstr_newline_none (hay : list Z) :
  strstr hay [NL] = None ->
  forall j, (forall i, (i <= j)%nat -> nth i hay 0 <> 0) -> nth j hay 0 <> NL.
Proof.
  induction hay as [|c hay IH]; intros H j Hnz.
  - destruct j; simpl; unfold NL; discriminate.
  - change (strstr (c :: hay) [NL])
      with (if (NL =? c) && true then Some 0
            else if c =? 0 then None
                 else option_map Z.succ (strstr hay [NL])) in H.
    destruct (Z.eqb_spec NL c) as [E|E]; [discriminate H|].
    cbn [andb] in H.
    destruct (Z.eqb_spec c 0) as [E0|E0].
    + exfalso. apply (Hnz O); [lia | exact E0].
    + destruct (strstr hay [NL]) eqn:Es; [discriminate|].
      destruct j as [|j]; simpl; [congruence|].
      apply IH; [reflexivity|].
      intros i Hi. apply (Hnz (S i)). lia.
Qed.

Lemma starts_with_newline (l : list Z) :
  starts_with [NL] l = (nth 0 l 0 =? NL).
Proof.
  destruct l as [|x l]; [reflexivity|].
  cbn [starts_with nth]. rewrite andb_true_r. apply Z.eqb_sym.
Qed.

Lemma dispatch_line_comment {C : Type} (d : tokendef) (tv : tokenvalue C) :
  peek_char d 1 = ch "/" ->
  dispatch d tv (ch "/")
  = mk_eaten 0
      (CONSUME (match strstr (mem_from d (curr d + 2)) [NL] with
                | Some at_ => at_ + 2
                | None => len d - curr d
                end) TOKEN_COMMENT) d tv.
Proof.
  intros Hn. unfold dispatch. rewrite Hn. unfold eat_comment.
  change (negb (ch "/" =? ch "/")) with false.
  change ((ch "/" =? ch "/") || (ch "/" =? ch "*")) with true.
  change (ch "/" =? ch "/") with true. cbv iota.
  destruct (strstr (mem_from d (curr d + 2)) [NL]); reflexivity.
Qed.

(** X10: a line comment is a COMMENT token that ends right in front of the
    first newline behind its two slashes, which stays out of the token, so
    that [line_no] is not touched; when there is no newline in front of
    the terminator the token runs to the end of the buffer. *)
Theorem line_comment_stops_before_newline {C : Type}
    (d : tokendef) (tv : tokenvalue C) :
  plain d -> standing d = ch "/" -> following d = ch "/" ->
  let search := mem_from d (curr d + 2) in
  match strstr search [NL] with
  | Some at_ =>
      eat_token d tv
      = mk_eaten 0 (CONSUME (2 + at_) TOKEN_COMMENT) (set_flag d 0) tv
      /\ 0 <= at_
      /\ nth (Z.to_nat at_) search 0 = NL
      /\ (forall j, (j < Z.to_nat at_)%nat ->
                    nth j search 0 <> NL /\ nth j search 0 <> 0)
  | None =>
      eat_token d tv
      = mk_eaten 0 (CONSUME (len d - curr d) TOKEN_COMMENT) (set_flag d 0) tv
      /\ (forall j, (forall i, (i <= j)%nat -> nth i search 0 <> 0) ->
                    nth j search 0 <> NL)
  end.
Proof.
  intros Hp Hc Hn search.
  assert (He : eat_token d tv = dispatch (set_flag d 0) tv (ch "/")).
  { rewrite eat_token_plain; [rewrite Hc; reflexivity | exact Hp
                              | rewrite Hc; discriminate]. }
  rewrite He, (dispatch_line_comment (set_flag d 0) tv Hn).
  change (mem_from (set_flag d 0) (curr (set_flag d 0) + 2)) with search.
  destruct (strstr search [NL]) as [at_|] eqn:Es.
  - destruct (strstr_spec _ _ _ Es) as (Hk & Hfound & Hfirst).
    split; [rewrite (Z.add_comm 2 at_); reflexivity|].
    split; [exact Hk|]. split.
    + rewrite starts_with_newline, nth_skipn_shift, Nat.add_0_r in Hfound.
      apply Z.eqb_eq in Hfound. exact Hfound.
    + intros j Hj. destruct (Hfirst j Hj) as (Hno & Hnz).
      split; [|exact Hnz].
      rewrite starts_with_newline, nth_skipn_shift, Nat.add_0_r in Hno.
      apply Z.eqb_neq in Hno. exact Hno.
  - split; [reflexivity|]. apply strstr_newline_none. exact Es.
Qed.

Lemma line_comment_stops_before_newline_witness :
  let d := prsr_init_token (cstr ("// note" ++ LF ++ "x")%string) in
  plain d /\ standing d = ch "/" /\ following d = ch "/"
  /\ eat_token d (answering 0)
     = mk_eaten 0 (CONSUME 7 TOKEN_COMMENT) (set_flag d 0) (answering 0).
Proof.
  intros d.
  assert (H1 : plain d) by (split; reflexivity).
  assert (H2 : standing d = ch "/") by (vm_compute; reflexivity).
  assert (H3 : following d = ch "/") by (vm_compute; reflexivity).
  pose proof (line_comment_stops_before_newline d (answering 0) H1 H2 H3) as H.
  cbv zeta in H.
  assert (Es : strstr (mem_from d (curr d + 2)) [NL] = Some 5)
    by (vm_compute; reflexivity).
  rewrite Es in H. destruct H as (He & _).
  split; [exact H1|]. split; [exact H2|]. split; [exact H3|]. exact He.
Defined.

(** ** Numbers *)

(** Bytes of words, numbers and dots pass the comments, the [switch] and
    the operators untouched. *)
Lemma dispatch_falls_to_rest {C : Type} (d : tokendef) (tv : tokenvalue C)
    (c : Z) :
  c < 0 \/ 48 <= c <= 57 \/ 65 <= c <= 90 \/ 97 <= c <= 122
  \/ c = 46 \/ c = 36 \/ c = 95 ->
  dispatch d tv c = eaten_of (eat_rest d c (peek_char d 1)) tv.
Proof.
  intros Hrange.
  unfold dispatch, eat_comment, eat_punct, eat_op, eat_op_body, op_allowed,
    strchr.
  cbn [cstr bytes app existsb].
  repeat match goal with
         | |- context [c =? ?k] =>
             let v := eval vm_compute in k in
             replace (c =? k) with false
               by (symmetry; apply Z.eqb_neq; change k with v; lia)
         end.
  reflexivity.
Qed.


Lemma isalpha_range (c : Z) :
  isalpha c = true -> 65 <= c <= 90 \/ 97 <= c <= 122.
Proof.
  unfold isalpha. intros H. apply orb_prop in H.
  destruct H as [H|H]; apply andb_prop in H; lia.
Qed.





(** ** Identifiers without escapes *)

Lemma lit_start_range (c : Z) :
  lit_start c = true ->
  c < 0 \/ 65 <= c <= 90 \/ 97 <= c <= 122 \/ c = 36 \/ c = 95.
Proof.
  unfold lit_start. intros H.
  apply orb_prop in H. destruct H as [H|H]; [|apply Z.ltb_lt in H; lia].
  apply orb_prop in H. destruct H as [H|H];
    [|apply Z.eqb_eq in H; rewrite H; right; right; right; right; reflexivity].
  apply orb_prop in H. destruct H as [H|H];
    [apply isalpha_range in H; lia|].
  apply Z.eqb_eq in H. rewrite H. right; right; right; left; reflexivity.
Qed.

Lemma eat_rest_lit (d : tokendef) (c next : Z) :
  lit_start c = true -> eat_rest d c next = eat_lit d c.
Proof.
  intros H. apply lit_start_range in H.
  unfold eat_rest, eat_string, eat_number, eat_dot, eat_regexp, isnum,
    isdigit.
  replace (c =? SQUOTE) with false
    by (symmetry; apply Z.eqb_neq; unfold SQUOTE; lia).
  replace (c =? DQUOTE) with false
    by (symmetry; apply Z.eqb_neq; unfold DQUOTE; lia).
  replace (c =? ch "`") with false
    by (symmetry; apply Z.eqb_neq; change (ch "`") with 96; lia).
  replace (c =? ch ".") with false
    by (symmetry; apply Z.eqb_neq; change (ch ".") with 46; lia).
  replace (c =? ch "/") with false
    by (symmetry; apply Z.eqb_neq; change (ch "/") with 47; lia).
  replace ((48 <=? c) && (c <=? 57)) with false; [reflexivity|].
  symmetry. apply andb_false_iff.
  destruct (Z.leb_spec 48 c); [right; apply Z.leb_gt; lia | left; reflexivity].
Qed.

Lemma lit_byte_not_special (c : Z) :
  lit_byte c = true -> c <> 0 /\ c <> BACKSLASH.
Proof.
  intros H. split; intros E; rewrite E in H; discriminate.
Qed.

Lemma lit_loop_run (fuel : nat) :
  forall d l k,
    1 <= l <= k ->
    (forall j, l <= j < k -> lit_byte (peek_char d j) = true) ->
    lit_byte (peek_char d k) = false -> peek_char d k <> BACKSLASH ->
    k - l < Z.of_nat fuel ->
    lit_loop fuel d l (peek_char d l) = k.
Proof.
  induction fuel as [|fuel IH]; intros d l k Hl Hrun Hstop Hnb Hf; [lia|].
  rewrite lit_loop_S. cbv zeta.
  assert (Hlk : l = k \/ l < k) by lia.
  replace (negb (l =? 0)) with true
    by (symmetry; apply negb_true_iff, Z.eqb_neq; lia).
  fold (lit_byte (peek_char d l)).
  destruct Hlk as [Hlk|Hlk].
  - subst l.
    replace (peek_char d k =? BACKSLASH) with false
      by (symmetry; apply Z.eqb_neq; exact Hnb).
    rewrite Hstop. reflexivity.
  - pose proof (Hrun l (conj (Z.le_refl l) Hlk)) as Hv.
    destruct (lit_byte_not_special _ Hv) as (_ & Hnb').
    replace (peek_char d l =? BACKSLASH) with false
      by (symmetry; apply Z.eqb_neq; exact Hnb').
    rewrite Hv. simpl negb. cbv iota.
    destruct (Z.eqb_spec (peek_char d (l + 1)) 0) as [E0|E0].
    + destruct (Z.eq_dec (l + 1) k) as [E|E]; [exact E|].
      assert (Hv' : lit_byte (peek_char d (l + 1)) = true)
        by (apply Hrun; lia).
      rewrite E0 in Hv'. discriminate.
    + apply IH; [lia | intros j Hj; apply Hrun; lia | exact Hstop
                 | exact Hnb | lia].
Qed.

Lemma lit_loop_first (d : tokendef) :
  lit_start (standing d) = true ->
  lit_loop (fuel_of d) d 0 (standing d)
  = if peek_char d 1 =? 0 then 1
    else lit_loop (S (Z.to_nat (len d - curr d))) d 1 (peek_char d 1).
Proof.
  intros Hc. pose proof (lit_start_range _ Hc) as Hr.
  unfold fuel_of. rewrite lit_loop_S. cbv zeta.
  replace (standing d =? BACKSLASH) with false
    by (symmetry; apply Z.eqb_neq; unfold BACKSLASH; lia).
  change (negb (0 =? 0)) with false. cbv iota.
  fold (lit_start (standing d)). rewrite Hc. simpl negb. cbv iota.
  reflexivity.
Qed.

(** The literal loop takes at least the whole run of literal bytes. *)
Lemma lit_loop_covers (fuel : nat) :
  forall d l k,
    1 <= l <= k ->
    (forall j, l <= j < k -> lit_byte (peek_char d j) = true) ->
    curr d + k <= len d + 1 ->
    k - l < Z.of_nat fuel ->
    k <= lit_loop fuel d l (peek_char d l).
Proof.
  induction fuel as [|fuel IH]; intros d l k Hl Hrun Hin Hf; [lia|].
  destruct (Z.eq_dec l k) as [E|E].
  - subst l. apply lit_loop_extent; [|exact Hin].
    destruct (Z.eq_dec (peek_char d k) 0) as [E0|E0];
      [left; exact E0 | right; right; split; [reflexivity | exact E0]].
  - rewrite lit_loop_S. cbv zeta.
    replace (negb (l =? 0)) with true
      by (symmetry; apply negb_true_iff, Z.eqb_neq; lia).
    fold (lit_byte (peek_char d l)).
    pose proof (Hrun l ltac:(lia)) as Hv.
    destruct (lit_byte_not_special _ Hv) as (_ & Hnb).
    replace (peek_char d l =? BACKSLASH) with false
      by (symmetry; apply Z.eqb_neq; exact Hnb).
    rewrite Hv. simpl negb. cbv iota.
    destruct (Z.eqb_spec (peek_char d (l + 1)) 0) as [E0|E0].
    + destruct (Z.eq_dec (l + 1) k) as [E1|E1]; [lia|].
      assert (Hv' : lit_byte (peek_char d (l + 1)) = true)
        by (apply Hrun; lia).
      rewrite E0 in Hv'. discriminate.
    + apply IH; [lia | intros j Hj; apply Hrun; lia | exact Hin | lia].
Qed.

(** X12: on a letter, dollar sign, underscore or high-bit byte the scanner
    always emits a LIT token of at least one byte, whatever follows, and
    the token takes in at least the whole run of letters, digits, dollar
    signs, underscores and high-bit bytes from there; when the byte that
    ends the run is not a backslash, the token is exactly that run and ends
    inside the buffer. *)
Theorem identifier_is_longest_run {C : Type}
    (d : tokendef) (tv : tokenvalue C) :
  plain d -> lit_start (standing d) = true ->
  exists l,
    eat_token d tv = mk_eaten 0 (CONSUME l TOKEN_LIT) (set_flag d 0) tv
    /\ 1 <= l
    /\ (forall k, 1 <= k ->
          (forall j, 1 <= j < k -> lit_byte (peek_char d j) = true) ->
          k <= l
          /\ (lit_byte (peek_char d k) = false ->
              peek_char d k <> BACKSLASH ->
              l = k /\ curr d + k <= len d)).
Proof.
  intros Hp Hc.
  pose proof (lit_start_range _ Hc) as Hr.
  assert (Hnz : standing d <> 0) by lia.
  pose proof (peek_char_inside _ _ Hnz) as Hin.
  pose proof (lit_loop_first (set_flag d 0) Hc) as Hfirst.
  change (peek_char (set_flag d 0)) with (peek_char d) in Hfirst.
  change (standing (set_flag d 0)) with (standing d) in Hfirst.
  cbn [len curr set_flag] in Hfirst.
  assert (Hend : forall k, 1 <= k ->
            (forall j, 1 <= j < k -> lit_byte (peek_char d j) = true) ->
            curr d + k <= len d).
  { intros k Hk Hrun. destruct (Z.eq_dec k 1) as [E|E]; [lia|].
    assert (Hv : lit_byte (peek_char d (k - 1)) = true) by (apply Hrun; lia).
    apply lit_byte_not_special in Hv. destruct Hv as (Hv & _).
    apply peek_char_inside in Hv. lia. }
  exists (lit_loop (fuel_of (set_flag d 0)) (set_flag d 0) 0 (standing d)).
  assert (Hone : 1 <= lit_loop (fuel_of (set_flag d 0)) (set_flag d 0) 0
                        (standing d)).
  { rewrite Hfirst.
    destruct (Z.eqb_spec (peek_char d 1) 0) as [E0|E0]; [lia|].
    apply (lit_loop_extent _ (set_flag d 0) 1 (peek_char d 1));
      [right; right; split; [reflexivity | exact E0] | simpl; lia]. }
  split; [|split; [exact Hone|]].
  - rewrite (eat_token_plain d tv Hp Hnz).
    rewrite dispatch_falls_to_rest by lia.
    rewrite (eat_rest_lit _ _ _ Hc). unfold eat_lit.
    replace (negb (lit_loop (fuel_of (set_flag d 0)) (set_flag d 0) 0
                     (standing d) =? 0)) with true
      by (symmetry; apply negb_true_iff, Z.eqb_neq; lia).
    reflexivity.
  - intros k Hk Hrun. pose proof (Hend k Hk Hrun) as Hink.
    rewrite Hfirst. split.
    + destruct (Z.eqb_spec (peek_char d 1) 0) as [E0|E0].
      * destruct (Z.eq_dec k 1) as [E|E]; [lia|].
        assert (Hv : lit_byte (peek_char d 1) = true) by (apply Hrun; lia).
        rewrite E0 in Hv. discriminate.
      * apply (lit_loop_covers _ (set_flag d 0) 1 k);
          [lia | exact Hrun | simpl; lia | lia].
    + intros Hstop Hnb. split; [|exact Hink].
      destruct (Z.eqb_spec (peek_char d 1) 0) as [E0|E0].
      * destruct (Z.eq_dec 1 k) as [E|E]; [exact E|].
        assert (Hv : lit_byte (peek_char d 1) = true) by (apply Hrun; lia).
        rewrite E0 in Hv. discriminate.
      * apply (lit_loop_run _ (set_flag d 0) 1 k);
          [lia | exact Hrun | exact Hstop | exact Hnb | lia].
Qed.

Lemma identifier_is_longest_run_witness :
  let d := prsr_init_token (cstr "$a_1:") in
  plain d /\ lit_start (standing d) = true
  /\ lit_byte (peek_char d 4) = false
  /\ eat_token d (answering 0)
     = mk_eaten 0 (CONSUME 4 TOKEN_LIT) (set_flag d 0) (answering 0)
  /\ curr d + 4 <= len d.
Proof.
  intros d.
  assert (H1 : plain d) by (split; reflexivity).
  assert (H2 : lit_start (standing d) = true) by (vm_compute; reflexivity).
  assert (H3 : forall j, 1 <= j < 4 -> lit_byte (peek_char d j) = true).
  { intros j Hj.
    assert (Hc : j = 1 \/ j = 2 \/ j = 3) by lia.
    destruct Hc as [E|[E|E]]; subst j; vm_compute; reflexivity. }
  assert (H4 : lit_byte (peek_char d 4) = false) by (vm_compute; reflexivity).
  assert (H5 : peek_char d 4 <> BACKSLASH) by (vm_compute; discriminate).
  assert (H6 : 1 <= 4) by lia.
  destruct (identifier_is_longest_run d (answering 0) H1 H2)
    as (l & Heat & _ & Hrun).
  destruct (Hrun 4 H6 H3) as (_ & Hexact).
  destruct (Hexact H4 H5) as (El & Hin).
  rewrite El in Heat.
  split; [exact H1|]. split; [exact H2|]. split; [exact H4|].
  split; [exact Heat | exact Hin].
Defined.

(** ** Strings without escapes *)

Lemma skipn_cons_nth (n : nat) :
  forall l : list Z, nth n l 0 <> 0 -> skipn n l = nth n l 0 :: skipn (S n) l.
Proof.
  induction n as [|n IH]; intros [|x l] H; simpl in *;
    try contradiction; try reflexivity.
  apply IH. exact H.
Qed.

Lemma mem_from_cons (d : tokendef) (j : Z) :
  peek_char d j <> 0 ->
  mem_from d (curr d + j) = peek_char d j :: mem_from d (curr d + (j + 1)).
Proof.
  intros H. unfold peek_char in *. cbv zeta in *.
  destruct (curr d + j <? len d); [|contradiction].
  unfold buf_at in *.
  destruct (curr d + j <? 0) eqn:E0; [contradiction|].
  apply Z.ltb_ge in E0. unfold mem_from.
  replace (Z.to_nat (curr d + (j + 1))) with (S (Z.to_nat (curr d + j)))
    by lia.
  apply skipn_cons_nth. exact H.
Qed.

Lemma newlines_within_step (d : tokendef) (a b : Z) :
  a < b -> peek_char d a <> 0 ->
  newlines_within d a b
  = (if peek_char d a =? NL then 1 else 0) + newlines_within d (a + 1) b.
Proof.
  intros Hab Hnz. unfold newlines_within.
  rewrite (mem_from_cons d a Hnz).
  replace (Z.to_nat (b - a)) with (S (Z.to_nat (b - (a + 1)))) by lia.
  reflexivity.
Qed.

Lemma newlines_within_empty (d : tokendef) (a : Z) :
  newlines_within d a a = 0.
Proof.
  unfold newlines_within. rewrite Z.sub_diag.
  change (Z.to_nat 0) with O. destruct (mem_from d (curr d + a)); reflexivity.
Qed.

Lemma newlines_within_bump (d : tokendef) (c a b : Z) :
  newlines_within (bump_newline d c) a b = newlines_within d a b.
Proof. unfold bump_newline. destruct (c =? NL); reflexivity. Qed.

Lemma set_line_no_bump (d : tokendef) (c n : Z) :
  set_line_no (bump_newline d c) (line_no (bump_newline d c) + n)
  = set_line_no d (line_no d + ((if c =? NL then 1 else 0) + n)).
Proof.
  unfold bump_newline. destruct (c =? NL); destruct d; unfold set_line_no;
    cbn [line_no buf curr len flag depth stack]; f_equal; lia.
Qed.

Lemma set_line_no_same (d : tokendef) :
  set_line_no d (line_no d + 0) = d.
Proof.
  destruct d; unfold set_line_no; cbn [line_no buf curr len flag depth stack];
    f_equal; lia.
Qed.

Lemma string_loop_run (fuel : nat) :
  forall d q l k,
    l < k ->
    (forall j, l < j < k -> string_byte d q j) ->
    peek_char d k = 0 \/ peek_char d k = q
    \/ (q = ch "`" /\ peek_char d k = ch "$"
        /\ peek_char d (k + 1) = ch "{") ->
    k - l <= Z.of_nat fuel ->
    string_loop fuel d q l
    = string_end d q k
        (set_line_no d (line_no d + newlines_within d (l + 1) k)).
Proof.
  induction fuel as [|fuel IH]; intros d q l k Hlk Hrun Hstop Hf; [lia|].
  cbn [string_loop]. cbv zeta.
  destruct (Z.eq_dec (l + 1) k) as [E|E].
  - rewrite E, newlines_within_empty, set_line_no_same.
    unfold string_end.
    destruct (peek_char d k =? 0) eqn:E0; [reflexivity|].
    destruct (peek_char d k =? q) eqn:Eq; [reflexivity|].
    apply Z.eqb_neq in E0, Eq.
    destruct Hstop as [H|[H|(Hq & Hd & Hb)]]; try contradiction.
    rewrite Hq, Hd, Hb. reflexivity.
  - assert (Hb : string_byte d q (l + 1)) by (apply Hrun; lia).
    destruct Hb as (H0 & Hq & Hbs & Hsub).
    replace (peek_char d (l + 1) =? 0) with false
      by (symmetry; apply Z.eqb_neq; exact H0).
    replace (peek_char d (l + 1) =? q) with false
      by (symmetry; apply Z.eqb_neq; exact Hq).
    replace (peek_char d (l + 1) =? BACKSLASH) with false
      by (symmetry; apply Z.eqb_neq; exact Hbs).
    replace ((q =? ch "`") && (peek_char d (l + 1) =? ch "$")
             && (peek_char d (l + 1 + 1) =? ch "{")) with false.
    2:{ symmetry. apply not_true_is_false. intros Ht.
        apply andb_prop in Ht. destruct Ht as [Ht H3].
        apply andb_prop in Ht. destruct Ht as [H1 H2].
        apply Z.eqb_eq in H1, H2, H3. apply Hsub. auto. }
    rewrite (IH (bump_newline d (peek_char d (l + 1))) q (l + 1) k).
    + unfold string_end. rewrite !peek_char_bump_newline.
      rewrite newlines_within_bump, set_line_no_bump.
      rewrite <- (newlines_within_step d (l + 1) k) by (lia || exact H0).
      reflexivity.
    + lia.
    + intros j Hj. unfold string_byte. rewrite !peek_char_bump_newline.
      apply Hrun. lia.
    + rewrite !peek_char_bump_newline. exact Hstop.
    + lia.
Qed.

Lemma dispatch_quote {C : Type} (d : tokendef) (tv : tokenvalue C) (q : Z) :
  q = SQUOTE \/ q = DQUOTE \/ q = ch "`" ->
  dispatch d tv q = eaten_of (scan_string d q 0) tv.
Proof.
  intros [E|[E|E]]; subst q; reflexivity.
Qed.

Lemma string_run_inside (d : tokendef) (q l k : Z) :
  l < k -> (forall j, l < j < k -> string_byte d q j) ->
  l + 1 < k -> curr d + k <= len d.
Proof.
  intros Hlk Hrun Hk.
  assert (Hb : string_byte d q (k - 1)) by (apply Hrun; lia).
  destruct Hb as (H0 & _). apply peek_char_inside in H0. lia.
Qed.

Lemma scan_string_run (d : tokendef) (q l k : Z) :
  -1 <= l < k ->
  (forall j, l < j < k -> string_byte d q j) ->
  peek_char d k = 0 \/ peek_char d k = q
  \/ (q = ch "`" /\ peek_char d k = ch "$"
      /\ peek_char d (k + 1) = ch "{") ->
  scan_string (set_flag d 0) q l
  = (let '(n, d') :=
       string_end d q k (after_string d (newlines_within d (l + 1) k)) in
     (0, CONSUME n TOKEN_STRING, d')).
Proof.
  intros Hl Hrun Hstop. unfold scan_string.
  rewrite (string_loop_run _ (set_flag d 0) q l k).
  - reflexivity.
  - lia.
  - exact Hrun.
  - exact Hstop.
  - unfold fuel_of. cbn [len curr set_flag].
    destruct (Z.eq_dec (l + 1) k) as [E|E]; [lia|].
    assert (curr d + k <= len d)
      by (apply (string_run_inside d q l k); [lia | exact Hrun | lia]).
    lia.
Qed.

Lemma quote_not_special (q : Z) :
  q = SQUOTE \/ q = DQUOTE \/ q = ch "`" ->
  q <> 0 /\ q <> ch "$".
Proof. intros [E|[E|E]]; subst q; split; discriminate. Qed.

(** X13: a quote at the cursor always opens a STRING token of at least one
    byte, whatever follows.  When the bytes behind the quote up to offset k
    are ordinary string bytes (no closing quote, no backslash, no
    terminator and, in a template literal, no substitution), the token ends
    behind the closing quote met at k (length k + 1, both quotes included,
    inside the buffer), or in front of the terminator met at k (length k,
    no error), or, in a template literal, in front of the substitution met
    at k (length k, pending-substitution-open armed); in each case the line
    number grows by the newlines among the bytes stepped over, a quoted
    string being allowed to span lines. *)
Theorem quoted_string_token {C : Type}
    (d : tokendef) (tv : tokenvalue C) (q : Z) :
  plain d -> standing d = q ->
  q = SQUOTE \/ q = DQUOTE \/ q = ch "`" ->
  (exists l d',
      eat_token d tv = mk_eaten 0 (CONSUME l TOKEN_STRING) d' tv
      /\ 1 <= l)
  /\ (forall k, 1 <= k ->
        (forall j, 1 <= j < k -> string_byte d q j) ->
        let d' := after_string d (newlines_within d 1 k) in
        (peek_char d k = q ->
           eat_token d tv = mk_eaten 0 (CONSUME (k + 1) TOKEN_STRING) d' tv
           /\ curr d + (k + 1) <= len d)
        /\ (peek_char d k = 0 ->
              eat_token d tv = mk_eaten 0 (CONSUME k TOKEN_STRING) d' tv)
        /\ (q = ch "`" -> peek_char d k = ch "$" ->
            peek_char d (k + 1) = ch "{" ->
              eat_token d tv
              = mk_eaten 0 (CONSUME k TOKEN_STRING)
                  (set_flag d' FLAG__PENDING_T_BRACE) tv)).
Proof.
  intros Hp Hc Hq.
  destruct (quote_not_special q Hq) as (Hq0 & Hqd).
  assert (Hnz : standing d <> 0) by (rewrite Hc; exact Hq0).
  assert (Hdisp : eat_token d tv = eaten_of (scan_string (set_flag d 0) q 0) tv).
  { rewrite (eat_token_plain d tv Hp Hnz), Hc, (dispatch_quote _ _ _ Hq).
    reflexivity. }
  split.
  { rewrite Hdisp. unfold scan_string.
    destruct (string_loop (fuel_of (set_flag d 0)) (set_flag d 0) q 0)
      as [l d'] eqn:E.
    exists l, d'. split; [reflexivity|].
    apply string_loop_extent in E. lia. }
  intros k Hk Hrun d'.
  assert (Hrun' : forall j, 0 < j < k -> string_byte d q j)
    by (intros j Hj; apply Hrun; lia).
  assert (Hstart : forall stop,
    peek_char d k = 0 \/ peek_char d k = q
    \/ (q = ch "`" /\ peek_char d k = ch "$"
        /\ peek_char d (k + 1) = ch "{") ->
    stop = string_end d q k d' ->
    eat_token d tv
    = mk_eaten 0 (CONSUME (fst stop) TOKEN_STRING) (snd stop) tv).
  { intros stop Hstop Hs. rewrite Hdisp.
    rewrite (scan_string_run d q 0 k) by (lia || assumption).
    change (0 + 1) with 1. fold d'. rewrite <- Hs.
    destruct stop; reflexivity. }
  split; [|split].
  - intros Hend. split.
    + rewrite (Hstart (k + 1, d')); [reflexivity | auto |].
      unfold string_end. rewrite Hend.
      replace (q =? 0) with false by (symmetry; apply Z.eqb_neq; exact Hq0).
      rewrite Z.eqb_refl. reflexivity.
    + assert (Hin : peek_char d k <> 0) by (rewrite Hend; exact Hq0).
      apply peek_char_inside in Hin. lia.
  - intros Hend.
    rewrite (Hstart (k, d')); [reflexivity | auto |].
    unfold string_end. rewrite Hend. reflexivity.
  - intros Eq Hd Hb.
    rewrite (Hstart (k, set_flag d' FLAG__PENDING_T_BRACE));
      [reflexivity | auto |].
    unfold string_end. rewrite Hd, Eq. reflexivity.
Qed.

Lemma quoted_string_token_witness :
  let d := prsr_init_token (cstr ("`a" ++ LF ++ "b`;")%string) in
  plain d /\ standing d = ch "`" /\ peek_char d 4 = ch "`"
  /\ eat_token d (answering 0)
     = mk_eaten 0 (CONSUME 5 TOKEN_STRING) (after_string d 1) (answering 0)
  /\ curr d + 5 <= len d.
Proof.
  intros d.
  assert (H1 : plain d) by (split; reflexivity).
  assert (H2 : standing d = ch "`") by (vm_compute; reflexivity).
  assert (H3 : ch "`" = SQUOTE \/ ch "`" = DQUOTE \/ ch "`" = ch "`")
    by (right; right; reflexivity).
  assert (H4 : 1 <= 4) by lia.
  assert (H5 : forall j, 1 <= j < 4 -> string_byte d (ch "`") j).
  { intros j Hj.
    assert (Hc : j = 1 \/ j = 2 \/ j = 3) by lia.
    destruct Hc as [E|[E|E]]; subst j; vm_compute;
      (split; [discriminate|]); (split; [discriminate|]);
      (split; [discriminate|]); intros (_ & H & _); discriminate. }
  assert (H6 : peek_char d 4 = ch "`") by (vm_compute; reflexivity).
  assert (H7 : newlines_within d 1 4 = 1) by (vm_compute; reflexivity).
  pose proof (quoted_string_token d (answering 0) (ch "`") H1 H2 H3)
    as (_ & Hrun).
  pose proof (Hrun 4 H4 H5) as (Hclosed & _).
  cbv zeta in Hclosed. rewrite H7 in Hclosed.
  split; [exact H1|]. split; [exact H2|]. split; [exact H6|].
  exact (Hclosed H6).
Defined.

(** X14: with resume-template-literal armed, the call scans on from the
    byte at the cursor itself (no opening quote is skipped).  When the
    bytes from there up to offset k are ordinary template bytes, the STRING
    token ends behind the closing backtick met at k (length k + 1, flags
    clear), in front of the terminator met at k (length k), or in front of
    the next substitution met at k (length k, pending-substitution-open
    armed). *)
Theorem resumed_template_chunk {C : Type}
    (d : tokendef) (tv : tokenvalue C) (k : Z) :
  resuming d -> standing d <> 0 -> 0 <= k ->
  (forall j, 0 <= j < k -> string_byte d (ch "`") j) ->
  let d' := after_string d (newlines_within d 0 k) in
  (peek_char d k = ch "`" ->
     eat_token d tv = mk_eaten 0 (CONSUME (k + 1) TOKEN_STRING) d' tv
     /\ curr d + (k + 1) <= len d)
  /\ (peek_char d k = 0 ->
        eat_token d tv = mk_eaten 0 (CONSUME k TOKEN_STRING) d' tv)
  /\ (peek_char d k = ch "$" -> peek_char d (k + 1) = ch "{" ->
        eat_token d tv
        = mk_eaten 0 (CONSUME k TOKEN_STRING)
            (set_flag d' FLAG__PENDING_T_BRACE) tv).
Proof.
  intros Hr Hnz Hk Hrun d'.
  assert (Hrun' : forall j, -1 < j < k -> string_byte d (ch "`") j)
    by (intros j Hj; apply Hrun; lia).
  assert (Hstart : forall stop,
    peek_char d k = 0 \/ peek_char d k = ch "`"
    \/ (ch "`" = ch "`" /\ peek_char d k = ch "$"
        /\ peek_char d (k + 1) = ch "{") ->
    stop = string_end d (ch "`") k d' ->
    eat_token d tv
    = mk_eaten 0 (CONSUME (fst stop) TOKEN_STRING) (snd stop) tv).
  { intros stop Hstop Hs.
    rewrite (eat_token_resuming d tv Hr Hnz). unfold resume_lit.
    rewrite (scan_string_run d (ch "`") (-1) k) by (lia || assumption).
    change (-1 + 1) with 0. fold d'. rewrite <- Hs.
    destruct stop; reflexivity. }
  split; [|split].
  - intros Hend. split.
    + rewrite (Hstart (k + 1, d')); [reflexivity | auto |].
      unfold string_end. rewrite Hend. reflexivity.
    + assert (Hin : peek_char d k <> 0) by (rewrite Hend; discriminate).
      apply peek_char_inside in Hin. lia.
  - intros Hend.
    rewrite (Hstart (k, d')); [reflexivity | auto |].
    unfold string_end. rewrite Hend. reflexivity.
  - intros Hd Hb.
    rewrite (Hstart (k, set_flag d' FLAG__PENDING_T_BRACE));
      [reflexivity | auto |].
    unfold string_end. rewrite Hd. reflexivity.
Qed.

Lemma resumed_template_chunk_witness :
  let d := n_d (reached "`a${x}b${y}`" 0 4) in
  resuming d /\ standing d = ch "b"
  /\ peek_char d 1 = ch "$" /\ peek_char d 2 = ch "{"
  /\ eat_token d (answering 0)
     = mk_eaten 0 (CONSUME 1 TOKEN_STRING)
         (set_flag (after_string d 0) FLAG__PENDING_T_BRACE) (answering 0).
Proof.
  intros d.
  assert (H1 : resuming d)
    by (split; [vm_compute; reflexivity | vm_compute; discriminate]).
  assert (H2 : standing d = ch "b") by (vm_compute; reflexivity).
  assert (H3 : standing d <> 0) by (vm_compute; discriminate).
  assert (H4 : 0 <= 1) by lia.
  assert (H5 : forall j, 0 <= j < 1 -> string_byte d (ch "`") j).
  { intros j Hj. assert (E : j = 0) by lia. subst j. vm_compute.
    (split; [discriminate|]); (split; [discriminate|]);
      (split; [discriminate|]); intros (_ & H & _); discriminate. }
  assert (H6 : peek_char d 1 = ch "$") by (vm_compute; reflexivity).
  assert (H7 : peek_char d 2 = ch "{") by (vm_compute; reflexivity).
  assert (H8 : newlines_within d 0 1 = 0) by (vm_compute; reflexivity).
  pose proof (resumed_template_chunk d (answering 0) 1 H1 H3 H4 H5)
    as (_ & _ & Hsub).
  cbv zeta in Hsub. rewrite H8 in Hsub.
  split; [exact H1|]. split; [exact H2|]. split; [exact H6|].
  split; [exact H7|].
  exact (Hsub H6 H7).
Defined.

(** ** The lookahead behind a LIT *)

Lemma mem_from_head (d : tokendef) (i : Z) :
  0 <= i ->
  mem_from d i = []
  \/ exists rest, mem_from d i = buf_at d i :: rest
                  /\ mem_from d (i + 1) = rest.
Proof.
  intros Hi. rewrite (buf_at_nth d i Hi). unfold mem_from.
  replace (Z.to_nat (i + 1)) with (S (Z.to_nat i)) by lia.
  generalize (Z.to_nat i) as n. generalize (buf d) as l.
  intros l n. revert l.
  induction n as [|n IH]; intros [|x l]; simpl;
    [left; reflexivity | right; exists l; split; reflexivity
    | left; reflexivity | apply IH].
Qed.

Lemma mem_from_nil_buf_at (d : tokendef) (i : Z) :
  0 <= i -> mem_from d i = [] -> buf_at d i = 0.
Proof.
  intros Hi H. rewrite (buf_at_nth d i Hi).
  pose proof (nth_skipn_shift (Z.to_nat i) 0 (buf d)) as Hn.
  unfold mem_from in H. rewrite H, Nat.add_0_r in Hn. simpl in Hn.
  symmetry. exact Hn.
Qed.

Lemma skip_space_step (d : tokendef) (i : Z) :
  0 <= i -> isspace (buf_at d i) = true ->
  skip_space (mem_from d i) i = skip_space (mem_from d (i + 1)) (i + 1).
Proof.
  intros Hi Hs.
  destruct (mem_from_head d i Hi) as [H|(rest & H & Hr)].
  - rewrite (mem_from_nil_buf_at d i Hi H) in Hs. discriminate.
  - rewrite H, Hr. simpl. rewrite Hs. reflexivity.
Qed.

Lemma skip_space_stay (d : tokendef) (i : Z) :
  0 <= i -> isspace (buf_at d i) = false ->
  skip_space (mem_from d i) i = i.
Proof.
  intros Hi Hs.
  destruct (mem_from_head d i Hi) as [H|(rest & H & Hr)].
  - rewrite H. reflexivity.
  - rewrite H. simpl. rewrite Hs. reflexivity.
Qed.

Lemma starts_with_nonempty (needle hay : list Z) :
  needle <> [] -> starts_with needle hay = true -> hay <> [].
Proof.
  intros Hn Hs E. subst hay. destruct needle; [contradiction | discriminate].
Qed.

Lemma strstr_inside (d : tokendef) (i a : Z) (needle : list Z) :
  0 <= i -> needle <> [] ->
  strstr (mem_from d i) needle = Some a ->
  0 <= a /\ i + a < Z.of_nat (List.length (buf d)).
Proof.
  intros Hi Hn Hs.
  destruct (strstr_spec _ _ _ Hs) as (Ha & Hfound & _).
  split; [exact Ha|].
  apply (starts_with_nonempty _ _ Hn) in Hfound.
  destruct (Z.lt_ge_cases (i + a) (Z.of_nat (List.length (buf d))))
    as [H|H]; [exact H|].
  exfalso. apply Hfound. unfold mem_from. rewrite skipn_skipn.
  apply skipn_all2. lia.
Qed.

Lemma lookahead_loop_skipped (d : tokendef) (i j : Z) :
  skipped_to d i j -> lands d j ->
  forall n, 0 <= i -> (1 <= n)%nat ->
    Z.of_nat (List.length (buf d)) - i < Z.of_nat n ->
    lookahead_loop n d i = buf_at d j.
Proof.
  intros Hskip (Hns & Hnc).
  induction Hskip as [i | i j Hs Hskip IH | i a j Hc Hn Hf Hskip IH
                      | i a j Hc Hn Hf Hskip IH];
    intros n Hi Hn1 Hfuel; destruct n as [|n]; try lia;
    rewrite lookahead_loop_S; cbv zeta.
  - rewrite (skip_space_stay d i Hi Hns).
    destruct (buf_at d i =? ch "/") eqn:E; [|reflexivity].
    apply Z.eqb_eq in E. destruct (Hnc E) as (H1 & H2).
    apply Z.eqb_neq in H1, H2. rewrite H1, H2. reflexivity.
  - rewrite (skip_space_step d i Hi Hs).
    rewrite <- (IH Hns Hnc (S n)) by lia.
    rewrite lookahead_loop_S. reflexivity.
  - assert (Hsp : isspace (buf_at d i) = false) by (rewrite Hc; reflexivity).
    rewrite (skip_space_stay d i Hi Hsp), Hc, Hn.
    change (ch "/" =? ch "/") with true. cbn [negb orb]. rewrite Hf.
    assert (Hne : [NL] <> []) by discriminate.
    destruct (strstr_inside d (i + 2) a [NL] ltac:(lia) Hne Hf) as (Ha & Hb).
    apply (IH Hns Hnc); lia.
  - assert (Hsp : isspace (buf_at d i) = false) by (rewrite Hc; reflexivity).
    rewrite (skip_space_stay d i Hi Hsp), Hc, Hn.
    change (ch "/" =? ch "/") with true.
    change (ch "*" =? ch "/") with false.
    change (ch "*" =? ch "*") with true. cbn [negb orb].
    change [ch "*"; ch "/"] with COMMENT_END. rewrite Hf.
    assert (Hne : COMMENT_END <> []) by discriminate.
    destruct (strstr_inside d (i + 2) a COMMENT_END ltac:(lia) Hne Hf)
      as (Ha & Hb).
    replace (i + 2 + a + 1 + 1) with (i + 2 + a + 2) by lia.
    apply (IH Hns Hnc); lia.
Qed.

Lemma lookahead_char_skipped (d : tokendef) (j : Z) :
  Z.land (flag d) FLAG__RESUME_LIT = 0 -> 0 <= curr d ->
  skipped_to d (curr d) j -> lands d j ->
  lookahead_char d = buf_at d j.
Proof.
  intros Hf Hc Hskip Hl. unfold lookahead_char. rewrite Hf.
  change (negb (0 =? 0)) with false. cbv iota.
  apply (lookahead_loop_skipped d _ j Hskip Hl); lia.
Qed.

Lemma lit_next_colon_call {C : Type} (d : tokendef) (out : token)
    (tv : tokenvalue C) :
  emitted d tv = true ->
  let r := prsr_next_token d out tv in
  lit_next_colon (n_out r)
  = (if token_type_eqb (t_type (n_out r)) TOKEN_LIT
     then lookahead_char (n_d r) =? ch ":" else false).
Proof.
  intros Hem r. unfold emitted in Hem. cbv zeta in Hem.
  apply andb_prop in Hem. destruct Hem as [Hge Hty]. apply Z.leb_le in Hge.
  unfold r, prsr_next_token.
  destruct (e_ret (eat_token (skip_whitespace d) tv) <? 0) eqn:E;
    [apply Z.ltb_lt in E; lia|].
  destruct (eo_type (e_out (eat_token (skip_whitespace d) tv))) as [ty|];
    [|discriminate].
  reflexivity.
Qed.

(** X15: the label lookahead.  Only a LIT token can have lit_next_colon
    set.  Behind a LIT the lookahead never takes its resume-template-literal
    exit; it passes whitespace and whole comments, and when these lead to a
    byte that is neither whitespace nor the start of a comment,
    lit_next_colon tells whether that byte is a colon. *)
Theorem label_lookahead_skips_gap {C : Type}
    (d : tokendef) (out : token) (tv : tokenvalue C) (j : Z) :
  let r := prsr_next_token d out tv in
  0 <= curr d -> emitted d tv = true ->
  (t_type (n_out r) <> TOKEN_LIT -> lit_next_colon (n_out r) = false)
  /\ (t_type (n_out r) = TOKEN_LIT ->
      flag (n_d r) = 0
      /\ (skipped_to (n_d r) (curr (n_d r)) j -> lands (n_d r) j ->
          lit_next_colon (n_out r) = (buf_at (n_d r) j =? ch ":"))).
Proof.
  intros r Hc Hem.
  pose proof (lit_next_colon_call d out tv Hem) as Hcolon.
  cbv zeta in Hcolon. fold r in Hcolon.
  destruct (emitted_call d out tv Hem) as (Hge & Hty & _ & Hp & Hl & _ & Hd).
  fold r in Hty, Hp, Hl, Hd.
  split.
  - intros Hne. rewrite Hcolon.
    destruct (t_type (n_out r)); try reflexivity. contradiction.
  - intros Hlit. rewrite Hlit in Hcolon, Hty. simpl in Hcolon.
    assert (Hflag : flag (n_d r) = 0).
    { pose proof (eat_token_flag (skip_whitespace d) tv) as Hf.
      unfold flag_step in Hf. rewrite Hty in Hf. rewrite Hd.
      destruct Hf as [Hf|[(_ & _ & Hs & _)|(_ & _ & Hs & _)]].
      - exact Hf.
      - discriminate.
      - destruct (e_out (eat_token (skip_whitespace d) tv)) as [l t].
        simpl in Hty. subst t. discriminate. }
    split; [exact Hflag|].
    intros Hskip Hland. rewrite Hcolon.
    rewrite (lookahead_char_skipped (n_d r) j); [reflexivity | | | exact Hskip
                                                 | exact Hland].
    + rewrite Hflag. reflexivity.
    + pose proof (skip_whitespace_curr_mono d) as Hm.
      pose proof (eat_token_extent (skip_whitespace d) tv Hge) as Hx.
      rewrite Hty in Hx. destruct Hx as (Hlo & _).
      rewrite Hd. simpl. lia.
Qed.

Lemma label_lookahead_skips_gap_witness :
  let d := prsr_init_token (cstr "foo /* c */ : x") in
  let r := prsr_next_token d slot0 (answering 0) in
  emitted d (answering 0) = true
  /\ t_type (n_out r) = TOKEN_LIT
  /\ skipped_to (n_d r) (curr (n_d r)) 12 /\ lands (n_d r) 12
  /\ buf_at (n_d r) 12 = ch ":"
  /\ lit_next_colon (n_out r) = true.
Proof.
  intros d r.
  assert (H1 : 0 <= curr d) by (vm_compute; discriminate).
  assert (H2 : emitted d (answering 0) = true) by (vm_compute; reflexivity).
  assert (H3 : t_type (n_out r) = TOKEN_LIT) by (vm_compute; reflexivity).
  assert (H4 : curr (n_d r) = 3) by (vm_compute; reflexivity).
  assert (H5 : skipped_to (n_d r) (curr (n_d r)) 12).
  { rewrite H4.
    apply (skip_space_byte (n_d r) 3 12); [vm_compute; reflexivity|].
    change (3 + 1) with 4.
    apply (skip_block_comment (n_d r) 4 3 12);
      [vm_compute; reflexivity | vm_compute; reflexivity
      | vm_compute; reflexivity |].
    change (4 + 2 + 3 + 2) with 11.
    apply (skip_space_byte (n_d r) 11 12); [vm_compute; reflexivity|].
    change (11 + 1) with 12. apply skip_none. }
  assert (H6 : lands (n_d r) 12).
  { split; [vm_compute; reflexivity|].
    intros H. exfalso. revert H. vm_compute. discriminate. }
  assert (H7 : buf_at (n_d r) 12 = ch ":") by (vm_compute; reflexivity).
  pose proof (label_lookahead_skips_gap d slot0 (answering 0) 12 H1 H2)
    as (_ & Hlit).
  destruct (Hlit H3) as (_ & Hcolon).
  split; [exact H2|]. split; [exact H3|]. split; [exact H5|].
  split; [exact H6|]. split; [exact H7|].
  transitivity (buf_at (n_d r) 12 =? ch ":");
    [exact (Hcolon H5 H6) | rewrite H7; reflexivity].
Defined.

(** ** The shape of a token by its kind *)

Lemma eat_comment_shaped (d : tokendef) (c next : Z) (s : eat_step) :
  eat_comment d c next = Some s -> shaped c s.
Proof.
  unfold eat_comment. intros H.
  destruct (Z.eqb_spec c (ch "/")) as [E|E]; [|discriminate].
  simpl negb in H. cbv iota in H.
  repeat match type of H with
         | (if ?b then _ else _) = _ => destruct b
         | match ?x with Some _ => _ | None => _ end = _ => destruct x
         end; inversion H; intros _; exact E.
Qed.

Lemma eat_punct_shaped (d : tokendef) (c : Z) (s : eat_step) :
  eat_punct d c = Some s -> shaped c s.
Proof.
  unfold eat_punct. intros H.
  destruct (stack_inc d false) as [ri di].
  destruct (stack_dec d) as [rd dd].
  repeat match type of H with
         | (if ?x =? ?y then _ else _) = _ =>
             destruct (Z.eqb_spec x y)
         end;
    try discriminate;
    try (inversion H; subst s; intros _; simpl; auto; fail).
  destruct (rd <? 0); inversion H; subst s; intros _; simpl; auto.
Qed.

Lemma op_run_upper (n : nat) :
  forall d start l c l' c',
    op_run n d start l c = (l', c') -> l' <= l + Z.of_nat n.
Proof.
  induction n as [|n IH]; intros d start l c l' c' H; simpl in H.
  - inversion H; subst. lia.
  - destruct (negb (peek_char d (l + 1) =? start)).
    + inversion H; subst. lia.
    + apply IH in H. lia.
Qed.

Lemma op_allowed_upper (c : Z) (n : nat) :
  op_allowed c = Some n -> (1 <= n <= 3)%nat.
Proof.
  unfold op_allowed. intros H.
  repeat match type of H with
         | (if ?b then _ else _) = _ => destruct b
         end; inversion H; lia.
Qed.

Lemma eat_op_body_shaped (d : tokendef) (c : Z) (s : eat_step) :
  eat_op_body d c = Some s -> shaped c s.
Proof.
  unfold eat_op_body. intros H.
  destruct (op_allowed c) as [allowed|] eqn:Ea; [|discriminate].
  pose proof (op_allowed_upper c allowed Ea) as Hal.
  destruct (op_run allowed d c 0 c) as [l c'] eqn:Er.
  pose proof (op_run_upper _ _ _ _ _ _ _ Er) as Hup.
  apply op_run_spec in Er; [|lia]. destruct Er as (Hlo & _).
  assert (Hop : op_allowed c <> None) by (rewrite Ea; discriminate).
  destruct ((c =? ch "=") && (c' =? ch ">")) eqn:Earrow.
  { apply andb_prop in Earrow. destruct Earrow as [E _].
    apply Z.eqb_eq in E. inversion H; subst s. intros _. simpl. auto. }
  destruct ((c' =? c) && strchr "+-|&" c) eqn:Edouble.
  { apply andb_prop in Edouble. destruct Edouble as [_ E].
    assert (allowed = 1%nat).
    { unfold strchr in E. cbn [cstr bytes app existsb] in E.
      repeat match type of E with
             | (?a || ?b)%bool = true =>
                 apply orb_prop in E; destruct E as [E|E]
             end; try discriminate;
        try (apply Z.eqb_eq in E; rewrite E in Ea; vm_compute in Ea;
             inversion Ea; reflexivity). }
    inversion H; subst s. intros _. simpl. split; [exact Hop | lia]. }
  destruct (c' =? ch "=").
  - destruct ((peek_char d (l + 1) =? ch "=")
              && ((c =? ch "=") || (c =? ch "!"))) eqn:Etriple.
    + apply andb_prop in Etriple. destruct Etriple as [_ E].
      assert (allowed = 1%nat).
      { apply orb_prop in E. destruct E as [E|E]; apply Z.eqb_eq in E;
          rewrite E in Ea; vm_compute in Ea; inversion Ea; reflexivity. }
      inversion H; subst s. intros _. simpl. split; [exact Hop | lia].
    + inversion H; subst s. intros _. simpl. split; [exact Hop | lia].
  - inversion H; subst s. intros _. simpl. split; [exact Hop | lia].
Qed.

Lemma eat_rest_shaped (d : tokendef) (c next : Z) :
  shaped c (eat_rest d c next).
Proof.
  unfold eat_rest, eat_string, scan_string, eat_number, eat_dot, eat_regexp,
    eat_lit.
  destruct ((c =? SQUOTE) || (c =? DQUOTE) || (c =? ch "`")).
  { destruct (string_loop (fuel_of d) d c 0) as [l d']. intros _. exact I. }
  destruct (isnum c || (c =? ch ".") && isnum next) eqn:En.
  { intros _. simpl. apply orb_prop in En. destruct En as [En|En];
      [left; exact En|].
    apply andb_prop in En. destruct En as [En _]. apply Z.eqb_eq in En.
    right; exact En. }
  destruct (Z.eqb_spec c (ch ".")) as [Ed|Ed].
  { destruct ((next =? ch ".") && (peek_char d 2 =? ch "."));
      intros _; simpl; auto. }
  destruct (Z.eqb_spec c (ch "/")) as [Es|Es].
  { destruct (regexp_loop (fuel_of d) d false 1 next) as [[l c'] d'].
    intros _. exact Es. }
  destruct (negb (lit_loop (fuel_of d) d 0 c =? 0)); intros _; exact I.
Qed.

Lemma shaped_eaten {C : Type} (c : Z) (s : eat_step) (tv : tokenvalue C) :
  shaped c s ->
  shaped c (e_ret (eaten_of s tv), e_out (eaten_of s tv),
            e_d (eaten_of s tv)).
Proof. destruct s as [[r eo] d']. exact (fun H => H). Qed.

Lemma dispatch_shaped {C : Type} (d : tokendef) (tv : tokenvalue C) (c : Z) :
  shaped c (e_ret (dispatch d tv c), e_out (dispatch d tv c),
            e_d (dispatch d tv c)).
Proof.
  unfold dispatch.
  destruct (eat_comment d c (peek_char d 1)) as [s|] eqn:Ecom.
  { apply shaped_eaten. eapply eat_comment_shaped; eassumption. }
  destruct (eat_punct d c) as [s|] eqn:Epun.
  { apply shaped_eaten. eapply eat_punct_shaped; eassumption. }
  unfold eat_op.
  destruct (c =? ch "/").
  - destruct (check tv (context tv)) as [v ctx].
    destruct (Z.ltb_spec v 0) as [Ev|Ev]; [intros Hr; simpl in Hr; lia|].
    destruct (v =? 0); [apply shaped_eaten, eat_rest_shaped|].
    destruct (eat_op_body d c) as [s|] eqn:Eop; apply shaped_eaten;
      [eapply eat_op_body_shaped; eassumption | apply eat_rest_shaped].
  - destruct (eat_op_body d c) as [s|] eqn:Eop; apply shaped_eaten;
      [eapply eat_op_body_shaped; eassumption | apply eat_rest_shaped].
Qed.

Lemma eat_token_shaped {C : Type} (d : tokendef) (tv : tokenvalue C) :
  shaped (standing d)
    (e_ret (eat_token d tv), e_out (eat_token d tv), e_d (eat_token d tv)).
Proof.
  unfold eat_token, standing. rewrite peek_char_set_flag.
  destruct (Z.eqb_spec (peek_char d 0) 0) as [E0|E0].
  { intros _. simpl. auto. }
  destruct (negb (Z.land (flag d) FLAG__PENDING_T_BRACE =? 0)).
  { destruct (stack_inc (set_flag d 0) true). intros _. reflexivity. }
  destruct (negb (Z.land (flag d) FLAG__RESUME_LIT =? 0)).
  { unfold resume_lit, scan_string.
    destruct (string_loop _ _ _ _) as [l d']. intros _. exact I. }
  exact (dispatch_shaped (set_flag d 0) tv (peek_char d 0)).
Qed.

(** X16: the kind of an emitted token fixes the byte it starts on and, for
    the kinds of fixed size, its length: EOF has length 0 and stands on the
    terminator; the punctuation kinds and DOT have length 1 and stand on
    their own byte; ARROW and T_BRACE have length 2, SPREAD length 3; an OP
    starts on an operator byte and has 1 to 4 bytes; COMMENT and REGEXP
    start on a slash, NUMBER on a digit or a dot. *)
Theorem token_shape_by_kind {C : Type}
    (d : tokendef) (out : token) (tv : tokenvalue C) :
  let d0 := skip_whitespace d in
  let r := prsr_next_token d out tv in
  emitted d tv = true ->
  p (n_out r) = curr d0
  /\ kind_shape (t_type (n_out r)) (standing d0) (t_len (n_out r)).
Proof.
  intros d0 r Hem.
  destruct (emitted_call d out tv Hem) as (Hge & Hty & _ & Hp & Hl & _).
  fold r in Hty, Hp, Hl. fold d0 in Hge, Hty, Hp, Hl.
  split; [exact Hp|].
  pose proof (eat_token_shaped d0 tv Hge) as Hs.
  rewrite Hty in Hs. rewrite Hl. exact Hs.
Qed.

Lemma token_shape_by_kind_witness :
  let d := prsr_init_token (cstr "  >>>= 1") in
  let r := prsr_next_token d slot0 (answering 0) in
  emitted d (answering 0) = true
  /\ n_out r = mk_token 2 4 TOKEN_OP 1 false
  /\ kind_shape TOKEN_OP (ch ">") 4.
Proof.
  intros d r.
  assert (H1 : emitted d (answering 0) = true) by (vm_compute; reflexivity).
  assert (H2 : n_out r = mk_token 2 4 TOKEN_OP 1 false)
    by (vm_compute; reflexivity).
  assert (H3 : standing (skip_whitespace d) = ch ">")
    by (vm_compute; reflexivity).
  pose proof (token_shape_by_kind d slot0 (answering 0) H1) as (_ & Hs).
  fold r in Hs. rewrite H2, H3 in Hs.
  split; [exact H1|]. split; [exact H2|]. exact Hs.
Defined.

(** ** Regular expressions without escapes *)

Lemma in_class_step (d : tokendef) (l : Z) :
  1 <= l ->
  in_class d (Z.to_nat l)
  = if peek_char d l =? ch "[" then true
    else if peek_char d l =? ch "]" then false
    else in_class d (Z.to_nat (l - 1)).
Proof.
  intros Hl.
  replace (Z.to_nat l) with (S (Z.to_nat (l - 1))) by lia.
  cbn [in_class].
  replace (Z.of_nat (S (Z.to_nat (l - 1)))) with l by lia.
  reflexivity.
Qed.

Lemma in_class_bump (d : tokendef) (c : Z) (n : nat) :
  in_class (bump_newline d c) n = in_class d n.
Proof.
  induction n as [|n IH]; [reflexivity|].
  cbn [in_class]. rewrite !peek_char_bump_newline, IH. reflexivity.
Qed.

Lemma regexp_loop_run (fuel : nat) :
  forall d l k,
    1 <= l <= k ->
    (forall j, l <= j < k -> regexp_byte d j) ->
    peek_char d k = ch "/" -> in_class d (Z.to_nat (k - 1)) = false ->
    k - l < Z.of_nat fuel ->
    regexp_loop fuel d (in_class d (Z.to_nat (l - 1))) l (peek_char d l)
    = (k + 1, peek_char d (k + 1),
       set_line_no d (line_no d + newlines_within d l k)).
Proof.
  induction fuel as [|fuel IH]; intros d l k Hl Hrun Hend Hout Hf; [lia|].
  rewrite regexp_loop_S. cbv zeta.
  destruct (Z.eq_dec l k) as [E|E].
  - subst l. rewrite Hend, Hout, newlines_within_empty, set_line_no_same.
    reflexivity.
  - assert (Hb : regexp_byte d l) by (apply Hrun; lia).
    destruct Hb as (H0 & Hbs & Hslash).
    assert (Hnext : peek_char d (l + 1) <> 0).
    { destruct (Z.eq_dec (l + 1) k) as [E1|E1].
      - rewrite E1, Hend. discriminate.
      - assert (Hb : regexp_byte d (l + 1)) by (apply Hrun; lia).
        destruct Hb as (Hb & _). exact Hb. }
    assert (Hround : forall b,
      b = in_class d (Z.to_nat l) ->
      (if peek_char (bump_newline d (peek_char d l)) (l + 1) =? 0
       then (l + 1, peek_char (bump_newline d (peek_char d l)) (l + 1),
             bump_newline d (peek_char d l))
       else regexp_loop fuel (bump_newline d (peek_char d l)) b (l + 1)
              (peek_char (bump_newline d (peek_char d l)) (l + 1)))
      = (k + 1, peek_char d (k + 1),
         set_line_no d (line_no d + newlines_within d l k))).
    { intros b Hbv. rewrite peek_char_bump_newline.
      replace (peek_char d (l + 1) =? 0) with false
        by (symmetry; apply Z.eqb_neq; exact Hnext).
      rewrite <- (peek_char_bump_newline d (peek_char d l) (l + 1)).
      rewrite Hbv, <- (in_class_bump d (peek_char d l)).
      replace (Z.to_nat l) with (Z.to_nat (l + 1 - 1)) by (f_equal; lia).
      rewrite (IH (bump_newline d (peek_char d l)) (l + 1) k).
      - rewrite !peek_char_bump_newline, newlines_within_bump,
          set_line_no_bump.
        rewrite <- (newlines_within_step d l k) by (lia || exact H0).
        reflexivity.
      - lia.
      - intros j Hj. unfold regexp_byte.
        rewrite !peek_char_bump_newline, in_class_bump. apply Hrun. lia.
      - rewrite peek_char_bump_newline. exact Hend.
      - rewrite in_class_bump. exact Hout.
      - lia. }
    pose proof (in_class_step d l ltac:(lia)) as Hstep.
    replace (peek_char d l =? BACKSLASH) with false
      by (symmetry; apply Z.eqb_neq; exact Hbs).
    destruct (peek_char d l =? ch "[") eqn:Eo;
      [apply Hround; rewrite Hstep; reflexivity|].
    destruct (peek_char d l =? ch "]") eqn:Ec;
      [apply Hround; rewrite Hstep; reflexivity|].
    destruct (Z.eqb_spec (peek_char d l) (ch "/")) as [Es|Es].
    + rewrite (Hslash Es). simpl negb. cbn [andb].
      apply Hround. rewrite Hstep. symmetry. exact (Hslash Es).
    + rewrite andb_false_r. apply Hround. exact (eq_sym Hstep).
Qed.

Lemma flags_loop_run (fuel : nat) :
  forall d l m,
    l <= m ->
    (forall j, l <= j < m -> isalnum (peek_char d j) = true) ->
    isalnum (peek_char d m) = false ->
    m - l < Z.of_nat fuel ->
    flags_loop fuel d l (peek_char d l) = m.
Proof.
  induction fuel as [|fuel IH]; intros d l m Hl Hrun Hstop Hf; [lia|].
  rewrite flags_loop_S.
  destruct (Z.eq_dec l m) as [E|E].
  - subst l. rewrite Hstop. reflexivity.
  - rewrite (Hrun l) by lia.
    apply IH; [lia | intros j Hj; apply Hrun; lia | exact Hstop | lia].
Qed.

Lemma in_class_set_flag (d : tokendef) (v : Z) (n : nat) :
  in_class (set_flag d v) n = in_class d n.
Proof.
  induction n as [|n IH]; [reflexivity|].
  cbn [in_class]. rewrite !peek_char_set_flag, IH. reflexivity.
Qed.

Lemma dispatch_regexp {C : Type} (d : tokendef) (tv : tokenvalue C)
    (k m : Z) :
  peek_char d 1 <> ch "/" -> peek_char d 1 <> ch "*" ->
  fst (check tv (context tv)) = 0 ->
  1 <= k -> (forall j, 1 <= j < k -> regexp_byte d j) ->
  peek_char d k = ch "/" -> in_class d (Z.to_nat (k - 1)) = false ->
  k < m -> (forall j, k < j < m -> isalnum (peek_char d j) = true) ->
  isalnum (peek_char d m) = false ->
  dispatch d tv (ch "/")
  = mk_eaten 0 (CONSUME m TOKEN_REGEXP)
      (set_line_no d (line_no d + newlines_within d 1 k)) (asked tv).
Proof.
  intros H1 H2 Hv Hk Hrun Hend Hout Hm Hflags Hstop.
  assert (Hin : curr d + k < len d).
  { apply peek_char_inside. rewrite Hend. discriminate. }
  assert (Hmin : curr d + m <= len d).
  { destruct (Z.eq_dec m (k + 1)) as [E|E]; [lia|].
    assert (Hf : isalnum (peek_char d (m - 1)) = true)
      by (apply Hflags; lia).
    assert (Hnz : peek_char d (m - 1) <> 0)
      by (intros E0; rewrite E0 in Hf; discriminate).
    apply peek_char_inside in Hnz. lia. }
  rewrite (dispatch_slash d tv H1 H2). cbv zeta. rewrite Hv.
  change (0 <? 0) with false. change (0 =? 0) with true. cbv iota.
  unfold eat_regexp. change (ch "/" =? ch "/") with true. cbv iota.
  pose proof (regexp_loop_run (fuel_of d) d 1 k ltac:(lia) Hrun Hend Hout)
    as Hr.
  change (in_class d (Z.to_nat (1 - 1))) with false in Hr.
  rewrite Hr by (unfold fuel_of; lia).
  unfold or_else, eaten_of, asked.
  set (d' := set_line_no d (line_no d + newlines_within d 1 k)).
  change (peek_char d (k + 1)) with (peek_char d' (k + 1)).
  rewrite (flags_loop_run (fuel_of d') d' (k + 1) m);
    [reflexivity | lia | intros j Hj; apply Hflags; lia | exact Hstop
    | unfold fuel_of, d'; cbn [len curr set_line_no]; lia].
Qed.

(** X17: a slash that begins no comment and for which the oracle answers 0
    opens a REGEXP token.  When no body byte is escaped, the body ends at
    the first slash that is not inside a character class (a slash between
    brackets does not end it), the token goes on over the letters and
    digits behind that slash (the flags), it ends inside the buffer, and
    the line number grows by the newlines in the body. *)
Theorem regexp_without_escapes {C : Type}
    (d : tokendef) (tv : tokenvalue C) (k m : Z) :
  plain d -> slash_not_comment d ->
  fst (check tv (context tv)) = 0 ->
  1 <= k -> (forall j, 1 <= j < k -> regexp_byte d j) ->
  peek_char d k = ch "/" -> in_class d (Z.to_nat (k - 1)) = false ->
  k < m -> (forall j, k < j < m -> isalnum (peek_char d j) = true) ->
  isalnum (peek_char d m) = false ->
  eat_token d tv
  = mk_eaten 0 (CONSUME m TOKEN_REGEXP)
      (after_string d (newlines_within d 1 k)) (asked tv)
  /\ curr d + m <= len d.
Proof.
  intros Hp (Hc & H1 & H2) Hv Hk Hrun Hend Hout Hm Hflags Hstop.
  assert (Hnz : standing d <> 0) by (rewrite Hc; discriminate).
  split.
  - rewrite (eat_token_plain d tv Hp Hnz), Hc.
    rewrite (dispatch_regexp (set_flag d 0) tv k m); try assumption.
    + reflexivity.
    + intros j Hj. destruct (Hrun j Hj) as (Ha & Hb & Hcl).
      unfold regexp_byte. rewrite !peek_char_set_flag, in_class_set_flag.
      auto.
    + rewrite in_class_set_flag. exact Hout.
  - destruct (Z.eq_dec m (k + 1)) as [E|E].
    + assert (Hin : peek_char d k <> 0) by (rewrite Hend; discriminate).
      apply peek_char_inside in Hin. lia.
    + assert (Hf : isalnum (peek_char d (m - 1)) = true)
        by (apply Hflags; lia).
      assert (Hin : peek_char d (m - 1) <> 0)
        by (intros E0; rewrite E0 in Hf; discriminate).
      apply peek_char_inside in Hin. lia.
Qed.

Lemma regexp_without_escapes_witness :
  let d := prsr_init_token (cstr "/a[/]b/gi;") in
  plain d /\ slash_not_comment d
  /\ eat_token d (answering 0)
     = mk_eaten 0 (CONSUME 9 TOKEN_REGEXP) (after_string d 0)
         (asked (answering 0))
  /\ curr d + 9 <= len d.
Proof.
  intros d.
  assert (H1 : plain d) by (split; reflexivity).
  assert (H2 : slash_not_comment d).
  { split; [vm_compute; reflexivity|].
    split; vm_compute; discriminate. }
  assert (H3 : fst (check (answering 0) (context (answering 0))) = 0)
    by reflexivity.
  assert (H4 : 1 <= 6) by lia.
  assert (H5 : forall j, 1 <= j < 6 -> regexp_byte d j).
  { intros j Hj.
    assert (Hc : j = 1 \/ j = 2 \/ j = 3 \/ j = 4 \/ j = 5) by lia.
    destruct Hc as [E|[E|[E|[E|E]]]]; subst j; vm_compute;
      (split; [discriminate|]); (split; [discriminate|]);
      intros H; (reflexivity || discriminate H). }
  assert (H6 : peek_char d 6 = ch "/") by (vm_compute; reflexivity).
  assert (H7 : in_class d (Z.to_nat (6 - 1)) = false)
    by (vm_compute; reflexivity).
  assert (H8 : 6 < 9) by lia.
  assert (H9 : forall j, 6 < j < 9 -> isalnum (peek_char d j) = true).
  { intros j Hj. assert (Hc : j = 7 \/ j = 8) by lia.
    destruct Hc as [E|E]; subst j; vm_compute; reflexivity. }
  assert (H10 : isalnum (peek_char d 9) = false) by (vm_compute; reflexivity).
  assert (H11 : newlines_within d 1 6 = 0) by (vm_compute; reflexivity).
  pose proof (regexp_without_escapes d (answering 0) 6 9
                H1 H2 H3 H4 H5 H6 H7 H8 H9 H10) as (Heat & Hin).
  rewrite H11 in Heat.
  split; [exact H1|]. split; [exact H2|]. split; [exact Heat | exact Hin].
Defined.

(** ** The token behind the closing brace of a substitution *)

(** A call with resume-template-literal armed, on a run of ordinary
    template bytes behind the whitespace. *)
Lemma next_token_resumed_run {C : Type}
    (d : tokendef) (out : token) (tv : tokenvalue C) (k : Z) :
  resuming d ->
  let d1 := skip_whitespace d in
  let r := prsr_next_token d out tv in
  0 <= k ->
  (forall j, 0 <= j < k -> string_byte d1 (ch "`") j) ->
  peek_char d1 k = ch "`" \/ peek_char d1 k = 0
  \/ (peek_char d1 k = ch "$" /\ peek_char d1 (k + 1) = ch "{") ->
  t_len (n_out r) = (if peek_char d1 k =? ch "`" then k + 1 else k)
  /\ flag (n_d r)
     = (if peek_char d1 k =? ch "$" then FLAG__PENDING_T_BRACE else 0)
  /\ line_no (n_d r) = line_no d1 + newlines_within d1 0 k.
Proof.
  intros Hres d1 r Hk Hrun Hstop.
  assert (Hres1 : resuming d1).
  { unfold resuming, d1.
    destruct (skip_whitespace_fields d) as (_ & _ & Hf & _).
    rewrite Hf. exact Hres. }
  destruct (Z.eq_dec (standing d1) 0) as [E0|E0].
  - assert (Ek : k = 0).
    { destruct (Z.eq_dec k 0) as [E|E]; [exact E|].
      destruct (Hrun 0 ltac:(lia)) as (H & _). contradiction. }
    subst k. unfold r, prsr_next_token. fold d1.
    rewrite (eat_token_eof d1 tv E0), newlines_within_empty.
    change (peek_char d1 0) with (standing d1). rewrite E0.
    destruct (0 <? depth d1);
      (split; [reflexivity|]; split; [reflexivity|]; simpl; lia).
  - assert (He : eat_token d1 tv
                 = (let '(n, d') :=
                      string_end d1 (ch "`") k
                        (after_string d1 (newlines_within d1 0 k)) in
                    mk_eaten 0 (CONSUME n TOKEN_STRING) d' tv)).
    { rewrite (eat_token_resuming d1 tv Hres1 E0). unfold resume_lit.
      rewrite (scan_string_run d1 (ch "`") (-1) k).
      - change (-1 + 1) with 0.
        destruct (string_end d1 (ch "`") k
                    (after_string d1 (newlines_within d1 0 k)));
          reflexivity.
      - lia.
      - intros j Hj. apply Hrun. lia.
      - destruct Hstop as [H|[H|H]]; [right; left; exact H | left; exact H|].
        right; right. split; [reflexivity | exact H]. }
    unfold r, prsr_next_token. fold d1. rewrite He. unfold string_end.
    destruct Hstop as [Hs|[Hs|(Hs & Hs2)]]; rewrite Hs;
      (split; [reflexivity|]; split; reflexivity).
Qed.

(** C2, as the code has it: the closing brace of a substitution is the
    CLOSE token's own byte; the call arms resume-template-literal and moves
    the cursor past the brace, and the next call emits a token that starts
    behind the brace, at the first byte after it that is not whitespace: a
    STRING unless the buffer ends there.  That token scans the template
    on: when the bytes from its start up to offset k are ordinary template
    bytes (no backtick, no backslash, no terminator, no substitution), it
    ends behind the backtick met at k (length k + 1, flags clear), in front
    of the substitution met at k (length k, pending-substitution-open
    armed) or in front of the terminator met at k (length k), and the line
    number grows by the newlines stepped over.  For the template literal
    [hi ${x} bye] in backticks the stream is STRING(4) T_BRACE(2) LIT(1)
    CLOSE(1) STRING(4) EOF(0), the last STRING covering [bye] and the
    closing backtick; with more input behind the closing backtick, or with
    a second substitution, the resumed STRING stops there. *)
Theorem close_brace_resumes_template :
  (forall (C : Type) (d : tokendef) (out : token) (tv : tokenvalue C),
      plain d ->
      let d0 := skip_whitespace d in
      standing d0 = ch "}" -> depth d <> 0 -> top_bit d = true ->
      let r := prsr_next_token d out tv in
      let d1 := skip_whitespace (n_d r) in
      let r2 := prsr_next_token (n_d r) (n_out r) (n_tv r) in
      n_ret r = 0
      /\ n_out r = mk_token (curr d0) 1 TOKEN_CLOSE (line_no d0) false
      /\ curr (n_d r) = curr d0 + 1
      /\ resuming (n_d r)
      /\ depth (n_d r) = depth d - 1
      /\ n_ret r2 = 0
      /\ p (n_out r2) = curr d1
      /\ p (n_out r) < p (n_out r2)
      /\ t_type (n_out r2)
         = (if standing d1 =? 0 then TOKEN_EOF else TOKEN_STRING)
      /\ (forall k, 0 <= k ->
            (forall j, 0 <= j < k -> string_byte d1 (ch "`") j) ->
            peek_char d1 k = ch "`" \/ peek_char d1 k = 0
            \/ (peek_char d1 k = ch "$" /\ peek_char d1 (k + 1) = ch "{") ->
            t_len (n_out r2)
            = (if peek_char d1 k =? ch "`" then k + 1 else k)
            /\ flag (n_d r2)
               = (if peek_char d1 k =? ch "$"
                  then FLAG__PENDING_T_BRACE else 0)
            /\ line_no (n_d r2) = line_no d1 + newlines_within d1 0 k))
  /\ (let cs := scan "`hi ${x} bye`" 1 in
      shape cs
      = [(TOKEN_STRING, 4); (TOKEN_T_BRACE, 2); (TOKEN_LIT, 1);
         (TOKEN_CLOSE, 1); (TOKEN_STRING, 4); (TOKEN_EOF, 0)]
      /\ map (fun c => p (c_tok c)) cs = [0; 4; 6; 7; 9; 13]
      /\ firstn 4 (skipn 9 (cstr "`hi ${x} bye`")) = bytes "bye`")
  /\ shape (scan "`a${x}b` + 1" 1)
     = [(TOKEN_STRING, 2); (TOKEN_T_BRACE, 2); (TOKEN_LIT, 1);
        (TOKEN_CLOSE, 1); (TOKEN_STRING, 2); (TOKEN_OP, 1);
        (TOKEN_NUMBER, 1); (TOKEN_EOF, 0)]
  /\ shape (scan "`a${x}b${y}c`" 1)
     = [(TOKEN_STRING, 2); (TOKEN_T_BRACE, 2); (TOKEN_LIT, 1);
        (TOKEN_CLOSE, 1); (TOKEN_STRING, 1); (TOKEN_T_BRACE, 2);
        (TOKEN_LIT, 1); (TOKEN_CLOSE, 1); (TOKEN_STRING, 2);
        (TOKEN_EOF, 0)].
Proof.
  split; [| split; [vm_compute; repeat split
                   | split; vm_compute; reflexivity]].
  intros C d out tv Hp d0 Hc Hd Ht r d1 r2.
  assert (Hp0 : plain d0) by (apply plain_skip_whitespace; exact Hp).
  destruct (skip_whitespace_fields d) as (_ & _ & _ & Hdep & _).
  fold d0 in Hdep.
  assert (Hd0 : depth (set_flag d0 0) <> 0) by (simpl; rewrite Hdep; exact Hd).
  assert (He : eat_token d0 tv
               = mk_eaten 0 (CONSUME 1 TOKEN_CLOSE)
                   (set_flag
                      (set_stack (set_flag d0 0) (depth d0 - 1) (stack d0))
                      FLAG__RESUME_LIT) tv).
  { rewrite eat_token_plain; [| exact Hp0 | rewrite Hc; discriminate].
    rewrite Hc, dispatch_close_brace, (stack_dec_top _ Hd0).
    unfold d0. rewrite top_bit_skip_whitespace, Ht. reflexivity. }
  assert (Hr : r = mk_next_token 0
                 (set_curr
                    (set_flag
                       (set_stack (set_flag d0 0) (depth d0 - 1) (stack d0))
                       FLAG__RESUME_LIT) (curr d0 + 1))
                 (mk_token (curr d0) 1 TOKEN_CLOSE (line_no d0) false) tv).
  { subst r. unfold prsr_next_token. fold d0. rewrite He. reflexivity. }
  assert (Hres : resuming (n_d r)).
  { rewrite Hr. unfold resuming. simpl. split; [reflexivity | discriminate]. }
  assert (Hres1 : resuming d1).
  { unfold resuming, d1.
    destruct (skip_whitespace_fields (n_d r)) as (_ & _ & Hf & _).
    rewrite Hf. exact Hres. }
  assert (Hcur : curr (n_d r) = curr d0 + 1) by (rewrite Hr; reflexivity).
  assert (H2 : n_ret r2 = 0 /\ p (n_out r2) = curr d1
               /\ t_type (n_out r2)
                  = (if standing d1 =? 0 then TOKEN_EOF else TOKEN_STRING)).
  { subst r2. unfold prsr_next_token. fold d1.
    destruct (standing d1 =? 0) eqn:Est.
    - apply Z.eqb_eq in Est. rewrite (eat_token_eof d1 _ Est).
      simpl. destruct (0 <? depth d1); simpl; repeat split.
    - apply Z.eqb_neq in Est.
      rewrite (eat_token_resuming d1 _ Hres1 Est).
      unfold resume_lit, scan_string.
      destruct (string_loop (fuel_of (set_flag d1 0)) (set_flag d1 0)
                  (ch "`") (-1)) as [l d2] eqn:E.
      apply string_loop_fields in E. destruct E as (_ & Hc2 & _).
      simpl in *. rewrite Hc2. repeat split. }
  destruct H2 as (H2a & H2b & H2c).
  assert (Hp1 : p (n_out r) = curr d0) by (rewrite Hr; reflexivity).
  pose proof (skip_whitespace_curr_mono (n_d r)) as Hm. fold d1 in Hm.
  split; [rewrite Hr; reflexivity|].
  split; [rewrite Hr; reflexivity|].
  split; [exact Hcur|].
  split; [exact Hres|].
  split; [rewrite Hr; simpl; lia|].
  split; [exact H2a|].
  split; [exact H2b|].
  split; [lia|].
  split; [exact H2c|].
  intros k Hk Hrun Hstop.
  exact (next_token_resumed_run (n_d r) (n_out r) (n_tv r) k
           Hres Hk Hrun Hstop).
Qed.

Lemma close_brace_resumes_template_witness :
  let d := n_d (reached "`a${x}b` + 1" 1 3) in
  let r := prsr_next_token d slot0 (answering 1) in
  let d1 := skip_whitespace (n_d r) in
  let r2 := prsr_next_token (n_d r) (n_out r) (n_tv r) in
  plain d /\ standing (skip_whitespace d) = ch "}"
  /\ depth d <> 0 /\ top_bit d = true
  /\ p (n_out r) = 5
  /\ p (n_out r) < p (n_out r2)
  /\ peek_char d1 1 = ch "`"
  /\ t_len (n_out r2) = 2
  /\ flag (n_d r2) = 0.
Proof.
  intros d r d1 r2.
  assert (H1 : plain d) by (split; vm_compute; reflexivity).
  assert (H2 : standing (skip_whitespace d) = ch "}")
    by (vm_compute; reflexivity).
  assert (H3 : depth d <> 0) by (vm_compute; discriminate).
  assert (H4 : top_bit d = true) by (vm_compute; reflexivity).
  assert (H5 : 0 <= 1) by lia.
  assert (H6 : forall j, 0 <= j < 1 -> string_byte d1 (ch "`") j).
  { intros j Hj. assert (E : j = 0) by lia. subst j. vm_compute.
    (split; [discriminate|]); (split; [discriminate|]);
      (split; [discriminate|]); intros (_ & H & _); discriminate. }
  assert (H7 : peek_char d1 1 = ch "`") by (vm_compute; reflexivity).
  pose proof (proj1 close_brace_resumes_template nat d slot0 (answering 1)
                H1 H2 H3 H4)
    as (_ & Hout & _ & _ & _ & _ & _ & Hlt & _ & Hext).
  destruct (Hext 1 H5 H6 (or_introl H7)) as (Hlen & Hflag & _).
  split; [exact H1|]. split; [exact H2|]. split; [exact H3|].
  split; [exact H4|].
  split; [unfold r; rewrite Hout; vm_compute; reflexivity|].
  split; [exact Hlt|]. split; [exact H7|].
  split.
  - transitivity (if peek_char d1 1 =? ch "`" then 1 + 1 else 1);
      [exact Hlen | rewrite H7; reflexivity].
  - transitivity (if peek_char d1 1 =? ch "$"
                  then FLAG__PENDING_T_BRACE else 0);
      [exact Hflag | rewrite H7; reflexivity].
Defined.
